(** * Trace Analyst: sampling, prompt rendering, reasoning, batch ranking,
    the streaming endpoint, the in-memory store and the default prompts.

    A shallow embedding of [server/services/openai.ts], of the routes that
    choose the traces, stream the analysis and rewrite the default prompts,
    of [server/storage.ts] and of [shared/config.ts], with the properties
    the specification states about them and further properties the code
    has. *)

From Stdlib Require Import ZArith List String Ascii Bool Lia Arith.
From Stdlib Require Import Permutation Sorted DecimalString.
From Stdlib Require Import QArith Qminmax.
From Stdlib Require Import Floats.SpecFloat.
From Stdlib Require Import Reals Lra.
Import ListNotations.

Local Open Scope Z_scope.

(** ** JavaScript numbers

    A JavaScript [number] is an IEEE 754 binary64 value.  The only place the
    sampler leaves the integers is [rng / 233280] and the product with
    [i + 1]; both are taken from the standard library's specification of
    binary64 arithmetic, so that the rounding of the quotient is the one the
    program sees. *)
Module Number.

Definition number : Type := spec_float.

(** binary64: 53 bits of precision, exponents below 1024.

    An integer literal or integer-valued variable as a [number]. *)
Definition of_int (z : Z) : number := binary_normalize 53 1024 z 0 false.

Definition div (x y : number) : number := SFdiv 53 1024 x y.
Definition mul (x y : number) : number := SFmul 53 1024 x y.

(** [Math.floor], read back as an integer.  [Z.shiftr] rounds towards minus
    infinity.  NaN and the infinities have no integer floor; they are sent
    to [0] here, and the sampler never floors one for an array of fewer
    than [2^32] elements ([SamplerFacts.shuffleArray_strict]). *)
Definition floor (x : number) : Z :=
  match x with
  | S754_finite s m e =>
      let v := if s then Z.neg m else Z.pos m in
      if 0 <=? e then v * 2 ^ e else Z.shiftr v (- e)
  | _ => 0
  end.

(** The real number a finite binary64 value stands for. *)
Definition pow2 (e : Z) : R := powerRZ 2 e.

Definition to_R (x : number) : R :=
  match x with
  | S754_finite s m e => ((if s then -1 else 1) * IZR (Z.pos m) * pow2 e)%R
  | _ => 0%R
  end.

(** [+0] or a positive finite value. *)
Definition nonneg_finite (x : number) : Prop :=
  match x with
  | S754_zero false | S754_finite false _ _ => True
  | _ => False
  end.

Definition is_nonneg_finite (x : number) : bool :=
  match x with
  | S754_zero false | S754_finite false _ _ => true
  | _ => false
  end.

Definition exp_ge (b : Z) (x : number) : Prop :=
  match x with
  | S754_finite _ _ e => b <= e
  | _ => True
  end.

Definition is_exact (l : location) : bool :=
  match l with loc_Exact => true | _ => false end.

(** An upper bound of every draw [rng / 233280] with [0 <= rng < 233280]:
    the exact quotient is at most [233279 / 233280], and conversion and
    division each round by a factor of at most [1 + 2^-52]. *)
Definition draw_bound : R :=
  (233279 / 233280 * ((1 + pow2 (-52)) * (1 + pow2 (-52))) + pow2 (-53))%R.

End Number.

(** ** Arrays *)
Module Arr.

(** [a[i] = x] for [i] inside the array; outside it the array is left as it
    is (the program never writes there, see
    [SamplerFacts.shuffleArray_strict]). *)
Fixpoint set_nth {T} (i : nat) (x : T) (a : list T) : list T :=
  match a, i with
  | [], _ => []
  | _ :: t, O => x :: t
  | h :: t, S i' => h :: set_nth i' x t
  end.

(** [[a[i], a[j]] = [a[j], a[i]]]: both reads, then the write to [a[i]],
    then the write to [a[j]]. *)
Definition swap {T} (i j : nat) (a : list T) : list T :=
  match nth_error a i, nth_error a j with
  | Some ai, Some aj => set_nth j ai (set_nth i aj a)
  | _, _ => a
  end.

(** [a.map((x, index) => f index x)], with [index] counted from [start]. *)
Fixpoint mapi_from {A B} (start : nat) (f : nat -> A -> B) (a : list A) : list B :=
  match a with
  | [] => []
  | x :: t => f start x :: mapi_from (S start) f t
  end.

Definition mapi {A B} (f : nat -> A -> B) (a : list A) : list B :=
  mapi_from 0 f a.

(** [a.slice(0, end)]: a negative [end] counts from the end of the array. *)
Definition slice0 {T} (end_ : Z) (a : list T) : list T :=
  let len := Z.of_nat (List.length a) in
  let final := if end_ <? 0 then Z.max (len + end_) 0 else Z.min end_ len in
  firstn (Z.to_nat final) a.

End Arr.

(** ** Strings

    A [string] is read as a sequence of UTF-16 code units, one per
    character here, so that [String.length] is [.length]. *)
Module Str.
Local Open Scope string_scope.

Definition newline : string := String (ascii_of_nat 10) "".

(** [s.slice(0, n)] *)
Definition take (n : nat) (s : string) : string := substring 0 n s.

(** [s.slice(-n)] *)
Definition take_last (n : nat) (s : string) : string :=
  substring (String.length s - n) n s.

(** A number inside a template literal: its decimal digits. *)
Definition of_nat (n : nat) : string := NilEmpty.string_of_uint (Nat.to_uint n).

(** [parts.join(sep)] *)
Definition join (sep : string) (parts : list string) : string :=
  String.concat sep parts.

(** [s.split(sep)] for a one-character separator. *)
Fixpoint split (sep : ascii) (s : string) : list string :=
  match s with
  | "" => [""]
  | String c s' =>
      if Ascii.eqb c sep then "" :: split sep s'
      else match split sep s' with
           | w :: ws => String c w :: ws
           | [] => [String c ""]
           end
  end.

(** The white space [trim] removes, among the characters a [string] has
    here: tab, line feed, vertical tab, form feed, carriage return, space and
    no-break space. *)
Definition whitespace (c : ascii) : bool :=
  let n := nat_of_ascii c in
  ((9 <=? n) && (n <=? 13) || (n =? 32) || (n =? 160))%nat.

Fixpoint all_whitespace (s : string) : bool :=
  match s with
  | "" => true
  | String c s' => whitespace c && all_whitespace s'
  end.

(** [content.split("\n").filter((line) => line.trim() !== "")]: the traces
    of an uploaded text. *)
Definition nonBlankLines (content : string) : list string :=
  filter (fun line => negb (all_whitespace line)) (split (ascii_of_nat 10) content).

(** [s] without the prefix [pat], when it starts with it. *)
Fixpoint strip_prefix (pat s : string) : option string :=
  match pat, s with
  | "", _ => Some s
  | String _ _, "" => None
  | String a pat', String b s' =>
      if Ascii.eqb a b then strip_prefix pat' s' else None
  end.

(** The text before and after the leftmost occurrence of [pat] in [s]. *)
Fixpoint find_first (pat s : string) : option (string * string) :=
  match strip_prefix pat s with
  | Some rest => Some ("", rest)
  | None =>
      match s with
      | "" => None
      | String c s' =>
          match find_first pat s' with
          | Some (before, after) => Some (String c before, after)
          | None => None
          end
      end
  end.

(** The replacement text of [String.prototype.replace] for a string
    pattern: [$$] is a dollar sign, [$&] the matched text, [$`] the text
    before the match, [$'] the text after it; with no capture groups every
    other [$] stands for itself. *)
Fixpoint expand (replacement before matched after : string) : string :=
  match replacement with
  | "" => ""
  | String "$" ((String c rest) as tail) =>
      if Ascii.eqb c "$" then "$" ++ expand rest before matched after
      else if Ascii.eqb c "&" then matched ++ expand rest before matched after
      else if Ascii.eqb c "`" then before ++ expand rest before matched after
      else if Ascii.eqb c "'" then after ++ expand rest before matched after
      else String "$" (expand tail before matched after)
  | String c rest => String c (expand rest before matched after)
  end.

(** [s.replace(pat, replacement)] with a string pattern: the leftmost
    occurrence only. *)
Definition replace (s pat replacement : string) : string :=
  match find_first pat s with
  | None => s
  | Some (before, after) => before ++ expand replacement before pat after ++ after
  end.

(** Every occurrence of [pat] replaced by [by_] as it is, left to right,
    the inserted text not scanned again.  The program does not use it; it is
    what a substitution of each occurrence would compute. *)
Fixpoint replace_each_fuel (fuel : nat) (s pat by_ : string) : string :=
  match fuel with
  | O => s
  | S fuel' =>
      match find_first pat s with
      | None => s
      | Some (before, after) => before ++ by_ ++ replace_each_fuel fuel' after pat by_
      end
  end.

Definition replace_each (s pat by_ : string) : string :=
  replace_each_fuel (S (String.length s)) s pat by_.

Definition has_dollar (s : string) : bool :=
  match find_first "$" s with Some _ => true | None => false end.

(** Whether [s] holds one of the four replacement patterns, [$$], [$&],
    [$`] or [$']. *)
Fixpoint has_pattern (s : string) : bool :=
  match s with
  | "" => false
  | String c rest =>
      match rest with
      | String d _ =>
          Ascii.eqb c "$"
          && (Ascii.eqb d "$" || Ascii.eqb d "&" || Ascii.eqb d "`" || Ascii.eqb d "'")
      | "" => false
      end
      || has_pattern rest
  end.

(** [pat] occurs in [s] between [before] and [after], and nowhere further
    to the left. *)
Definition leftmost (pat s before after : string) : Prop :=
  s = before ++ pat ++ after /\
  forall b a, s = b ++ pat ++ a -> (String.length before <= String.length b)%nat.

(** [pat] does not occur in [s]. *)
Definition absent (pat s : string) : Prop :=
  forall b a, s <> b ++ pat ++ a.

End Str.

(** ** The deterministic sampler *)
Module Sampler.
Import Number Arr.

Record IndexedTrace : Type := mkIndexed {
  trace : string;
  originalIndex : nat
}.

(** [seededRandom]: advances the generator and returns the new state with
    the draw [rng / 233280].  [%] is the remainder that takes the sign of
    the dividend, [Z.rem]. *)
Definition seededRandom (rng : Z) : Z * number :=
  let rng' := Z.rem (rng * 9301 + 49297) 233280 in
  (rng', div (of_int rng') (of_int 233280)).

(** [Math.floor(seededRandom() * (i + 1))] *)
Definition scaled (draw : number) (i : nat) : Z :=
  floor (mul draw (of_int (Z.of_nat i + 1))).

(** The same as the array index [j]. *)
Definition pick (draw : number) (i : nat) : nat := Z.to_nat (scaled draw i).

(** The loop [for (let i = shuffled.length - 1; i > 0; i--)], entered at
    [i]. *)
Fixpoint shuffle_loop {T} (i : nat) (rng : Z) (shuffled : list T) : list T :=
  match i with
  | O => shuffled
  | S i' =>
      let (rng', draw) := seededRandom rng in
      let j := pick draw i in
      shuffle_loop i' rng' (swap i j shuffled)
  end.

(** The loop once more, now stopping with [None] where the program would
    floor a product that is not a finite number at least zero, or index
    outside the array: the places where [floor] and [swap] above are not
    the program's. *)
Fixpoint shuffle_loop_strict {T} (i : nat) (rng : Z) (shuffled : list T)
  : option (list T) :=
  match i with
  | O => Some shuffled
  | S i' =>
      let (rng', draw) := seededRandom rng in
      let j := pick draw i in
      if is_nonneg_finite (mul draw (of_int (Z.of_nat i + 1)))
         && (i <? List.length shuffled)%nat && (j <? List.length shuffled)%nat
      then shuffle_loop_strict i' rng' (swap i j shuffled)
      else None
  end.

(** [shuffleArray(array, seed)].  Both callers pass a seed; the branch that
    seeds the generator from [Math.random] is not part of the model. *)
Definition shuffleArray {T} (array : list T) (seed : Z) : list T :=
  shuffle_loop (List.length array - 1) seed array.

(** [traces.map((trace, index) => ({ trace, originalIndex: index + 1 }))] *)
Definition tracesWithIndexes (traces : list string) : list IndexedTrace :=
  mapi (fun index trace => mkIndexed trace (index + 1)) traces.

(** [traces.join('').length % 100000] *)
Definition contentSeed (traces : list string) : Z :=
  Z.rem (Z.of_nat (String.length (String.concat "" traces))) 100000.

(** The sample of [analyzeDatasetGapsStreaming], [traces] being the
    non-blank lines of the uploaded text: [shuffledTraces.slice(0,
    Math.min(maxTracesForAnalysis, traces.length))]. *)
Definition selectedTraces (traces : list string) (maxTracesForAnalysis : Z)
  : list IndexedTrace :=
  let shuffledTraces := shuffleArray (tracesWithIndexes traces) (contentSeed traces) in
  slice0 (Z.min maxTracesForAnalysis (Z.of_nat (List.length traces))) shuffledTraces.

End Sampler.

(** ** The sampler as the specification words it

    Pair each trace with its 1-based position; seed a linear congruential
    generator with the sum of the lengths modulo 100000; shuffle backwards,
    each step advancing [state = (state * 9301 + 49297) mod 233280] and
    drawing [state / 233280]; keep the first [min(maxCount, len)]
    elements. *)
Module Reference.
Import Number Arr Sampler.

Definition seed (traces : list string) : Z :=
  Z.of_nat (list_sum (map String.length traces)) mod 100000.

Definition positioned (traces : list string) : list IndexedTrace :=
  map (fun p => mkIndexed (fst p) (snd p))
      (combine traces (seq 1 (List.length traces))).

Definition lcg (state : Z) : Z := (state * 9301 + 49297) mod 233280.

Definition draw (state : Z) : number := div (of_int state) (of_int 233280).

(** The elements at positions [i] and [j] change places. *)
Definition exchange {T} (i j : nat) (a : list T) : list T :=
  mapi (fun k x =>
          if (k =? i)%nat then nth j a x
          else if (k =? j)%nat then nth i a x
          else x) a.

(** For [i] from the last position down to [1]: draw [j] in [0 .. i] and
    exchange positions [i] and [j]. *)
Fixpoint fisher_yates {T} (i : nat) (state : Z) (a : list T) : list T :=
  match i with
  | O => a
  | S i' =>
      let state' := lcg state in
      let j := Z.to_nat (floor (mul (draw state') (of_int (Z.of_nat i + 1)))) in
      fisher_yates i' state' (exchange i j a)
  end.

Definition sample (traces : list string) (maxCount : Z) : list IndexedTrace :=
  firstn (Z.to_nat (Z.min maxCount (Z.of_nat (List.length traces))))
         (fisher_yates (List.length traces - 1) (seed traces) (positioned traces)).

End Reference.

(** ** Prompt assembly *)
Module Prompt.
Import Str Sampler.
Local Open Scope string_scope.

Inductive Role : Type := user | assistant.

Record ChatMessage : Type := mkMessage {
  type : Role;
  content : string
}.

Record Prompts : Type := mkPrompts {
  analysis : string;
  reasoning : string
}.

(** [customPrompt || DEFAULT]: an absent or empty custom prompt gives the
    default. *)
Definition orDefault (customPrompt : option string) (default : string) : string :=
  match customPrompt with
  | Some ((String _ _) as p) => p
  | _ => default
  end.

Definition formatMessage (msg : ChatMessage) : string :=
  (match type msg with user => "User" | assistant => "AI" end) ++ ": " ++ content msg.

Definition formatHistory (chatHistory : list ChatMessage) : string :=
  join (newline ++ newline) (map formatMessage chatHistory).

(** The conversation of the analysis prompt. *)
Definition analysisConversation (chatHistory : list ChatMessage) (userQuery : string)
  : string :=
  match chatHistory with
  | [] => "User: " ++ userQuery
  | _ => formatHistory chatHistory ++ newline ++ newline ++ "User: " ++ userQuery
  end.

(** One line of the traces section of the analysis prompt. *)
Definition traceLine (t : IndexedTrace) : string :=
  of_nat (originalIndex t) ++ ": " ++ trace t.

(** The pictograph before FOCUS is two code units in the program and four
    characters here; no length of this text is ever taken. *)
Definition tracesSection (selectedTraces : list IndexedTrace) (total : nat) : string :=
  join newline (map traceLine selectedTraces) ++ newline ++ newline
  ++ "📊 FOCUS: These traces are your PRIMARY data source ("
  ++ of_nat (List.length selectedTraces) ++ " traces selected from "
  ++ of_nat total ++ " total).".

(** [finalPrompt]: the three replacements, in the order the program makes
    them.  [datasetsSection] is the text built from the uploaded
    datasets. *)
Definition finalPrompt (analysisPrompt conversationContext tracesSection datasetsSection : string)
  : string :=
  replace (replace (replace analysisPrompt "{conversation}" conversationContext)
                   "{traces}" tracesSection)
          "{datasets}" datasetsSection.

(** The prompt [analyzeDatasetGapsStreaming] sends to the chat model. *)
Definition analysisRequest (DEFAULT_PROMPTS : Prompts) (customPrompt : option string)
  (chatHistory : list ChatMessage) (langsmithContent userQuery : string)
  (maxTracesForAnalysis : Z) (datasetsSection : string) : string :=
  let traces := nonBlankLines langsmithContent in
  finalPrompt (orDefault customPrompt (analysis DEFAULT_PROMPTS))
              (analysisConversation chatHistory userQuery)
              (tracesSection (selectedTraces traces maxTracesForAnalysis)
                             (List.length traces))
              datasetsSection.

(** The conversation of the reasoning prompt before it is cut. *)
Definition reasoningConversationFull (chatHistory : list ChatMessage)
  (userQuery aiResponse : string) : string :=
  match chatHistory with
  | [] => "User: " ++ userQuery ++ newline ++ newline ++ "AI: " ++ aiResponse
  | _ => formatHistory chatHistory ++ newline ++ newline ++ "User: " ++ userQuery
         ++ newline ++ newline ++ "AI: " ++ aiResponse
  end.

Definition maxConversationLength : nat := 2000.

Definition truncateConversation (conversationContext : string) : string :=
  if (maxConversationLength <? String.length conversationContext)%nat
  then take_last maxConversationLength conversationContext
  else conversationContext.

Definition reasoningConversation (chatHistory : list ChatMessage)
  (userQuery aiResponse : string) : string :=
  truncateConversation (reasoningConversationFull chatHistory userQuery aiResponse).

Definition maxTraceLength : nat := 200.

Definition truncatedTrace (trace : string) : string :=
  if (maxTraceLength <? String.length trace)%nat
  then take maxTraceLength trace ++ "..."
  else trace.

(** One line of [optimizedTraces]. *)
Definition optimizedLine (t : IndexedTrace) : string :=
  of_nat (originalIndex t) ++ ": " ++ truncatedTrace (trace t).

Definition optimizedTraces (tracesForReasoning : list IndexedTrace) : string :=
  join newline (map optimizedLine tracesForReasoning).

Definition reasoningPrompt (template conversationContext optimizedTraces : string) : string :=
  replace (replace template "{conversation}" conversationContext)
          "{traces}" optimizedTraces.

End Prompt.

(** ** Results of calls that may throw *)
Module Exn.

Inductive outcome (A : Type) : Type :=
| Returns (a : A)
| Throws (message : string).
Arguments Returns {A} a.
Arguments Throws {A} message.

(** [try { body } catch (e) { handler }] *)
Definition try_catch {A} (body : outcome A) (handler : string -> outcome A) : outcome A :=
  match body with
  | Returns a => Returns a
  | Throws e => handler e
  end.

(** One statement after another: a throw in the first skips the second. *)
Definition bind {A B} (m : outcome A) (k : A -> outcome B) : outcome B :=
  match m with
  | Returns a => k a
  | Throws e => Throws e
  end.

Notation "x <- m ;; k" := (bind m (fun x => k))
  (at level 61, m at next level, right associativity).

(** [items.map(f)] where [f] may throw: the first throw ends the map. *)
Fixpoint map_throwing {A B} (f : A -> outcome B) (items : list A) : outcome (list B) :=
  match items with
  | [] => Returns []
  | x :: rest =>
      y <- f x ;;
      ys <- map_throwing f rest ;;
      Returns (y :: ys)
  end.

(** [items.filter(p)] where [p] may throw. *)
Fixpoint filter_throwing {A} (p : A -> outcome bool) (items : list A) : outcome (list A) :=
  match items with
  | [] => Returns []
  | x :: rest =>
      b <- p x ;;
      ys <- filter_throwing p rest ;;
      Returns (if b then x :: ys else ys)
  end.

End Exn.

(** ** The reasoning caller, [selectRelevantTraces] *)
Module Reasoning.
Import Str Arr Sampler Prompt Exn.
Local Open Scope string_scope.

Record TaggedTrace : Type := mkTagged {
  trace : string;
  tags : list string
}.

(** The function-call payload as [JSON.parse] returns it.  Fields have the
    type the function schema declares and may be missing ([None]); an entry
    of the array may be [null] ([None]).  A JSON number is a rational. *)
Module Args.
Record Item : Type := mkItem {
  line_number : option Q;
  relevance_score : option Q;
  tags : option (list string)
}.
Record t : Type := mkArgs {
  selected_traces : option (list (option Item))
}.
End Args.

(** [function_call.arguments] under [JSON.parse]. *)
Inductive Arguments : Type :=
| NotJSON
| JSON (reasoningArgs : Args.t).

(** What [await openai.chat.completions.create(...)] does: it rejects
    (network or provider failure, abort), or resolves to a message with or
    without a function call. *)
Inductive Completion : Type :=
| Rejected (message : string)
| Message (function_call : option Arguments).

(** Step 1, [allTraces] being the non-blank lines of [langsmithContent].  A
    non-empty [preSelectedTraces] is used as it is; otherwise the first 250
    traces are indexed and shuffled. *)
Definition tracesForReasoning (allTraces : list string)
  (preSelectedTraces : option (list IndexedTrace)) : list IndexedTrace :=
  match preSelectedTraces with
  | Some ((_ :: _) as pre) => pre
  | _ =>
      let limitedTraces := slice0 250 allTraces in
      shuffleArray (tracesWithIndexes limitedTraces) (contentSeed limitedTraces)
  end.

(** [t.originalIndex === lineNumber] *)
Definition sameLine (lineNumber : option Q) (t : IndexedTrace) : bool :=
  match lineNumber with
  | Some q => Qeq_bool (inject_Z (Z.of_nat (originalIndex t))) q
  | None => false
  end.

(** The callback of [selectedTraces.map]; reading a property of [null]
    throws. *)
Definition tagItem (tracesForReasoning : list IndexedTrace) (item : option Args.Item)
  : outcome TaggedTrace :=
  match item with
  | None => Throws "TypeError"
  | Some item =>
      let lineNumber := Args.line_number item in
      let matchingTrace := find (sameLine lineNumber) tracesForReasoning in
      let trace := match matchingTrace with
                   | Some t => Sampler.trace t
                   | None => ""
                   end in
      Returns (mkTagged trace (match Args.tags item with Some l => l | None => [] end))
  end.

(** Step 5, the inner [try]: parse, then map when [selected_traces] is a
    non-empty array; its [catch] logs and leaves [tracesWithTags] empty. *)
Definition processArguments (tracesForReasoning : list IndexedTrace)
  (arguments : Arguments) : outcome (list TaggedTrace) :=
  try_catch
    (match arguments with
     | NotJSON => Throws "SyntaxError"
     | JSON reasoningArgs =>
         match Args.selected_traces reasoningArgs with
         | Some ((_ :: _) as selectedTraces) =>
             map_throwing (tagItem tracesForReasoning) selectedTraces
         | _ => Returns []
         end
     end)
    (fun _ => Returns []).

(** The tags of an output entry: those of the item, none when it has
    none. *)
Definition tagsOf (item : Args.Item) : list string :=
  match Args.tags item with Some l => l | None => [] end.

(** What one item of the payload becomes. *)
Definition mapsTo (sample : list IndexedTrace) (item : Args.Item) (tagged : TaggedTrace)
  : Prop :=
  tags tagged = tagsOf item /\
  ((exists t, In t sample /\ sameLine (Args.line_number item) t = true
              /\ trace tagged = Sampler.trace t)
   \/ (forall t, In t sample -> sameLine (Args.line_number item) t = false)
      /\ trace tagged = "").

(** Step 3: the prompt sent to the reasoning model. *)
Definition reasoningRequest (DEFAULT_PROMPTS : Prompts)
  (langsmithContent userQuery aiResponse : string)
  (customPrompt : option string) (chatHistory : list ChatMessage)
  (preSelectedTraces : option (list IndexedTrace)) : string :=
  reasoningPrompt (orDefault customPrompt (reasoning DEFAULT_PROMPTS))
                  (reasoningConversation chatHistory userQuery aiResponse)
                  (optimizedTraces
                     (tracesForReasoning (nonBlankLines langsmithContent)
                                         preSelectedTraces)).

(** Whether an entry of [selected_traces] is [null]. *)
Definition hasNullEntry (reasoningArgs : Args.t) : bool :=
  match Args.selected_traces reasoningArgs with
  | Some items => existsb (fun item => match item with None => true | Some _ => false end) items
  | None => false
  end.

(** The whole function.  [createCompletion] is the provider, asked with the
    rendered prompt; [aborted] is [abortSignal?.aborted] when it is read. *)
Definition selectRelevantTraces
  (DEFAULT_PROMPTS : Prompts)
  (createCompletion : string -> Completion)
  (langsmithContent userQuery aiResponse : string)
  (customPrompt : option string) (chatHistory : list ChatMessage)
  (aborted : bool) (preSelectedTraces : option (list IndexedTrace))
  : outcome (list TaggedTrace) :=
  let tracesForReasoning :=
    tracesForReasoning (nonBlankLines langsmithContent) preSelectedTraces in
  let prompt := reasoningRequest DEFAULT_PROMPTS langsmithContent userQuery aiResponse
                                 customPrompt chatHistory preSelectedTraces in
  try_catch
    (if aborted then Returns []
     else match createCompletion prompt with
          | Rejected e => Throws e
          | Message None => Returns []
          | Message (Some arguments) => processArguments tracesForReasoning arguments
          end)
    (fun _ => Returns []).

End Reasoning.

(** ** The batch ranking caller, [runBatchJobAnalysis] *)
Module Batch.
Import Exn.
Local Open Scope string_scope.

Record BatchResult : Type := mkResult {
  trace : option string;
  originalIndex : Q;
  relevanceScore : Q;
  reasoning : string
}.

(** The payload of [analyze_traces_for_batch_job], typed as its schema
    declares; a missing field is [None], a [null] entry of the array is
    [None]. *)
Module Args.
Record Item : Type := mkItem {
  line_number : option Q;
  relevance_score : option Q;
  reasoning : option string
}.
Record t : Type := mkArgs {
  matching_traces : option (list (option Item))
}.
End Args.

Inductive Arguments : Type :=
| NotJSON
| JSON (analysisResult : Args.t).

Inductive Completion : Type :=
| Rejected (message : string)
| Message (function_call : option Arguments).

(** [item.line_number && item.line_number >= 1 && item.line_number <=
    traces.length] *)
Definition keeps (traces : list string) (item : Args.Item) : bool :=
  match Args.line_number item with
  | None => false
  | Some n =>
      negb (Qeq_bool n 0%Q) && Qle_bool 1%Q n
      && Qle_bool n (inject_Z (Z.of_nat (List.length traces)))
  end.

(** The callback of [filter]; reading a property of [null] throws. *)
Definition inRange (traces : list string) (item : option Args.Item) : outcome bool :=
  match item with
  | None => Throws "TypeError"
  | Some item => Returns (keeps traces item)
  end.

(** [traces[n]]: an element when [n] is an index of the array, [undefined]
    ([None]) otherwise. *)
Definition at_index (traces : list string) (n : Q) : option string :=
  let r := Qred n in
  if Pos.eqb (Qden r) 1 && (0 <=? Qnum r)%Z
  then nth_error traces (Z.to_nat (Qnum r))
  else None.

(** [x || 0] *)
Definition orZero (x : option Q) : Q :=
  match x with
  | Some q => if Qeq_bool q 0 then 0%Q else q
  | None => 0%Q
  end.

(** The object [map] builds from an entry.  Only entries that passed the
    filter reach it, so [line_number] is present; the default stands for no
    entry at all. *)
Definition convert (traces : list string) (item : Args.Item) : BatchResult :=
  let n := match Args.line_number item with Some n => n | None => 0%Q end in
  mkResult (at_index traces (n - 1)%Q) (n - 1)%Q
           (Qmin 1%Q (Qmax 0%Q (orZero (Args.relevance_score item))))
           (match Args.reasoning item with
            | Some ((String _ _) as r) => r
            | _ => "No reasoning provided"
            end).

(** The callback of [map]. *)
Definition toResult (traces : list string) (item : option Args.Item) : outcome BatchResult :=
  match item with
  | None => Throws "TypeError"
  | Some item => Returns (convert traces item)
  end.

(** [results.sort((a, b) => b.relevanceScore - a.relevanceScore)].  The
    sort is stable, so the outcome is the one arrangement by decreasing
    score that keeps equal scores in their order; insertion from the right
    builds it. *)
Fixpoint insert (x : BatchResult) (sorted : list BatchResult) : list BatchResult :=
  match sorted with
  | [] => [x]
  | y :: rest =>
      if Qle_bool (relevanceScore y) (relevanceScore x)
      then x :: y :: rest
      else y :: insert x rest
  end.

Definition sort (results : list BatchResult) : list BatchResult :=
  fold_right insert [] results.

(** [a] may stand before [b]: its score is at least that of [b]. *)
Definition before (a b : BatchResult) : Prop :=
  (relevanceScore b <= relevanceScore a)%Q.

(** A result of a kept entry: its line number, [originalIndex + 1], lies in
    [1 .. len], and its score in [0 .. 1]. *)
Definition wellFormed (traces : list string) (r : BatchResult) : Prop :=
  (1 <= originalIndex r + 1)%Q /\
  (originalIndex r + 1 <= inject_Z (Z.of_nat (List.length traces)))%Q /\
  (0 <= relevanceScore r)%Q /\ (relevanceScore r <= 1)%Q.

(** The inner [try]: parse, filter, map, sort; its [catch] logs and leaves
    [results] empty. *)
Definition processArguments (traces : list string) (arguments : Arguments)
  : outcome (list BatchResult) :=
  try_catch
    (match arguments with
     | NotJSON => Throws "SyntaxError"
     | JSON analysisResult =>
         match Args.matching_traces analysisResult with
         | Some matching_traces =>
             kept <- filter_throwing (inRange traces) matching_traces ;;
             results <- map_throwing (toResult traces) kept ;;
             Returns (sort results)
         | None => Returns []
         end
     end)
    (fun _ => Returns []).

(** The whole function on the provider's answer; a rejected request is
    thrown again by the outer [catch]. *)
Definition runBatchJobAnalysis (traces : list string) (response : Completion)
  : outcome (list BatchResult) :=
  match response with
  | Rejected e => Throws e
  | Message None => Returns []
  | Message (Some arguments) => processArguments traces arguments
  end.

End Batch.

(** ** The streaming endpoint, [POST /api/analyze]

    The handler runs on one thread: what happens to the connection shows
    only while the handler is suspended at an [await] on the network or on
    a timer.  From the heartbeat on these suspension points are numbered:
    [0] is the provider call of the analysis, [k] for [1 <= k <= n] is the
    delay after the [k]-th of [n] words, and [n + 1] is the provider call of
    the reasoning.  [closeAt] names the point at which the client
    disconnects, if it does.

    A disconnect closes the socket and destroys the response with it:
    [res.destroyed] and [res.closed] read [true] from then on.  The request
    is another object.  [req] emits [close] once, when it has been read to
    its end, and [aborted] only when the connection is lost before that.
    The handler starts from [req.body], the request read to its end, and
    registers its two listeners (lines 254-262) after the awaits on the
    store: both events are past by then.  So the listeners are never
    called: [req.aborted] stays [false], [clientDisconnected] keeps the
    value it is initialised with, and the signal is never aborted. *)
Module Endpoint.
Import Exn Str.
Local Open Scope string_scope.

Inductive Event : Type :=
| heartbeat
| content (chunk : string)
| streaming_complete
| reasoning_start
| complete (tracesWithTags : list Reasoning.TaggedTrace)
| error (message : string).

(** The state one request owns: the flag of line 251, the abort signal,
    [res.destroyed] (and [res.closed], which changes with it), and every
    event given to [res.write], each with the value [res.destroyed] had at
    that moment. *)
Record Connection : Type := mkConnection {
  clientDisconnected : bool;
  aborted : bool;
  destroyed : bool;
  written : list (Event * bool)
}.

(** What a disconnect changes. *)
Definition disconnect (c : Connection) : Connection :=
  mkConnection (clientDisconnected c) (aborted c) true (written c).

Definition write (e : Event) (c : Connection) : Connection :=
  mkConnection (clientDisconnected c) (aborted c) (destroyed c)
               (written c ++ [(e, destroyed c)])%list.

Definition suspend (point : nat) (closeAt : option nat) (c : Connection) : Connection :=
  match closeAt with
  | Some k => if (k =? point)%nat then disconnect c else c
  | None => c
  end.

(** The sink given to the analysis caller.  Its guard is
    [clientDisconnected || req.aborted || res.destroyed || res.closed],
    where [req.aborted] is [false] throughout and [res.closed] changes with
    [res.destroyed]. *)
Definition onChunk (chunk : string) (c : Connection) : Connection :=
  if clientDisconnected c || destroyed c then c else write (content chunk) c.

(** The word loop of [analyzeDatasetGapsStreaming], at word [i]. *)
Fixpoint streamWords (i : nat) (words : list string) (closeAt : option nat)
  (c : Connection) : Connection :=
  match words with
  | [] => c
  | word :: rest =>
      if aborted c then c
      else
        let c := onChunk (if (i =? 0)%nat then word else " " ++ word) c in
        let c := suspend (S i) closeAt c in
        streamWords (S i) rest closeAt c
  end.

(** [analyzeDatasetGapsStreaming] as the handler sees it.  [completion] is
    what the provider answers when it is left to finish; a request whose
    signal aborts in flight rejects. *)
Definition analyzeDatasetGapsStreaming (noTraces : bool) (completion : outcome string)
  (closeAt : option nat) (c : Connection) : outcome string * Connection :=
  if noTraces then (Returns "ERROR: No traces found in the uploaded data.", c)
  else
    let c := suspend 0 closeAt c in
    match (if aborted c then Throws "Request was aborted." else completion) with
    | Throws e => (Throws ("Analysis failed: " ++ e), c)
    | Returns fullResponse =>
        (Returns fullResponse, streamWords 0 (split " " fullResponse) closeAt c)
    end.

(** The handler from the heartbeat on.  [reasoning] is what
    [selectRelevantTraces] returns when its request is left to finish; it
    returns the empty list when the signal aborts in flight.  The guard
    before it is [!clientDisconnected && !req.aborted && !res.destroyed]. *)
Definition analyze (noTraces : bool) (completion : outcome string)
  (reasoning : list Reasoning.TaggedTrace) (closeAt : option nat) : Connection :=
  let c := write heartbeat (mkConnection false false false []) in
  match analyzeDatasetGapsStreaming noTraces completion closeAt c with
  | (Throws e, c) => write (error e) c
  | (Returns response, c) =>
      let c := write streaming_complete c in
      let c := write reasoning_start c in
      let '(tracesWithTags, c) :=
        if negb (clientDisconnected c) && negb (destroyed c) then
          let c := suspend (S (List.length (split " " response))) closeAt c in
          (if aborted c then [] else reasoning, c)
        else ([], c) in
      write (complete tracesWithTags) c
  end.

(** The events given to [res.write] after the client had disconnected. *)
Definition writtenAfterDisconnect (c : Connection) : list Event :=
  map fst (filter snd (written c)).

End Endpoint.

(** ** Traces as lines

    What makes a text one trace: the analysis splits the uploaded text at
    line feeds and keeps the lines that are not blank. *)
Module Lines.
Import Str.
Local Open Scope string_scope.

(** No line feed in [s]. *)
Fixpoint single_line (s : string) : bool :=
  match s with
  | "" => true
  | String c s' => negb (Ascii.eqb c (ascii_of_nat 10)) && single_line s'
  end.

(** [s] is a line that [nonBlankLines] keeps. *)
Definition is_trace (s : string) : bool :=
  single_line s && negb (all_whitespace s).

(** The character [c] does not occur in [s]. *)
Fixpoint lacks (c : ascii) (s : string) : bool :=
  match s with
  | "" => true
  | String c' s' => negb (Ascii.eqb c c') && lacks c s'
  end.

(** What a search found, after [u] more characters in front. *)
Definition further (u : string) (found : option (string * string))
  : option (string * string) :=
  match found with
  | Some (before, after) => Some (u ++ before, after)
  | None => None
  end.

(** [s === ''] *)
Definition is_empty (s : string) : bool :=
  match s with "" => true | String _ _ => false end.

End Lines.

(** ** JavaScript maps

    A [Map] keeps its entries in the order their keys were first set;
    [set] on a key it has replaces the value where it stands, [delete]
    takes the entry out.  Keys are compared as numbers or as texts, and a
    number is never a text. *)
Module JsMap.

Inductive Key : Type :=
| Num (n : Z)
| Text (s : string).

Definition sameKey (a b : Key) : bool :=
  match a, b with
  | Num x, Num y => Z.eqb x y
  | Text x, Text y => String.eqb x y
  | _, _ => false
  end.

Definition t (V : Type) : Type := list (Key * V).

Fixpoint get {V} (k : Key) (m : t V) : option V :=
  match m with
  | [] => None
  | (k', v) :: rest => if sameKey k' k then Some v else get k rest
  end.

Definition has {V} (k : Key) (m : t V) : bool :=
  match get k m with Some _ => true | None => false end.

Fixpoint set {V} (k : Key) (v : V) (m : t V) : t V :=
  match m with
  | [] => [(k, v)]
  | (k', v') :: rest =>
      if sameKey k' k then (k', v) :: rest else (k', v') :: set k v rest
  end.

Fixpoint delete {V} (k : Key) (m : t V) : t V :=
  match m with
  | [] => []
  | (k', v') :: rest =>
      if sameKey k' k then rest else (k', v') :: delete k rest
  end.

(** [Array.from(m.values())] *)
Definition values {V} (m : t V) : list V := map snd m.

Definition keys {V} (m : t V) : list Key := map fst m.

End JsMap.

(** ** The in-memory store, [MemStorage]

    Objects have the fields their interfaces declare.  A [jsonb] or [any]
    field holds a JSON value, a [Date] the milliseconds it stands for; the
    clock read by [new Date()] is an argument. *)
Module Storage.
Import JsMap.

#[local] Unset Elimination Schemes.
Inductive Json : Type :=
| JNull
| JBool (b : bool)
| JNumber (q : Q)
| JString (s : string)
| JArray (items : list Json)
| JObject (fields : list (string * Json)).
#[local] Set Elimination Schemes.

Definition Date : Type := Z.

Module InsertUser.
Record t : Type := mk {
  username : string;
  password : string
}.
End InsertUser.

Module User.
Record t : Type := mk {
  id : Z;
  username : string;
  password : string
}.
End User.

Module InsertAnalysisResult.
Record t : Type := mk {
  langsmithContent : string;
  datasetFiles : Json;
  analysisData : Json
}.
End InsertAnalysisResult.

Module AnalysisResult.
Record t : Type := mk {
  id : Z;
  langsmithContent : string;
  datasetFiles : Json;
  analysisData : Json;
  createdAt : Date
}.
End AnalysisResult.

Module InsertDataset.
Record t : Type := mk {
  name : string;
  filename : string;
  content : Json;
  description : option string;
  size : Z
}.
End InsertDataset.

Module Dataset.
Record t : Type := mk {
  id : Z;
  name : string;
  filename : string;
  content : Json;
  description : option string;
  size : Z;
  createdAt : Date
}.
End Dataset.

(** [InsertBatchJob].  The interface declares no [id]; the jobs the client
    posts to [/api/batch-jobs] carry one of their own, a text, and the
    route hands them on as they come, so the field is here, [None] for an
    argument of the declared type. *)
Module InsertBatchJob.
Record t : Type := mk {
  id : option Key;
  analysisId : Z;
  jobId : string;
  name : string;
  query : string;
  model : string;
  maxResults : Z;
  status : option string;
  results : option Json;
  error : option string;
  lastRunAt : option Date
}.
End InsertBatchJob.

Module BatchJob.
Record t : Type := mk {
  id : Key;
  analysisId : Z;
  jobId : string;
  name : string;
  query : string;
  model : string;
  maxResults : Z;
  status : option string;
  results : option Json;
  error : option string;
  createdAt : Date;
  lastRunAt : option Date
}.
End BatchJob.

(** [Partial<InsertBatchJob>]: a field is given or not. *)
Module Updates.
Record t : Type := mk {
  id : option Key;
  analysisId : option Z;
  jobId : option string;
  name : option string;
  query : option string;
  model : option string;
  maxResults : option Z;
  status : option string;
  results : option Json;
  error : option string;
  lastRunAt : option Date
}.
End Updates.

Record MemStorage : Type := mkStorage {
  users : JsMap.t User.t;
  analyses : JsMap.t AnalysisResult.t;
  datasets : JsMap.t Dataset.t;
  batchJobs : JsMap.t BatchJob.t;
  currentUserId : Z;
  currentAnalysisId : Z;
  currentDatasetId : Z;
  currentBatchJobId : Z
}.

(** [new MemStorage()] *)
Definition empty : MemStorage := mkStorage [] [] [] [] 1 1 1 1.

Definition getUser (id : Z) (s : MemStorage) : option User.t :=
  get (Num id) (users s).

Definition getUserByUsername (username : string) (s : MemStorage) : option User.t :=
  find (fun user => String.eqb (User.username user) username) (values (users s)).

Definition createUser (insertUser : InsertUser.t) (s : MemStorage) : User.t * MemStorage :=
  let id := currentUserId s in
  let user := User.mk id (InsertUser.username insertUser) (InsertUser.password insertUser) in
  (user,
   mkStorage (set (Num id) user (users s)) (analyses s) (datasets s) (batchJobs s)
             (id + 1) (currentAnalysisId s) (currentDatasetId s) (currentBatchJobId s)).

Definition createAnalysis (now : Date) (insertAnalysis : InsertAnalysisResult.t)
  (s : MemStorage) : AnalysisResult.t * MemStorage :=
  let id := currentAnalysisId s in
  let analysis :=
    AnalysisResult.mk id (InsertAnalysisResult.langsmithContent insertAnalysis)
                      (InsertAnalysisResult.datasetFiles insertAnalysis)
                      (InsertAnalysisResult.analysisData insertAnalysis) now in
  (analysis,
   mkStorage (users s) (set (Num id) analysis (analyses s)) (datasets s) (batchJobs s)
             (currentUserId s) (id + 1) (currentDatasetId s) (currentBatchJobId s)).

Definition getAnalysis (id : Z) (s : MemStorage) : option AnalysisResult.t :=
  get (Num id) (analyses s).

Definition createDataset (now : Date) (insertDataset : InsertDataset.t) (s : MemStorage)
  : Dataset.t * MemStorage :=
  let id := currentDatasetId s in
  let dataset :=
    Dataset.mk id (InsertDataset.name insertDataset) (InsertDataset.filename insertDataset)
               (InsertDataset.content insertDataset)
               (InsertDataset.description insertDataset)
               (InsertDataset.size insertDataset) now in
  (dataset,
   mkStorage (users s) (analyses s) (set (Num id) dataset (datasets s)) (batchJobs s)
             (currentUserId s) (currentAnalysisId s) (id + 1) (currentBatchJobId s)).

Definition getDataset (id : Z) (s : MemStorage) : option Dataset.t :=
  get (Num id) (datasets s).

Definition getAllDatasets (s : MemStorage) : list Dataset.t :=
  values (datasets s).

Definition deleteDataset (id : Z) (s : MemStorage) : bool * MemStorage :=
  (has (Num id) (datasets s),
   mkStorage (users s) (analyses s) (delete (Num id) (datasets s)) (batchJobs s)
             (currentUserId s) (currentAnalysisId s) (currentDatasetId s)
             (currentBatchJobId s)).

Definition withBatchJobs (batchJobs' : JsMap.t BatchJob.t) (s : MemStorage) : MemStorage :=
  mkStorage (users s) (analyses s) (datasets s) batchJobs'
            (currentUserId s) (currentAnalysisId s) (currentDatasetId s)
            (currentBatchJobId s).

(** [{ id: this.currentBatchJobId++, ...insertJob, createdAt: new Date() }]:
    the counter moves on in any case, and an [id] of [insertJob] takes the
    place of the one just drawn. *)
Definition createBatchJob (now : Date) (insertJob : InsertBatchJob.t) (s : MemStorage)
  : BatchJob.t * MemStorage :=
  let drawn := currentBatchJobId s in
  let job :=
    BatchJob.mk (match InsertBatchJob.id insertJob with
                 | Some given => given
                 | None => Num drawn
                 end)
                (InsertBatchJob.analysisId insertJob) (InsertBatchJob.jobId insertJob)
                (InsertBatchJob.name insertJob) (InsertBatchJob.query insertJob)
                (InsertBatchJob.model insertJob) (InsertBatchJob.maxResults insertJob)
                (InsertBatchJob.status insertJob) (InsertBatchJob.results insertJob)
                (InsertBatchJob.error insertJob) now
                (InsertBatchJob.lastRunAt insertJob) in
  (job,
   mkStorage (users s) (analyses s) (datasets s) (set (BatchJob.id job) job (batchJobs s))
             (currentUserId s) (currentAnalysisId s) (currentDatasetId s) (drawn + 1)).

Definition getBatchJob (id : Z) (s : MemStorage) : option BatchJob.t :=
  get (Num id) (batchJobs s).

Definition getBatchJobsByAnalysis (analysisId : Z) (s : MemStorage) : list BatchJob.t :=
  filter (fun job => Z.eqb (BatchJob.analysisId job) analysisId) (values (batchJobs s)).

(** [{ ...job, ...updates }] *)
Definition merge (job : BatchJob.t) (updates : Updates.t) : BatchJob.t :=
  let given {A} (update : option A) (old : A) : A :=
    match update with Some v => v | None => old end in
  let given_opt {A} (update : option A) (old : option A) : option A :=
    match update with Some v => Some v | None => old end in
  BatchJob.mk (given (Updates.id updates) (BatchJob.id job))
              (given (Updates.analysisId updates) (BatchJob.analysisId job))
              (given (Updates.jobId updates) (BatchJob.jobId job))
              (given (Updates.name updates) (BatchJob.name job))
              (given (Updates.query updates) (BatchJob.query job))
              (given (Updates.model updates) (BatchJob.model job))
              (given (Updates.maxResults updates) (BatchJob.maxResults job))
              (given_opt (Updates.status updates) (BatchJob.status job))
              (given_opt (Updates.results updates) (BatchJob.results job))
              (given_opt (Updates.error updates) (BatchJob.error job))
              (BatchJob.createdAt job)
              (given_opt (Updates.lastRunAt updates) (BatchJob.lastRunAt job)).

Definition updateBatchJob (id : Z) (updates : Updates.t) (s : MemStorage)
  : option BatchJob.t * MemStorage :=
  match get (Num id) (batchJobs s) with
  | None => (None, s)
  | Some job =>
      let updatedJob := merge job updates in
      (Some updatedJob, withBatchJobs (set (Num id) updatedJob (batchJobs s)) s)
  end.

Definition deleteBatchJob (id : Z) (s : MemStorage) : bool * MemStorage :=
  (has (Num id) (batchJobs s), withBatchJobs (delete (Num id) (batchJobs s)) s).

(** [{ ...jobData, analysisId }] *)
Definition forAnalysis (analysisId : Z) (jobData : InsertBatchJob.t) : InsertBatchJob.t :=
  InsertBatchJob.mk (InsertBatchJob.id jobData) analysisId
                    (InsertBatchJob.jobId jobData) (InsertBatchJob.name jobData)
                    (InsertBatchJob.query jobData) (InsertBatchJob.model jobData)
                    (InsertBatchJob.maxResults jobData) (InsertBatchJob.status jobData)
                    (InsertBatchJob.results jobData) (InsertBatchJob.error jobData)
                    (InsertBatchJob.lastRunAt jobData).

(** The loop of [saveBatchJobs] from its [k]-th job on; [clock k] is the
    time at which the [k]-th job is created. *)
Fixpoint createJobs (clock : nat -> Date) (k : nat) (analysisId : Z)
  (jobs : list InsertBatchJob.t) (s : MemStorage) : list BatchJob.t * MemStorage :=
  match jobs with
  | [] => ([], s)
  | jobData :: rest =>
      let (job, s) := createBatchJob (clock k) (forAnalysis analysisId jobData) s in
      let (newJobs, s) := createJobs clock (S k) analysisId rest s in
      (job :: newJobs, s)
  end.

Definition saveBatchJobs (clock : nat -> Date) (analysisId : Z)
  (jobs : list InsertBatchJob.t) (s : MemStorage) : list BatchJob.t * MemStorage :=
  let existingJobs := getBatchJobsByAnalysis analysisId s in
  let s := withBatchJobs
             (fold_left (fun m job => delete (BatchJob.id job) m) existingJobs (batchJobs s))
             s in
  createJobs clock 0 analysisId jobs s.

(** *** The states the store goes through

    A call that changes the store, and the state it leaves. *)
Inductive Call : Type :=
| CreateUser (insertUser : InsertUser.t)
| CreateAnalysis (now : Date) (insertAnalysis : InsertAnalysisResult.t)
| CreateDataset (now : Date) (insertDataset : InsertDataset.t)
| DeleteDataset (id : Z)
| CreateBatchJob (now : Date) (insertJob : InsertBatchJob.t)
| UpdateBatchJob (id : Z) (updates : Updates.t)
| DeleteBatchJob (id : Z)
| SaveBatchJobs (clock : nat -> Date) (analysisId : Z) (jobs : list InsertBatchJob.t).

Definition run (call : Call) (s : MemStorage) : MemStorage :=
  match call with
  | CreateUser insertUser => snd (createUser insertUser s)
  | CreateAnalysis now insertAnalysis => snd (createAnalysis now insertAnalysis s)
  | CreateDataset now insertDataset => snd (createDataset now insertDataset s)
  | DeleteDataset id => snd (deleteDataset id s)
  | CreateBatchJob now insertJob => snd (createBatchJob now insertJob s)
  | UpdateBatchJob id updates => snd (updateBatchJob id updates s)
  | DeleteBatchJob id => snd (deleteBatchJob id s)
  | SaveBatchJobs clock analysisId jobs => snd (saveBatchJobs clock analysisId jobs s)
  end.

(** The store after a history of calls, from [new MemStorage()] on. *)
Definition after (calls : list Call) : MemStorage :=
  fold_left (fun s call => run call s) calls empty.

(** A call with arguments of the declared types: no [id] rides along
    with a job or with an update. *)
Definition asDeclared (call : Call) : Prop :=
  match call with
  | CreateBatchJob _ insertJob => InsertBatchJob.id insertJob = None
  | UpdateBatchJob _ updates => Updates.id updates = None
  | SaveBatchJobs _ _ jobs =>
      Forall (fun jobData => InsertBatchJob.id jobData = None) jobs
  | _ => True
  end.

(** A map whose entries stand under the ids they carry, all numbers drawn
    from a counter that has reached [bound]. *)
Definition numbered {V} (bound : Z) (idOf : V -> Key) (m : JsMap.t V) : Prop :=
  NoDup (keys m) /\
  Forall (fun entry => idOf (snd entry) = fst entry
                       /\ exists n, fst entry = Num n /\ n < bound) m.

(** Users, analyses and datasets are numbered after any history. *)
Definition entitiesNumbered (s : MemStorage) : Prop :=
  numbered (currentUserId s) (fun user => Num (User.id user)) (users s) /\
  numbered (currentAnalysisId s) (fun analysis => Num (AnalysisResult.id analysis))
           (analyses s) /\
  numbered (currentDatasetId s) (fun dataset => Num (Dataset.id dataset)) (datasets s).

(** Batch jobs are, after a history of calls as declared. *)
Definition jobsNumbered (s : MemStorage) : Prop :=
  numbered (currentBatchJobId s) BatchJob.id (batchJobs s).

End Storage.

(** ** Which traces a request runs on *)
Module Routes.
Import Str Lines Storage.
Local Open Scope string_scope.

(** [POST /api/analyze]: [tracesContent].  [fallbackTraces] is [Some] when
    the body has an array of traces under that name. *)
Definition tracesContent (analysis : AnalysisResult.t)
  (fallbackTraces : option (list string)) : string :=
  let tracesContent := AnalysisResult.langsmithContent analysis in
  match fallbackTraces with
  | Some fallback =>
      if is_empty tracesContent then join newline fallback
      else match fallback with
           | _ :: _ => join newline fallback
           | [] => tracesContent
           end
  | None => tracesContent
  end.

(** [POST /api/batch-job]: [traces].  [analysis] is what [getAnalysis]
    found. *)
Definition batchTraces (analysis : option AnalysisResult.t)
  (fallbackTraces : option (list string)) : list string :=
  let traces :=
    match analysis with
    | Some found =>
        if is_empty (AnalysisResult.langsmithContent found) then []
        else nonBlankLines (AnalysisResult.langsmithContent found)
    | None => []
    end in
  match fallbackTraces with
  | Some fallback =>
      match traces, analysis with
      | _ :: _, Some _ => traces
      | _, _ => fallback
      end
  | None => traces
  end.

End Routes.

(** ** The default prompts in the configuration file,
    [POST /api/update-default-prompt] *)
Module Config.
Import Str Lines.
Local Open Scope string_scope.

(** [prompt.replace(/`/g, '\\`')]: a backslash before every backtick. *)
Fixpoint escapeBackticks (prompt : string) : string :=
  match prompt with
  | "" => ""
  | String c rest =>
      if Ascii.eqb c "`" then String "\" (String "`" (escapeBackticks rest))
      else String c (escapeBackticks rest)
  end.

(** [content.replace(/key: `[^`]*`/s, replacement)].  The expression
    matches where [key: `] stands and a backtick follows later, up to the
    first such backtick; it can match nowhere else before, and if no
    backtick follows the leftmost [key: `] it matches nowhere at all.  The
    replacement text is read as [String.prototype.replace] reads it. *)
Definition replaceEntry (key content replacement : string) : string :=
  match find_first (key ++ ": `") content with
  | None => content
  | Some (before, rest) =>
      match find_first "`" rest with
      | None => content
      | Some (old, after) =>
          before ++ expand replacement before (key ++ ": `" ++ old ++ "`") after ++ after
      end
  end.

(** No backtick in [s]. *)
Fixpoint backtick_free (s : string) : bool :=
  match s with
  | "" => true
  | String c rest => negb (Ascii.eqb c "`") && backtick_free rest
  end.

(** The handler on the text of the configuration file: the text it writes
    back, or [None] when it answers 400 and leaves the file alone. *)
Definition updateDefaultPrompt (type prompt content : string) : option string :=
  if is_empty type || is_empty prompt then None
  else if String.eqb type "analysis" then
    Some (replaceEntry "analysis" content ("analysis: `" ++ escapeBackticks prompt ++ "`"))
  else if String.eqb type "reasoning" then
    Some (replaceEntry "reasoning" content ("reasoning: `" ++ escapeBackticks prompt ++ "`"))
  else Some content.

End Config.

(** ** What a client reads off the event stream *)
Module Events.
Import Endpoint.
Local Open Scope string_scope.

(** [currentResponse += data.content] over the events received. *)
Fixpoint received (events : list Event) : string :=
  match events with
  | [] => ""
  | content chunk :: rest => chunk ++ received rest
  | _ :: rest => received rest
  end.

(** The chunk for the word at position [k] of the answer. *)
Definition chunk (k : nat) (word : string) : string :=
  if (k =? 0)%nat then word else " " ++ word.

(** A [content] event written while the client is there. *)
Definition asContent (chunk : string) : Event * bool := (content chunk, false).

(** The parts one after another. *)
Fixpoint flat (parts : list string) : string :=
  match parts with
  | [] => ""
  | p :: rest => p ++ flat rest
  end.

Definition isContent (e : Event) : bool :=
  match e with content _ => true | _ => false end.

(** The events that end a stream. *)
Definition isTerminal (e : Event) : bool :=
  match e with complete _ | error _ => true | _ => false end.

Definition isError (e : Event) : bool :=
  match e with error _ => true | _ => false end.

End Events.

(** ** The default prompts, [shared/config.ts] *)
Module Defaults.
Import Prompt.
Local Open Scope string_scope.

Definition DEFAULT_PROMPTS : Prompts :=
  mkPrompts
"You are an copilot for analyzing production traces and identifying interesting patterns in user behavior.

PRIMARY DATA - PRODUCTION TRACES:
{traces}

SUPPLEMENTARY DATA - UPLOADED DATASETS:
{datasets}

CONVERSATION HISTORY:
{conversation}


Structure your response with clear section headers and bullet points. 
You don't need to refer to specific traces in your response
Make your response to the point and unless otherwise instructed, identify the three (or less) most relevant patterns or issues given the conversation at hand.
Dont do any recommendations for improvement or conclusions etc.
"
"You are a model tasked with selecting the most relevant traces from a conversation and tagging them based on the specific categories mentioned by the chat model.

CONVERSATION CONTEXT:
{conversation}

AVAILABLE TRACES (with line numbers):
{traces}

CRITICAL INSTRUCTION - CATEGORY EXTRACTION:
1. First, carefully read through the complete conversation context (including the user questions) and identify the specific categories that were mentioned
2. Look for section headers (### headers), bold categories (**bold text**)
3. Use ONLY these extracted categories (from headers and bold text) as your tags - do not create new categories

HIERARCHICAL TAGGING RULES:
- Your tags must come directly from categories established in the AI Response
- Keep your reasoning short and concise, just pick the most relevant traces that clearly demonstrate the categories discussed

MAXIMUM VARIABILITY REQUIREMENT:
- Prioritize maximum variability across different patterns, behaviors, and edge cases
- Avoid repetitive/similar traces - choose diverse scenarios that capture the broadest range of behaviors

Be selective and choose the most relevant traces that clearly demonstrate the categories discussed in the AI response while maximizing the diversity and variability of the selected traces.".

End Defaults.

(** * Properties *)

(** ** Binary64 rounding

    Rounding to nearest of a positive value raises it by a factor of at most
    [1 + 2^-52].  From this: every draw is below [1], and the index
    [Math.floor(draw * (i + 1))] lies in [0 .. i]. *)
Module NumberFacts.
Import Number.

Lemma pow2_add a b : pow2 (a + b) = (pow2 a * pow2 b)%R.
Proof. unfold pow2. apply powerRZ_add. lra. Qed.

Lemma pow2_pos e : (0 < pow2 e)%R.
Proof. apply powerRZ_lt. lra. Qed.

Lemma pow2_le a b : a <= b -> (pow2 a <= pow2 b)%R.
Proof.
  intros H. replace b with (a + (b - a)) by lia. rewrite pow2_add.
  assert (1 <= pow2 (b - a))%R.
  { unfold pow2. destruct (b - a) eqn:E; try lia.
    - simpl. lra.
    - simpl. apply pow_R1_Rle. lra. }
  pose proof (pow2_pos a). nra.
Qed.

Lemma pow2_lt_inv a b : (pow2 a < pow2 b)%R -> a < b.
Proof.
  intros H. destruct (Z_lt_le_dec a b) as [|L]; [assumption|].
  apply pow2_le in L. lra.
Qed.

Lemma pow2_IZR k : 0 <= k -> IZR (2 ^ k) = pow2 k.
Proof.
  intros H. unfold pow2. destruct k as [|p|p]; try lia.
  - reflexivity.
  - change (2 ^ Z.pos p) with (Z.pow_pos 2 p). apply Zpower_pos_powerRZ.
Qed.

Lemma digits2_pos_bounds m :
  2 ^ (Z.pos (digits2_pos m) - 1) <= Z.pos m < 2 ^ Z.pos (digits2_pos m).
Proof.
  induction m as [m IH|m IH|]; simpl digits2_pos.
  - rewrite Pos2Z.inj_succ. replace (Z.succ (Z.pos (digits2_pos m)) - 1) with (Z.succ (Z.pos (digits2_pos m) - 1)) by lia.
    rewrite !Z.pow_succ_r by lia. lia.
  - rewrite Pos2Z.inj_succ. replace (Z.succ (Z.pos (digits2_pos m)) - 1) with (Z.succ (Z.pos (digits2_pos m) - 1)) by lia.
    rewrite !Z.pow_succ_r by lia. lia.
  - simpl. lia.
Qed.

Lemma Zdigits2_bounds m : 0 < m -> 2 ^ (Zdigits2 m - 1) <= m < 2 ^ Zdigits2 m.
Proof. destruct m; try lia. intros _. apply digits2_pos_bounds. Qed.

Lemma shr_1_m mrs : 0 <= shr_m mrs -> shr_m (shr_1 mrs) = shr_m mrs / 2.
Proof.
  destruct mrs as [m r s]. simpl. intros H.
  destruct m as [|[p|p|]|p]; cbn [shr_m]; try lia; try reflexivity.
  - apply Z.div_unique with 1; lia.
  - apply Z.div_unique with 0; lia.
Qed.

Lemma pow2_xI p : 2 ^ Z.pos p~1 = 2 * 2 ^ Z.pos p * 2 ^ Z.pos p.
Proof.
  replace (Z.pos p~1) with (1 + Z.pos p + Z.pos p) by lia.
  rewrite !Z.pow_add_r by lia. reflexivity.
Qed.

Lemma pow2_xO p : 2 ^ Z.pos p~0 = 2 ^ Z.pos p * 2 ^ Z.pos p.
Proof.
  replace (Z.pos p~0) with (Z.pos p + Z.pos p) by lia.
  rewrite !Z.pow_add_r by lia. reflexivity.
Qed.

Lemma iter_shr_1_m p : forall mrs, 0 <= shr_m mrs ->
  shr_m (SpecFloat.iter_pos shr_1 p mrs) = shr_m mrs / 2 ^ Z.pos p.
Proof.
  induction p as [p IH|p IH|]; intros mrs H; simpl SpecFloat.iter_pos.
  - assert (H1 : 0 <= shr_m (shr_1 mrs)) by (rewrite shr_1_m by lia; apply Z.div_pos; lia).
    assert (H2 : 0 <= shr_m (SpecFloat.iter_pos shr_1 p (shr_1 mrs))) by (rewrite IH by lia; apply Z.div_pos; lia).
    rewrite IH, IH, shr_1_m by lia.
    rewrite !Z.div_div by lia. rewrite pow2_xI. f_equal. ring.
  - assert (H2 : 0 <= shr_m (SpecFloat.iter_pos shr_1 p mrs)) by (rewrite IH by lia; apply Z.div_pos; lia).
    rewrite IH, IH by lia.
    rewrite !Z.div_div by lia. rewrite pow2_xO. f_equal; ring.
  - rewrite shr_1_m by lia. reflexivity.
Qed.

Lemma round_nearest_even_bounds m l : m <= round_nearest_even m l <= m + 1.
Proof.
  unfold round_nearest_even. destruct l as [|[| |]]; try lia.
  destruct (Z.even m); lia.
Qed.

Lemma loc_of_shr_record_of_loc m l :
  loc_of_shr_record (shr_record_of_loc m l) = l.
Proof. destruct l as [|[| |]]; reflexivity. Qed.

Lemma shr_m_of_loc m l : shr_m (shr_record_of_loc m l) = m.
Proof. destruct l as [|[| |]]; reflexivity. Qed.

Lemma shr_fexp_spec m e l :
  0 <= m -> -1074 <= e ->
  let k := Z.max 0 (Zdigits2 m - 53) in
  snd (shr_fexp 53 1024 m e l) = e + k /\
  shr_m (fst (shr_fexp 53 1024 m e l)) = m / 2 ^ k /\
  (k = 0 -> fst (shr_fexp 53 1024 m e l) = shr_record_of_loc m l).
Proof.
  intros Hm He k. unfold shr_fexp, shr, fexp, emin.
  destruct (Z.max (Zdigits2 m + e - 53) (3 - 1024 - 53) - e) as [|p|p] eqn:E; cbn [fst snd].
  - assert (k = 0) by lia. replace k with 0 by lia.
    rewrite shr_m_of_loc, Z.div_1_r. repeat split; lia.
  - assert (k = Z.pos p) by lia. replace k with (Z.pos p) by lia.
    rewrite iter_shr_1_m by (rewrite shr_m_of_loc; lia).
    rewrite shr_m_of_loc. repeat split; lia.
  - assert (k = 0) by lia. replace k with 0 by lia.
    rewrite shr_m_of_loc, Z.div_1_r. repeat split; lia.
Qed.

Lemma Zdigits2_nonneg m : 0 <= Zdigits2 m.
Proof. destruct m; simpl; lia. Qed.

Lemma Zdigits2_le m b : 0 <= b -> 0 <= m <= 2 ^ b -> Zdigits2 m <= b + 1.
Proof.
  intros Hb [H0 H1]. destruct (Z.eq_dec m 0) as [->|Hn]; [simpl; lia|].
  pose proof (Zdigits2_bounds m ltac:(lia)) as [L _].
  destruct (Z_le_gt_dec (Zdigits2 m) (b + 1)) as [|G]; [assumption|].
  assert (2 ^ (b + 1) <= 2 ^ (Zdigits2 m - 1)) by (apply Z.pow_le_mono_r; lia).
  rewrite Z.pow_add_r in H by lia. change (2 ^ 1) with 2 in H.
  assert (0 < 2 ^ b) by (apply Z.pow_pos_nonneg; lia). lia.
Qed.

Lemma div_pow2_R m k : 0 <= m -> 0 <= k -> (IZR (m / 2 ^ k) * pow2 k <= IZR m)%R.
Proof.
  intros Hm Hk. rewrite <- pow2_IZR by lia. rewrite <- mult_IZR. apply IZR_le.
  assert (0 < 2 ^ k) by (apply Z.pow_pos_nonneg; lia).
  pose proof (Z.mul_div_le m (2 ^ k) ltac:(lia)). lia.
Qed.

Lemma binary_round_aux_upper m e l :
  0 <= m -> -1074 <= e <= 900 -> Zdigits2 m + e <= 900 ->
  let r := binary_round_aux 53 1024 false m e l in
  nonneg_finite r /\ exp_ge e r /\
  (to_R r <= IZR m * pow2 e * (1 + pow2 (-52)) + (if is_exact l then 0 else pow2 e))%R.
Proof.
  intros Hm He Hd r. subst r. unfold binary_round_aux.
  pose proof (shr_fexp_spec m e l Hm ltac:(lia)) as S1. cbv zeta in S1.
  destruct (shr_fexp 53 1024 m e l) as [mrs' e'] eqn:E1. cbn [fst snd] in S1.
  destruct S1 as (S1e & S1m & S1x).
  set (k := Z.max 0 (Zdigits2 m - 53)) in *.
  set (m1 := round_nearest_even (shr_m mrs') (loc_of_shr_record mrs')).
  assert (Hk : 0 <= k) by lia.
  assert (Hq : 0 <= m / 2 ^ k) by (apply Z.div_pos; [lia | apply Z.pow_pos_nonneg; lia]).
  pose proof (round_nearest_even_bounds (shr_m mrs') (loc_of_shr_record mrs')) as B1.
  fold m1 in B1. rewrite S1m in B1.
  assert (Hm1 : 0 <= m1) by lia.
  (* the rounded mantissa times its exponent, against the input *)
  assert (V1 : (IZR m1 * pow2 e' <=
                IZR m * pow2 e * (1 + pow2 (-52)) + (if is_exact l then 0 else pow2 e))%R).
  { pose proof (pow2_pos e) as Pe. pose proof (pow2_pos (-52)) as P52.
    assert (0 <= IZR m)%R by (apply IZR_le; lia).
    destruct (Z.eq_dec k 0) as [K0|K0].
    - rewrite S1e, K0, Z.add_0_r.
      assert (M1 : m1 <= m + (if is_exact l then 0 else 1)).
      { unfold m1. rewrite (S1x K0), loc_of_shr_record_of_loc, shr_m_of_loc.
        pose proof (round_nearest_even_bounds m l) as B.
        destruct l as [|c]; cbn [is_exact]; [cbn [round_nearest_even]; lia | lia]. }
      apply IZR_le in M1. rewrite plus_IZR in M1.
      assert (0 <= IZR m * pow2 e * pow2 (-52))%R
        by (apply Rmult_le_pos; [apply Rmult_le_pos|]; lra).
      assert (IZR m1 * pow2 e <= (IZR m + IZR (if is_exact l then 0 else 1)) * pow2 e)%R
        by (apply Rmult_le_compat_r; lra).
      destruct (is_exact l); lra.
    - assert (Kd : k = Zdigits2 m - 53) by lia.
      assert (Mp : 0 < m) by (destruct m; simpl in *; lia).
      pose proof (Zdigits2_bounds m Mp) as [Lo _].
      apply IZR_le in Lo. rewrite pow2_IZR in Lo by lia.
      assert (T1 : (IZR m1 <= IZR (m / 2 ^ k) + 1)%R) by (rewrite <- plus_IZR; apply IZR_le; lia).
      pose proof (div_pow2_R m k Hm Hk) as T2.
      rewrite S1e, pow2_add.
      assert (T3 : (pow2 e * pow2 k = pow2 (Zdigits2 m - 1) * pow2 e * pow2 (-52))%R).
      { rewrite <- !pow2_add. f_equal. lia. }
      pose proof (pow2_pos k) as Pk.
      assert (0 <= (if is_exact l then 0 else pow2 e))%R by (destruct (is_exact l); lra).
      assert (IZR m1 * (pow2 e * pow2 k) <= (IZR (m / 2 ^ k) + 1) * (pow2 e * pow2 k))%R
        by (apply Rmult_le_compat_r; nra).
      assert (IZR (m / 2 ^ k) * pow2 k * pow2 e <= IZR m * pow2 e)%R
        by (apply Rmult_le_compat_r; lra).
      assert (pow2 (Zdigits2 m - 1) * pow2 e * pow2 (-52) <= IZR m * pow2 e * pow2 (-52))%R
        by (apply Rmult_le_compat_r; [lra|apply Rmult_le_compat_r; lra]).
      lra. }
  pose proof (shr_fexp_spec m1 e' loc_Exact Hm1 ltac:(lia)) as S2. cbv zeta in S2.
  destruct (shr_fexp 53 1024 m1 e' loc_Exact) as [mrs'' e''] eqn:E2. cbn [fst snd] in S2.
  destruct S2 as (S2e & S2m & _).
  set (k2 := Z.max 0 (Zdigits2 m1 - 53)) in *.
  assert (Hk2 : 0 <= k2) by lia.
  pose proof (div_pow2_R m1 k2 Hm1 Hk2) as T4.
  assert (Hq2 : 0 <= m1 / 2 ^ k2) by (apply Z.div_pos; [lia | apply Z.pow_pos_nonneg; lia]).
  assert (V2 : (IZR (shr_m mrs'') * pow2 e'' <= IZR m1 * pow2 e')%R).
  { rewrite S2m, S2e, pow2_add. pose proof (pow2_pos e'). pose proof (pow2_pos k2).
    assert (0 <= IZR (m1 / 2 ^ k2))%R by (apply IZR_le; lia). nra. }
  (* no overflow *)
  assert (D1 : Zdigits2 m1 + e' <= 901).
  { destruct (Z.eq_dec k 0) as [K0|K0].
    - assert (m1 <= m + 1) by (rewrite K0, Z.div_1_r in B1; lia).
      destruct (Z.eq_dec m 0) as [->|Mn].
      + assert (Zdigits2 m1 <= 0 + 1) by (apply Zdigits2_le; simpl; lia). lia.
      + pose proof (Zdigits2_bounds m ltac:(lia)) as [_ Up].
        assert (Zdigits2 m1 <= Zdigits2 m + 1) by (apply Zdigits2_le; [apply Zdigits2_nonneg | lia]).
        lia.
    - assert (Mp : 0 < m) by (destruct m; simpl in *; lia).
      pose proof (Zdigits2_bounds m Mp) as [_ Up].
      assert (m / 2 ^ k < 2 ^ 53).
      { apply Z.div_lt_upper_bound; [apply Z.pow_pos_nonneg; lia|].
        rewrite <- Z.pow_add_r by lia. replace (k + 53) with (Zdigits2 m) by lia. lia. }
      assert (Zdigits2 m1 <= 53 + 1) by (apply Zdigits2_le; lia). lia. }
  assert (Ee : e <= e'' <= 971) by lia.
  destruct (shr_m mrs'') as [|m2|m2] eqn:E3.
  - simpl. repeat split; try exact I.
    pose proof (pow2_pos e). pose proof (pow2_pos (-52)).
    assert (0 <= IZR m)%R by (apply IZR_le; lia).
    assert (0 <= (if is_exact l then 0 else pow2 e))%R by (destruct (is_exact l); lra).
    nra.
  - replace (e'' <=? 1024 - 53) with true by (symmetry; apply Z.leb_le; lia).
    cbn [to_R nonneg_finite exp_ge]. repeat split; try lia.
    revert V2. generalize (IZR (Z.pos m2)). intros x V2. lra.
  - lia.
Qed.

Lemma iter_xO_val m d : Z.pos (Pos.iter xO m d) = Z.pos m * 2 ^ Z.pos d.
Proof.
  induction d as [|d IH] using Pos.peano_ind.
  - simpl. lia.
  - rewrite Pos.iter_succ, Pos2Z.inj_xO, IH, Pos2Z.inj_succ, Z.pow_succ_r by lia. ring.
Qed.

Lemma iter_xO_digits m d :
  Z.pos (digits2_pos (Pos.iter xO m d)) = Z.pos (digits2_pos m) + Z.pos d.
Proof.
  induction d as [|d IH] using Pos.peano_ind.
  - simpl. lia.
  - rewrite Pos.iter_succ. simpl digits2_pos. rewrite Pos2Z.inj_succ, IH. lia.
Qed.

Lemma pow2_lt_digits m e b :
  0 < m -> (IZR m * pow2 e < pow2 b)%R -> Zdigits2 m + e <= b.
Proof.
  intros Hm H. pose proof (Zdigits2_bounds m Hm) as [Lo _].
  assert (1 <= Zdigits2 m) by (destruct m; cbn [Zdigits2]; lia).
  apply IZR_le in Lo. rewrite pow2_IZR in Lo by lia.
  assert (pow2 (Zdigits2 m - 1 + e) < pow2 b)%R.
  { rewrite pow2_add. pose proof (pow2_pos e). 
    assert (pow2 (Zdigits2 m - 1) * pow2 e <= IZR m * pow2 e)%R by (apply Rmult_le_compat_r; lra).
    lra. }
  apply pow2_lt_inv in H1. lia.
Qed.

Lemma pow2_neg52 : pow2 (-52) = (/ 4503599627370496)%R.
Proof. unfold pow2. simpl. lra. Qed.

Lemma pow2_neg53 : pow2 (-53) = (/ 9007199254740992)%R.
Proof. unfold pow2. simpl. lra. Qed.

(** Conversion of a positive integer below [2^33]. *)
Lemma of_int_upper n :
  0 < n < 2 ^ 33 ->
  nonneg_finite (of_int n) /\ exp_ge (-52) (of_int n) /\
  (to_R (of_int n) <= IZR n * (1 + pow2 (-52)))%R.
Proof.
  intros Hn. destruct n as [|p|p]; try lia.
  unfold of_int, binary_normalize, binary_round, shl_align, fexp, emin.
  pose proof (digits2_pos_bounds p) as [Lo Up].
  set (d := Z.pos (digits2_pos p)) in *.
  assert (Hd : 1 <= d <= 33).
  { split; [unfold d; lia|].
    destruct (Z_le_gt_dec d 33) as [|G]; [assumption|].
    assert (2 ^ 33 <= 2 ^ (d - 1)) by (apply Z.pow_le_mono_r; lia). lia. }
  replace (Z.max (d + 0 - 53) (3 - 1024 - 53) - 0) with (d - 53) by lia.
  destruct (d - 53) as [|q|q] eqn:E; try lia.
  pose proof (iter_xO_val p q) as V. pose proof (iter_xO_digits p q) as D.
  fold d in D.
  set (mz := Pos.iter xO p q) in *.
  replace (Z.max (d + 0 - 53) (3 - 1024 - 53)) with (d - 53) by lia.
  pose proof (binary_round_aux_upper (Z.pos mz) (d - 53) loc_Exact ltac:(lia) ltac:(lia)
                ltac:(simpl Zdigits2; lia)) as (F & G & B).
  cbv zeta in *. split; [exact F|]. split.
  - revert G. destruct (binary_round_aux 53 1024 false (Z.pos mz) (d - 53) loc_Exact);
      cbn [exp_ge]; intros; try exact I. lia.
  - cbn [is_exact] in B.
    assert (T : (IZR (Z.pos mz) * pow2 (d - 53) = IZR (Z.pos p))%R).
    { rewrite V, mult_IZR. replace (2 ^ Z.pos q) with (2 ^ (53 - d)) by (f_equal; lia).
      rewrite pow2_IZR by lia. rewrite Rmult_assoc, <- pow2_add.
      replace (53 - d + (d - 53)) with 0 by lia. unfold pow2. simpl. ring. }
    rewrite T in B. revert B. generalize (IZR (Z.pos p)). intros x B. lra.
Qed.

Lemma SFdiv_core_binary_spec m1 e1 m2 e2 :
  0 < m1 -> 0 < m2 ->
  let e' := Z.min (fexp 53 1024 (Zdigits2 m1 + e1 - (Zdigits2 m2 + e2))) (e1 - e2) in
  exists q l,
    SFdiv_core_binary 53 1024 m1 e1 m2 e2 = (q, e', l) /\
    0 <= q /\ q * m2 <= m1 * 2 ^ (e1 - e2 - e').
Proof.
  intros H1 H2 e'. unfold SFdiv_core_binary. fold e'.
  set (s := e1 - e2 - e').
  assert (Hs : 0 <= s) by (unfold s, e'; lia).
  set (m' := match s with Z.pos _ => Z.shiftl m1 s | 0 => m1 | Z.neg _ => 0 end).
  assert (Hm' : m' = m1 * 2 ^ s).
  { unfold m'. destruct s as [|p|p] eqn:E; try lia.
    apply Z.shiftl_mul_pow2. lia. }
  pose proof (Z_div_mod m' m2 ltac:(lia)) as DM.
  destruct (Z.div_eucl m' m2) as [q r].
  exists q, (new_location m2 r). split; [reflexivity|].
  destruct DM as [DM1 DM2].
  assert (0 <= m') by (rewrite Hm'; apply Z.mul_nonneg_nonneg; [lia | apply Z.pow_nonneg; lia]).
  split; [|rewrite <- Hm'; lia].
  destruct (Z_le_gt_dec 0 q) as [|G]; [assumption|]. nia.
Qed.

Lemma of_int_233280 : of_int 233280 = S754_finite false 8015439766487040 (-35).
Proof. vm_compute. reflexivity. Qed.

Lemma pow2_18 : pow2 18 = 262144%R.
Proof. unfold pow2. simpl. lra. Qed.

Lemma pow2_neg35 : pow2 (-35) = (/ 34359738368)%R.
Proof. unfold pow2. simpl. lra. Qed.

Lemma draw_upper rng :
  0 <= rng < 233280 ->
  let x := div (of_int rng) (of_int 233280) in
  nonneg_finite x /\ exp_ge (-122) x /\ (to_R x <= draw_bound)%R.
Proof.
  intros Hr x. subst x. rewrite of_int_233280.
  assert (Bpos : (0 <= draw_bound)%R).
  { unfold draw_bound. pose proof (pow2_pos (-52)). pose proof (pow2_pos (-53)). nra. }
  destruct (Z.eq_dec rng 0) as [->|Hn].
  { simpl. repeat split; try exact I. exact Bpos. }
  destruct (of_int_upper rng ltac:(lia)) as (F1 & G1 & B1).
  destruct (of_int rng) as [[|]|[|]| |[|] m1 e1]; try contradiction.
  { simpl. repeat split; try exact I. exact Bpos. }
  cbn [exp_ge to_R] in G1, B1. rewrite Rmult_1_l in B1.
  unfold div, SFdiv. cbn [xorb].
  destruct (SFdiv_core_binary_spec (Z.pos m1) e1 8015439766487040 (-35) ltac:(lia) ltac:(lia))
    as (q & l & E & Hq & Hle).
  cbv zeta in E. rewrite E.
  change (Zdigits2 8015439766487040) with 53 in *.
  set (e' := Z.min (fexp 53 1024 (Zdigits2 (Z.pos m1) + e1 - (53 + -35))) (e1 - -35)) in *.
  (* the magnitude of the dividend *)
  assert (Rr : (IZR rng <= 233279)%R) by (apply IZR_le; lia).
  pose proof (pow2_pos (-52)) as P52. rewrite pow2_neg52 in *.
  assert (V1 : (IZR (Z.pos m1) * pow2 e1 < pow2 18)%R) by (rewrite pow2_18; nra).
  pose proof (pow2_lt_digits (Z.pos m1) e1 18 ltac:(lia) V1) as D1.
  assert (D1' : 1 <= Zdigits2 (Z.pos m1)) by (cbn [Zdigits2]; lia).
  assert (He' : -122 <= e' <= -53) by (unfold e', fexp, emin; lia).
  (* the quotient against the exact ratio *)
  assert (Q : (IZR q * pow2 e' <= 233279 / 233280 * (1 + / 4503599627370496))%R).
  { apply IZR_le in Hle. rewrite !mult_IZR in Hle.
    rewrite pow2_IZR in Hle by lia.
    assert (T : (pow2 (e1 - -35 - e') * pow2 e' * pow2 (-35) = pow2 e1)%R).
    { rewrite <- !pow2_add. f_equal. lia. }
    pose proof (pow2_pos e') as Pe. pose proof (pow2_pos (-35)) as P35.
    assert (IZR q * IZR 8015439766487040 * (pow2 e' * pow2 (-35)) <=
            IZR (Z.pos m1) * pow2 (e1 - -35 - e') * (pow2 e' * pow2 (-35)))%R
      by (apply Rmult_le_compat_r; nra).
    replace (IZR (Z.pos m1) * pow2 (e1 - -35 - e') * (pow2 e' * pow2 (-35)))%R
      with (IZR (Z.pos m1) * (pow2 (e1 - -35 - e') * pow2 e' * pow2 (-35)))%R in H by ring.
    rewrite T in H. rewrite pow2_neg35 in H.
    revert H B1. generalize (IZR (Z.pos m1)) (pow2 e1) (pow2 e') (IZR q). intros a b c d H B1.
    lra. }
  assert (Dq : Zdigits2 q + e' <= 0).
  { destruct (Z.eq_dec q 0) as [->|Qn]; [simpl; lia|].
    apply pow2_lt_digits; [lia|]. change (pow2 0) with 1%R. lra. }
  destruct (binary_round_aux_upper q e' l Hq ltac:(lia) ltac:(lia)) as (F & G & B).
  split; [exact F|]. split.
  - revert G. destruct (binary_round_aux 53 1024 false q e' l); cbn [exp_ge]; intros; try exact I. lia.
  - assert (Pe : (pow2 e' <= pow2 (-53))%R) by (apply pow2_le; lia).
    pose proof (pow2_pos e').
    assert ((if is_exact l then 0 else pow2 e') <= pow2 (-53))%R by (destruct (is_exact l); lra).
    unfold draw_bound. rewrite pow2_neg52 in *.
    revert B Q H0. generalize (IZR q * pow2 e')%R (pow2 (-53)) (if is_exact l then 0%R else pow2 e').
    intros a b c B Q H0. nra.
Qed.

Lemma is_nonneg_finite_true x : nonneg_finite x -> is_nonneg_finite x = true.
Proof. destruct x as [[|]|[|]| |[|] m e]; simpl; intros H; try contradiction; reflexivity. Qed.

Lemma floor_le x : nonneg_finite x -> 0 <= floor x /\ (IZR (floor x) <= to_R x)%R.
Proof.
  destruct x as [[|]|[|]| |[|] m e]; cbn [nonneg_finite floor to_R]; try contradiction;
    try (intros _; split; [lia | lra]).
  intros _. rewrite Rmult_1_l. destruct (0 <=? e) eqn:E.
  - apply Z.leb_le in E. split; [apply Z.mul_nonneg_nonneg; [lia | apply Z.pow_nonneg; lia]|].
    rewrite mult_IZR, pow2_IZR by lia. lra.
  - apply Z.leb_gt in E. rewrite Z.shiftr_div_pow2 by lia. split.
    + apply Z.div_pos; [lia | apply Z.pow_pos_nonneg; lia].
    + pose proof (div_pow2_R (Z.pos m) (- e) ltac:(lia) ltac:(lia)) as D.
      pose proof (pow2_pos e) as Pe.
      assert (T : (pow2 (- e) * pow2 e = 1)%R).
      { rewrite <- pow2_add. replace (- e + e) with 0 by lia. reflexivity. }
      assert (IZR (Z.pos m / 2 ^ (- e)) * pow2 (- e) * pow2 e <= IZR (Z.pos m) * pow2 e)%R
        by (apply Rmult_le_compat_r; lra).
      rewrite Rmult_assoc, T in H. lra.
Qed.

Lemma draw_bound_lt_1 :
  (draw_bound * ((1 + pow2 (-52)) * (1 + pow2 (-52))) < 1)%R.
Proof. unfold draw_bound. rewrite pow2_neg52, pow2_neg53. lra. Qed.

Lemma draw_bound_lt_1' : (draw_bound < 1)%R.
Proof.
  pose proof draw_bound_lt_1. pose proof (pow2_pos (-52)).
  assert (0 <= draw_bound)%R.
  { unfold draw_bound. pose proof (pow2_pos (-53)). nra. }
  nra.
Qed.

(** The index drawn for position [i] lies in [0 .. i]. *)
Lemma scaled_draw_floor rng n :
  0 <= rng < 233280 -> 0 < n <= 2 ^ 32 ->
  nonneg_finite (mul (div (of_int rng) (of_int 233280)) (of_int n)) /\
  0 <= floor (mul (div (of_int rng) (of_int 233280)) (of_int n)) < n.
Proof.
  intros Hr Hn.
  destruct (draw_upper rng Hr) as (Fx & Gx & Bx). cbv zeta in *.
  destruct (of_int_upper n ltac:(lia)) as (Fy & Gy & By).
  set (x := div (of_int rng) (of_int 233280)) in *.
  set (y := of_int n) in *.
  assert (Z0 : nonneg_finite (S754_zero false) /\ 0 <= floor (S754_zero false) < n)
    by (simpl; split; [exact I | lia]).
  destruct x as [[|]|[|]| |[|] mx ex]; try contradiction;
    destruct y as [[|]|[|]| |[|] my ey]; try contradiction; try exact Z0.
  cbn [exp_ge to_R] in *. rewrite Rmult_1_l in *.
  unfold mul, SFmul. cbn [xorb].
  pose proof draw_bound_lt_1 as C1. pose proof draw_bound_lt_1' as C2.
  pose proof (pow2_pos (-52)) as P52.
  assert (Nr : (1 <= IZR n <= 4294967296)%R) by (split; apply IZR_le; lia).
  assert (X0 : (0 < IZR (Z.pos mx) * pow2 ex)%R)
    by (apply Rmult_lt_0_compat; [apply IZR_lt; lia | apply pow2_pos]).
  assert (Y0 : (0 < IZR (Z.pos my) * pow2 ey)%R)
    by (apply Rmult_lt_0_compat; [apply IZR_lt; lia | apply pow2_pos]).
  assert (Dx : Zdigits2 (Z.pos mx) + ex <= 0).
  { apply pow2_lt_digits; [lia|]. change (pow2 0) with 1%R. lra. }
  assert (Dy : Zdigits2 (Z.pos my) + ey <= 34).
  { apply pow2_lt_digits; [lia|]. change (pow2 34) with (powerRZ 2 34). simpl.
    rewrite pow2_neg52 in *. lra. }
  assert (D1 : 1 <= Zdigits2 (Z.pos mx)) by (cbn [Zdigits2]; lia).
  assert (D2 : 1 <= Zdigits2 (Z.pos my)) by (cbn [Zdigits2]; lia).
  assert (XY : (IZR (Z.pos (mx * my)) * pow2 (ex + ey) =
                (IZR (Z.pos mx) * pow2 ex) * (IZR (Z.pos my) * pow2 ey))%R).
  { rewrite Pos2Z.inj_mul, mult_IZR, pow2_add. ring. }
  assert (XYle : ((IZR (Z.pos mx) * pow2 ex) * (IZR (Z.pos my) * pow2 ey)
                   <= draw_bound * (IZR n * (1 + pow2 (-52))))%R)
    by (apply Rmult_le_compat; lra).
  assert (Dxy : Zdigits2 (Z.pos (mx * my)) + (ex + ey) <= 34).
  { apply pow2_lt_digits; [lia|]. rewrite XY. change (pow2 34) with (powerRZ 2 34). simpl.
    rewrite pow2_neg52 in *. nra. }
  destruct (binary_round_aux_upper (Z.pos (mx * my)) (ex + ey) loc_Exact
              ltac:(lia) ltac:(lia) ltac:(lia)) as (F & _ & B).
  cbv zeta in *. cbn [is_exact] in B. rewrite XY in B.
  destruct (floor_le _ F) as [L0 L1].
  split; [exact F|]. split; [exact L0|]. apply lt_IZR.
  revert B L1 XYle X0 Y0.
  generalize (to_R (binary_round_aux 53 1024 false (Z.pos (mx * my)) (ex + ey) loc_Exact)).
  generalize (IZR (floor (binary_round_aux 53 1024 false (Z.pos (mx * my)) (ex + ey) loc_Exact))).
  generalize (IZR (Z.pos mx) * pow2 ex)%R (IZR (Z.pos my) * pow2 ey)%R.
  intros a b f r B L1 XYle X0 Y0.
  assert (a * b * (1 + pow2 (-52)) <= draw_bound * (IZR n * (1 + pow2 (-52))) * (1 + pow2 (-52)))%R
    by (apply Rmult_le_compat_r; lra).
  assert (draw_bound * ((1 + pow2 (-52)) * (1 + pow2 (-52))) * IZR n < 1 * IZR n)%R
    by (apply Rmult_lt_compat_r; lra).
  lra.
Qed.

End NumberFacts.

(** ** Arrays *)
Module ArrFacts.
Import Arr.

Section Arrays.
Context {T : Type}.
Implicit Types (a : list T) (x y : T) (i j k : nat).

Lemma set_nth_length i x a : List.length (set_nth i x a) = List.length a.
Proof.
  revert i. induction a as [|h t IH]; intros [|i]; simpl; auto.
Qed.

Lemma nth_error_set_nth i x a k :
  nth_error (set_nth i x a) k =
  if (k =? i)%nat then (if (i <? List.length a)%nat then Some x else None)
  else nth_error a k.
Proof.
  revert i k. induction a as [|h t IH]; intros i k.
  - destruct i, k; simpl; try reflexivity; destruct (k =? i)%nat; reflexivity.
  - destruct i as [|i], k as [|k]; simpl; try reflexivity.
    rewrite IH. reflexivity.
Qed.

(** Writing [x] at the place of [y] and putting [y] in front keeps the
    elements. *)
Lemma set_nth_extract k x y a :
  nth_error a k = Some y -> Permutation (y :: set_nth k x a) (x :: a).
Proof.
  revert k. induction a as [|h t IH]; intros [|k] H; simpl in *; try discriminate.
  - injection H as ->. apply perm_swap.
  - apply perm_trans with (h :: y :: set_nth k x t); [apply perm_swap|].
    apply perm_trans with (h :: x :: t); [apply perm_skip, IH, H | apply perm_swap].
Qed.

Lemma set_nth_twice_perm i j x y a :
  nth_error a i = Some x -> nth_error a j = Some y ->
  Permutation (set_nth j x (set_nth i y a)) a.
Proof.
  revert i j. induction a as [|h t IH]; intros [|i] [|j] Hi Hj; simpl in *; try discriminate.
  - injection Hi as ->. injection Hj as ->. reflexivity.
  - injection Hi as ->. apply set_nth_extract, Hj.
  - injection Hj as ->. apply set_nth_extract, Hi.
  - apply perm_skip, IH; assumption.
Qed.

Lemma swap_perm i j a : Permutation (swap i j a) a.
Proof.
  unfold swap. destruct (nth_error a i) as [x|] eqn:Hi; [|reflexivity].
  destruct (nth_error a j) as [y|] eqn:Hj; [|reflexivity].
  apply set_nth_twice_perm; assumption.
Qed.

Lemma nth_error_swap i j a k :
  (i < List.length a)%nat -> (j < List.length a)%nat ->
  nth_error (swap i j a) k =
  if (k =? j)%nat then nth_error a i
  else if (k =? i)%nat then nth_error a j
  else nth_error a k.
Proof.
  intros Hi Hj. unfold swap.
  destruct (nth_error a i) as [x|] eqn:Ei; [|apply nth_error_None in Ei; lia].
  destruct (nth_error a j) as [y|] eqn:Ej; [|apply nth_error_None in Ej; lia].
  rewrite nth_error_set_nth, set_nth_length, nth_error_set_nth.
  apply Nat.ltb_lt in Hi, Hj. rewrite Hi, Hj. reflexivity.
Qed.

Lemma slice0_firstn e a :
  0 <= e -> slice0 e a = firstn (Z.to_nat (Z.min e (Z.of_nat (List.length a)))) a.
Proof.
  intros H. unfold slice0. destruct (e <? 0) eqn:E; [apply Z.ltb_lt in E; lia|reflexivity].
Qed.

Lemma slice0_incl e a : incl (slice0 e a) a.
Proof.
  unfold slice0. intros x Hx.
  match type of Hx with In _ (firstn ?n _) => rewrite <- (firstn_skipn n a) end.
  apply in_or_app. left. exact Hx.
Qed.

End Arrays.

Lemma nth_error_mapi_from {A B} (f : nat -> A -> B) (a : list A) s k :
  nth_error (mapi_from s f a) k = option_map (f (s + k)%nat) (nth_error a k).
Proof.
  revert s k. induction a as [|h t IH]; intros s [|k]; simpl; try reflexivity.
  - rewrite Nat.add_0_r. reflexivity.
  - rewrite IH. replace (S s + k)%nat with (s + S k)%nat by lia. reflexivity.
Qed.

Lemma mapi_from_length {A B} (f : nat -> A -> B) (a : list A) s :
  List.length (mapi_from s f a) = List.length a.
Proof. revert s. induction a; intros; simpl; auto. Qed.

End ArrFacts.

(** ** Strings and replacement *)
Module StrFacts.
Import Str.
Local Open Scope string_scope.

Lemma length_append_string (s1 s2 : string) :
  String.length (s1 ++ s2)%string = (String.length s1 + String.length s2)%nat.
Proof. induction s1 as [|c s1 IH]; simpl; [reflexivity | rewrite IH; reflexivity]. Qed.

Lemma append_assoc (a b c : string) : (a ++ b) ++ c = a ++ (b ++ c).
Proof. induction a as [|x a IH]; simpl; [reflexivity | rewrite IH; reflexivity]. Qed.

(** Two splits of one string with left parts of equal length are equal. *)
Lemma append_inj_length (a b a' b' : string) :
  a ++ b = a' ++ b' -> String.length a = String.length a' -> a = a' /\ b = b'.
Proof.
  revert a'. induction a as [|x a IH]; intros [|x' a'] H L; simpl in *; try discriminate.
  - split; [reflexivity | exact H].
  - injection H as -> H. injection L as L. destruct (IH _ H L) as [-> ->]. split; reflexivity.
Qed.

Lemma take_spec n s :
  exists rest, s = take n s ++ rest /\ String.length (take n s) = Nat.min n (String.length s).
Proof.
  unfold take. revert s. induction n as [|n IH]; intros s.
  - exists s. destruct s; simpl; split; reflexivity.
  - destruct s as [|c s]; simpl.
    + exists "". split; reflexivity.
    + destruct (IH s) as (rest & E & L). exists rest. split.
      * f_equal. exact E.
      * f_equal. exact L.
Qed.

Lemma substring_all n s : (String.length s <= n)%nat -> substring 0 n s = s.
Proof.
  revert s. induction n as [|n IH]; intros [|c s] H; simpl in *; try reflexivity; try lia.
  f_equal. apply IH. lia.
Qed.

Lemma substring_skip k n s :
  (k <= String.length s)%nat -> (String.length s - k <= n)%nat ->
  exists head, s = head ++ substring k n s /\ String.length head = k.
Proof.
  revert s. induction k as [|k IH]; intros s Hk Hn.
  - exists "". rewrite substring_all by lia. split; reflexivity.
  - destruct s as [|c s]; simpl in *; [lia|].
    destruct (IH s ltac:(lia) ltac:(lia)) as (head & E & L).
    exists (String c head). simpl. split; [f_equal; exact E | f_equal; exact L].
Qed.

Lemma take_last_spec n s :
  (n <= String.length s)%nat ->
  exists head, s = head ++ take_last n s /\ String.length (take_last n s) = n.
Proof.
  intros H. unfold take_last.
  destruct (substring_skip (String.length s - n) n s ltac:(lia) ltac:(lia)) as (head & E & L).
  exists head. split; [exact E|].
  apply (f_equal String.length) in E. rewrite length_append_string in E. lia.
Qed.

Lemma strip_prefix_Some pat s rest : strip_prefix pat s = Some rest <-> s = pat ++ rest.
Proof.
  revert s. induction pat as [|a pat IH]; intros s; simpl.
  - split; [intros [= ->]; reflexivity | intros ->; reflexivity].
  - destruct s as [|b s]; [split; discriminate|].
    destruct (Ascii.eqb_spec a b) as [->|N].
    + rewrite IH. split; [intros ->; reflexivity | intros [= ->]; reflexivity].
    + split; [discriminate | intros [= E _]; congruence].
Qed.

Lemma find_first_spec pat s :
  match find_first pat s with
  | Some (before, after) => leftmost pat s before after
  | None => absent pat s
  end.
Proof.
  induction s as [|c s IH]; cbn [find_first].
  - destruct (strip_prefix pat "") as [rest|] eqn:E.
    + apply strip_prefix_Some in E. split; [exact E | intros; simpl; lia].
    + intros [|x b] a H.
      * cbn [append] in H. apply strip_prefix_Some in H. congruence.
      * discriminate.
  - destruct (strip_prefix pat (String c s)) as [rest|] eqn:E.
    + apply strip_prefix_Some in E. split; [exact E | intros; simpl; lia].
    + destruct (find_first pat s) as [[before after]|].
      * destruct IH as [IH1 IH2]. split.
        -- simpl. f_equal. exact IH1.
        -- intros [|x b] a H.
           ++ cbn [append] in H. apply strip_prefix_Some in H. congruence.
           ++ simpl in H. injection H as _ H. simpl. apply le_n_S. eapply IH2. exact H.
      * intros [|x b] a H.
        -- cbn [append] in H. apply strip_prefix_Some in H. congruence.
        -- simpl in H. injection H as _ H. apply (IH b a). exact H.
Qed.

Lemma leftmost_unique pat s b a b' a' :
  leftmost pat s b a -> leftmost pat s b' a' -> b = b' /\ a = a'.
Proof.
  intros [E1 M1] [E2 M2].
  pose proof (M1 _ _ E2). pose proof (M2 _ _ E1).
  rewrite E1 in E2. apply append_inj_length in E2; [|lia].
  destruct E2 as [-> E2]. split; [reflexivity|].
  apply append_inj_length in E2; [tauto | reflexivity].
Qed.

Lemma has_dollar_cons c s :
  has_dollar (String c s) = if Ascii.eqb c "$" then true else has_dollar s.
Proof.
  unfold has_dollar. cbn [find_first strip_prefix].
  rewrite (Ascii.eqb_sym "$"%char c).
  destruct (Ascii.eqb c "$"); [reflexivity|].
  destruct (find_first "$" s) as [[? ?]|]; reflexivity.
Qed.

Lemma expand_not_dollar c rest before matched after :
  Ascii.eqb c "$" = false ->
  expand (String c rest) before matched after = String c (expand rest before matched after).
Proof.
  intros H. destruct c as [[] [] [] [] [] [] [] []]; try reflexivity; discriminate.
Qed.

Lemma expand_literal replacement before matched after :
  has_dollar replacement = false -> expand replacement before matched after = replacement.
Proof.
  induction replacement as [|c rest IH]; intros H; [reflexivity|].
  rewrite has_dollar_cons in H. destruct (Ascii.eqb c "$") eqn:E; [discriminate|].
  rewrite expand_not_dollar by exact E. f_equal. apply IH, H.
Qed.

Lemma expand_no_pattern replacement before matched after :
  has_pattern replacement = false -> expand replacement before matched after = replacement.
Proof.
  induction replacement as [|c rest IH]; intros H; [reflexivity|].
  cbn [has_pattern] in H. apply orb_false_iff in H as [H1 H2].
  destruct (Ascii.eqb c "$") eqn:E.
  - apply Ascii.eqb_eq in E. subst c. destruct rest as [|d rest'].
    + reflexivity.
    + cbn [andb] in H1. apply orb_false_iff in H1 as [H1 Hq].
      apply orb_false_iff in H1 as [H1 Hb]. apply orb_false_iff in H1 as [Hd Ha].
      cbn [expand]. rewrite Hd, Ha, Hb, Hq. f_equal. apply IH, H2.
  - rewrite expand_not_dollar by exact E. f_equal. apply IH, H2.
Qed.

End StrFacts.

(** ** The shuffle permutes *)
Module SamplerFacts.
Import Number Arr Sampler ArrFacts NumberFacts.

Lemma shuffle_loop_perm {T} i rng (a : list T) : Permutation (shuffle_loop i rng a) a.
Proof.
  revert rng a. induction i as [|i IH]; intros rng a; simpl; [reflexivity|].
  eapply perm_trans; [apply IH | apply swap_perm].
Qed.

Lemma shuffleArray_perm {T} (array : list T) seed : Permutation (shuffleArray array seed) array.
Proof. apply shuffle_loop_perm. Qed.

Lemma next_state_range rng :
  0 <= rng -> 0 <= Z.rem (rng * 9301 + 49297) 233280 < 233280.
Proof. intros H. rewrite Z.rem_mod_nonneg by lia. apply Z.mod_pos_bound. lia. Qed.

(** For an array of fewer than [2^32] elements (every array of the
    program) and a seed that is not negative, the loop never floors
    anything but a finite number and never indexes outside the array: the
    strict loop ends, with the result of [shuffle_loop]. *)
Lemma shuffle_loop_strict_defined {T} i rng (a : list T) :
  0 <= rng -> (i < List.length a)%nat -> Z.of_nat (List.length a) < 2 ^ 32 ->
  shuffle_loop_strict i rng a = Some (shuffle_loop i rng a).
Proof.
  revert rng a. induction i as [|i IH]; intros rng a Hr Hi Hl; [reflexivity|].
  cbn [shuffle_loop_strict shuffle_loop seededRandom].
  pose proof (next_state_range rng Hr) as Hn.
  pose proof (scaled_draw_floor (Z.rem (rng * 9301 + 49297) 233280) (Z.of_nat (S i) + 1) Hn
                ltac:(lia)) as (F & L & U).
  rewrite (is_nonneg_finite_true _ F).
  replace (S i <? List.length a)%nat with true by (symmetry; apply Nat.ltb_lt; lia).
  replace (pick _ (S i) <? List.length a)%nat with true
    by (symmetry; apply Nat.ltb_lt; unfold pick, scaled; lia).
  cbn [andb]. apply IH.
  - lia.
  - rewrite (Permutation_length (swap_perm _ _ _)). lia.
  - rewrite (Permutation_length (swap_perm _ _ _)). lia.
Qed.

Lemma shuffleArray_strict {T} (array : list T) seed :
  0 <= seed -> Z.of_nat (List.length array) < 2 ^ 32 ->
  shuffle_loop_strict (List.length array - 1) seed array = Some (shuffleArray array seed).
Proof.
  intros Hs Hl. destruct array as [|x rest]; [reflexivity|].
  apply shuffle_loop_strict_defined; [exact Hs | simpl; lia | exact Hl].
Qed.

(** The draw is the rounded quotient: at state 67392 and position 44 the
    exact product [67392 * 45 / 233280] is 13, the program computes 12. *)
Example rounded_draw :
  fst (seededRandom 167795) = 67392 /\
  pick (snd (seededRandom 167795)) 44 = 12%nat /\
  67392 * 45 / 233280 = 13.
Proof. vm_compute. repeat split. Qed.

Lemma contentSeed_range traces : 0 <= contentSeed traces < 100000.
Proof.
  unfold contentSeed. rewrite Z.rem_mod_nonneg by lia. apply Z.mod_pos_bound. lia.
Qed.

Lemma tracesWithIndexes_length traces :
  List.length (tracesWithIndexes traces) = List.length traces.
Proof. apply mapi_from_length. Qed.

Lemma tracesWithIndexes_nth traces k :
  nth_error (tracesWithIndexes traces) k =
  option_map (fun trace => mkIndexed trace (k + 1)) (nth_error traces k).
Proof. unfold tracesWithIndexes, mapi. rewrite nth_error_mapi_from. reflexivity. Qed.

Lemma tracesWithIndexes_In traces t :
  In t (tracesWithIndexes traces) ->
  (1 <= originalIndex t <= List.length traces)%nat /\
  nth_error traces (originalIndex t - 1) = Some (trace t).
Proof.
  intros H. apply In_nth_error in H as [k Hk].
  rewrite tracesWithIndexes_nth in Hk.
  destruct (nth_error traces k) as [x|] eqn:E; [|discriminate].
  injection Hk as <-. cbn [originalIndex trace].
  assert (k < List.length traces)%nat by (apply nth_error_Some; congruence).
  replace (k + 1 - 1)%nat with k by lia. split; [lia | exact E].
Qed.

Lemma tracesWithIndexes_indexes traces :
  map originalIndex (tracesWithIndexes traces) = seq 1 (List.length traces).
Proof.
  unfold tracesWithIndexes, mapi.
  assert (G : forall s, map originalIndex
                (mapi_from s (fun index trace => mkIndexed trace (index + 1)) traces)
              = seq (s + 1) (List.length traces)).
  { induction traces as [|h t IH]; intros s; simpl; [reflexivity|].
    f_equal. rewrite IH. reflexivity. }
  apply (G 0%nat).
Qed.

Lemma shuffled_NoDup traces seed :
  NoDup (map originalIndex (shuffleArray (tracesWithIndexes traces) seed)).
Proof.
  eapply Permutation_NoDup.
  - apply Permutation_sym, Permutation_map, shuffleArray_perm.
  - rewrite tracesWithIndexes_indexes. apply seq_NoDup.
Qed.

Lemma NoDup_firstn {A} n (l : list A) : NoDup l -> NoDup (firstn n l).
Proof.
  intros H. rewrite <- (firstn_skipn n l) in H. apply NoDup_app_remove_r in H. exact H.
Qed.

End SamplerFacts.

(** ** The program's sampler against the specification's *)
Module RefinementFacts.
Import Number Arr Sampler ArrFacts StrFacts SamplerFacts.

Lemma length_join_empty (traces : list string) :
  String.length (String.concat "" traces) = list_sum (map String.length traces).
Proof.
  induction traces as [|x [|y rest] IH].
  - reflexivity.
  - simpl. lia.
  - change (String.concat "" (x :: y :: rest))
      with (x ++ "" ++ String.concat "" (y :: rest))%string.
    rewrite !length_append_string, IH. simpl. lia.
Qed.

Lemma seed_agrees traces : contentSeed traces = Reference.seed traces.
Proof.
  unfold contentSeed, Reference.seed. rewrite length_join_empty.
  apply Z.rem_mod_nonneg; lia.
Qed.

Lemma positioned_agrees traces : tracesWithIndexes traces = Reference.positioned traces.
Proof.
  unfold tracesWithIndexes, mapi, Reference.positioned.
  assert (G : forall s,
             mapi_from s (fun index trace => mkIndexed trace (index + 1)) traces =
             map (fun p => mkIndexed (fst p) (snd p))
                 (combine traces (seq (s + 1) (List.length traces)))).
  { induction traces as [|h t IH]; intros s; simpl; [reflexivity|].
    f_equal. rewrite IH. reflexivity. }
  apply (G 0%nat).
Qed.

Lemma exchange_agrees {T} i j (a : list T) :
  (i < List.length a)%nat -> swap i j a = Reference.exchange i j a.
Proof.
  intros Hi. apply nth_error_ext. intros k.
  unfold Reference.exchange, mapi. rewrite nth_error_mapi_from. cbn [Nat.add].
  destruct (Nat.lt_ge_cases j (List.length a)) as [Hj|Hj].
  - rewrite nth_error_swap by assumption.
    destruct (nth_error a i) as [ai|] eqn:Ei; [|apply nth_error_None in Ei; lia].
    destruct (nth_error a j) as [aj|] eqn:Ej; [|apply nth_error_None in Ej; lia].
    destruct (Nat.eqb_spec k j) as [->|Nkj]; destruct (Nat.eqb_spec j i) as [->|Nji].
    + rewrite Ei. cbn [option_map]. rewrite ?Nat.eqb_refl.
      f_equal. symmetry. apply nth_error_nth. exact Ei.
    + rewrite Ej. cbn [option_map]. rewrite ?Nat.eqb_refl.
      f_equal. symmetry. apply nth_error_nth. exact Ei.
    + destruct (Nat.eqb_spec k i) as [->|Nki]; [lia|].
      destruct (nth_error a k); reflexivity.
    + destruct (Nat.eqb_spec k i) as [->|Nki].
      * rewrite Ei. cbn [option_map]. f_equal. symmetry. apply nth_error_nth. exact Ej.
      * destruct (nth_error a k); reflexivity.
  - unfold swap.
    destruct (nth_error a i) as [x|] eqn:Ei; [|apply nth_error_None in Ei; lia].
    pose proof Hj as Hj'. apply nth_error_None in Hj'. rewrite Hj'.
    destruct (nth_error a k) as [y|] eqn:Ek; cbn [option_map]; [|reflexivity].
    assert (k < List.length a)%nat by (apply nth_error_Some; congruence).
    destruct (Nat.eqb_spec k i) as [->|Nki].
    + rewrite nth_overflow by lia. reflexivity.
    + destruct (Nat.eqb_spec k j); [lia | reflexivity].
Qed.

Lemma fisher_yates_agrees {T} i rng (a : list T) :
  0 <= rng -> (i < List.length a)%nat ->
  shuffle_loop i rng a = Reference.fisher_yates i rng a.
Proof.
  revert rng a. induction i as [|i IH]; intros rng a Hr Hi; [reflexivity|].
  cbn [shuffle_loop Reference.fisher_yates seededRandom].
  unfold Reference.lcg, Reference.draw, pick, scaled.
  rewrite Z.rem_mod_nonneg by lia.
  rewrite exchange_agrees by lia.
  apply IH.
  - apply Z.mod_pos_bound. lia.
  - unfold Reference.exchange, mapi. rewrite mapi_from_length. lia.
Qed.

Lemma shuffle_agrees traces :
  shuffleArray (tracesWithIndexes traces) (contentSeed traces) =
  Reference.fisher_yates (List.length traces - 1) (Reference.seed traces)
                         (Reference.positioned traces).
Proof.
  unfold shuffleArray. rewrite tracesWithIndexes_length.
  destruct traces as [|h t]; [reflexivity|].
  rewrite <- seed_agrees, <- positioned_agrees.
  apply fisher_yates_agrees.
  - apply contentSeed_range.
  - rewrite tracesWithIndexes_length. simpl. lia.
Qed.

Lemma sample_agrees traces maxCount :
  0 <= maxCount -> selectedTraces traces maxCount = Reference.sample traces maxCount.
Proof.
  intros H. unfold selectedTraces, Reference.sample.
  rewrite slice0_firstn by lia.
  rewrite (Permutation_length (shuffleArray_perm _ _)), tracesWithIndexes_length.
  replace (Z.min (Z.min maxCount (Z.of_nat (List.length traces))) (Z.of_nat (List.length traces)))
    with (Z.min maxCount (Z.of_nat (List.length traces))) by lia.
  rewrite shuffle_agrees. reflexivity.
Qed.

End RefinementFacts.

(** ** Claims about the sampler *)
Section SamplerClaims.
Import Number Arr Sampler ArrFacts SamplerFacts RefinementFacts.
Local Open Scope string_scope.

Lemma sameLine_index (t u : IndexedTrace) :
  Reasoning.sameLine (Some (inject_Z (Z.of_nat (originalIndex t)))) u = true
  <-> originalIndex u = originalIndex t.
Proof.
  unfold Reasoning.sameLine. rewrite Qeq_bool_iff, inject_Z_injective. lia.
Qed.

Lemma find_by_index (l : list IndexedTrace) t :
  NoDup (map originalIndex l) -> In t l ->
  find (Reasoning.sameLine (Some (inject_Z (Z.of_nat (originalIndex t))))) l = Some t.
Proof.
  induction l as [|h rest IH]; intros N H; [contradiction|].
  cbn [map] in N. inversion N as [|? ? Hn N']; subst.
  cbn [find]. destruct H as [->|H].
  - replace (Reasoning.sameLine _ t) with true by (symmetry; apply sameLine_index; reflexivity).
    reflexivity.
  - destruct (Reasoning.sameLine _ h) eqn:E.
    + apply sameLine_index in E. exfalso. apply Hn. rewrite E. apply in_map, H.
    + apply IH; assumption.
Qed.

(** C1 (as amended).  For every list of trace texts and every bound
    [maxCount >= 0], the sample of [analyzeDatasetGapsStreaming] is the one
    the reference algorithm computes: traces paired with their 1-based
    positions, generator seeded with the sum of the lengths modulo 100000,
    backward Fisher-Yates shuffle with [state = (state * 9301 + 49297) mod
    233280] and draw [state / 233280], first [min(maxCount, len)] elements
    kept.  Both sides are functions of the trace texts and the bound
    alone. *)
Theorem sampler_matches_reference :
  forall (traces : list string) (maxCount : Z),
    0 <= maxCount ->
    selectedTraces traces maxCount = Reference.sample traces maxCount.
Proof. intros traces maxCount H. apply sample_agrees. exact H. Qed.

Lemma sampler_matches_reference_witness :
  0 <= 2 /\
  selectedTraces ["x"; "y"; "z"] 2 = Reference.sample ["x"; "y"; "z"] 2.
Proof.
  split; [lia | apply (sampler_matches_reference ["x"; "y"; "z"] 2); lia].
Defined.

(** C1 as stated fails for a negative bound: [slice(0, -1)] keeps all but
    the last element of the shuffled array, where "the first
    [min(maxCount, len)] elements" are none. *)
Lemma sampler_negative_bound :
  selectedTraces ["x"; "y"; "z"] (-1)
    = [mkIndexed "y" 2; mkIndexed "z" 3]
  /\ Reference.sample ["x"; "y"; "z"] (-1) = [].
Proof. split; vm_compute; reflexivity. Qed.

(** C5.  Every element of the sample carries an [originalIndex] in
    [1 .. len(corpus)], and its text is the corpus entry at that 1-based
    position, whatever the order the shuffle produced and whatever the
    bound. *)
Theorem index_fidelity :
  forall (traces : list string) (maxCount : Z),
    Forall (fun t =>
              (1 <= originalIndex t <= List.length traces)%nat /\
              nth_error traces (originalIndex t - 1) = Some (trace t))
           (selectedTraces traces maxCount).
Proof.
  intros traces maxCount. apply Forall_forall. intros t H.
  apply tracesWithIndexes_In.
  eapply Permutation_in; [apply shuffleArray_perm|].
  eapply slice0_incl. exact H.
Qed.

(** C10.  The [originalIndex] values of a sample are pairwise distinct, so
    the lookup the reasoning caller makes with the line number of a sampled
    trace finds that trace and no other. *)
Theorem sample_indexes_distinct :
  forall (traces : list string) (maxCount : Z),
    let sample := selectedTraces traces maxCount in
    NoDup (map originalIndex sample) /\
    Forall (fun t =>
              find (Reasoning.sameLine (Some (inject_Z (Z.of_nat (originalIndex t)))))
                   sample = Some t)
           sample.
Proof.
  intros traces maxCount sample.
  assert (N : NoDup (map originalIndex sample)).
  { unfold sample, selectedTraces, slice0. rewrite <- firstn_map.
    apply NoDup_firstn, shuffled_NoDup. }
  split; [exact N|]. apply Forall_forall. intros t H. apply find_by_index; assumption.
Qed.

Lemma slice0_250 {T} (a : list T) : slice0 250 a = firstn 250 a.
Proof.
  rewrite slice0_firstn by lia.
  destruct (Nat.le_gt_cases 250 (List.length a)) as [L|G].
  - replace (Z.to_nat (Z.min 250 (Z.of_nat (List.length a)))) with 250%nat by lia. reflexivity.
  - replace (Z.to_nat (Z.min 250 (Z.of_nat (List.length a)))) with (List.length a) by lia.
    rewrite firstn_all, firstn_all2 by lia. reflexivity.
Qed.

(** C6.  Without a sample from the analysis stage (none, or an empty one)
    the reasoning caller shuffles the first 250 corpus entries: the result
    is the one computed from those entries alone, it has [min(250, len)]
    elements, and each of them is one of the first 250 entries with its
    position. *)
Theorem fallback_uses_first_250 :
  forall (allTraces : list string),
    let fallback := Reasoning.tracesForReasoning allTraces None in
    Reasoning.tracesForReasoning allTraces (Some []) = fallback /\
    fallback = shuffleArray (tracesWithIndexes (firstn 250 allTraces))
                            (contentSeed (firstn 250 allTraces)) /\
    fallback = Reasoning.tracesForReasoning (firstn 250 allTraces) None /\
    List.length fallback = Nat.min 250 (List.length allTraces) /\
    Forall (fun t =>
              (1 <= originalIndex t <= 250)%nat /\
              nth_error allTraces (originalIndex t - 1) = Some (trace t))
           fallback.
Proof.
  intros allTraces fallback.
  assert (E : fallback = shuffleArray (tracesWithIndexes (firstn 250 allTraces))
                                      (contentSeed (firstn 250 allTraces))).
  { unfold fallback, Reasoning.tracesForReasoning. rewrite slice0_250. reflexivity. }
  split; [reflexivity|]. split; [exact E|]. split; [|split].
  - rewrite E. unfold Reasoning.tracesForReasoning.
    rewrite slice0_250, firstn_firstn. reflexivity.
  - rewrite E, (Permutation_length (shuffleArray_perm _ _)), tracesWithIndexes_length.
    apply length_firstn.
  - apply Forall_forall. intros t H. rewrite E in H.
    apply (Permutation_in _ (shuffleArray_perm _ _)) in H.
    apply tracesWithIndexes_In in H as [[L U] N].
    rewrite length_firstn in U.
    assert (N' : nth_error allTraces (originalIndex t - 1) = Some (trace t)).
    { rewrite <- N, nth_error_firstn.
      replace (originalIndex t - 1 <? 250)%nat with true by (symmetry; apply Nat.ltb_lt; lia).
      reflexivity. }
    split; [lia | exact N'].
Qed.

End SamplerClaims.

(** ** Claims about the prompts *)
Section PromptClaims.
Import Str StrFacts Sampler.
Local Open Scope string_scope.

(** C4 (as amended).  The prompts are rendered by [replace] applied to
    [{conversation}], then [{traces}] (then [{datasets}] for the analysis
    prompt), each time on the text so far.  One step puts the bound text,
    as it is, in the place of the leftmost occurrence of the placeholder
    and changes nothing else, when the bound text holds none of [$$],
    [$&], [$`] and [$']; a dollar sign before any other character is no
    obstacle.  When the placeholder does not occur the text is returned
    unchanged, whatever the bound text.  No step raises. *)
Theorem prompt_substitution :
  forall (s placeholder bound : string),
    (forall template conversation traces datasets,
        Prompt.reasoningPrompt template conversation traces
          = replace (replace template "{conversation}" conversation) "{traces}" traces
        /\ Prompt.finalPrompt template conversation traces datasets
          = replace (replace (replace template "{conversation}" conversation)
                             "{traces}" traces) "{datasets}" datasets)
    /\ (forall before after,
           leftmost placeholder s before after ->
           has_pattern bound = false ->
           replace s placeholder bound = before ++ bound ++ after)
    /\ (absent placeholder s -> replace s placeholder bound = s).
Proof.
  intros s placeholder bound. split; [intros; split; reflexivity|].
  pose proof (find_first_spec placeholder s) as F. unfold replace.
  destruct (find_first placeholder s) as [[b a]|]; split.
  - intros before after L H. destruct (leftmost_unique _ _ _ _ _ _ F L) as [-> ->].
    now rewrite expand_no_pattern.
  - intros A. destruct F as [F _]. exfalso. exact (A _ _ F).
  - intros before after [L _]. exfalso. exact (F _ _ L).
  - reflexivity.
Qed.

Lemma prompt_substitution_witness :
  has_pattern "1: costs $5, $x and 100$" = false
  /\ replace "Traces: {traces}." "{traces}" "1: costs $5, $x and 100$"
     = "Traces: " ++ "1: costs $5, $x and 100$" ++ "."
  /\ replace "No placeholder." "{traces}" "1: $& and $$" = "No placeholder.".
Proof.
  split; [reflexivity|]. split.
  - apply (proj1 (proj2 (prompt_substitution "Traces: {traces}." "{traces}"
                                             "1: costs $5, $x and 100$"))).
    + split; [reflexivity|].
      intros b a E.
      pose proof (find_first_spec "{traces}" "Traces: {traces}.") as F.
      cbn in F. destruct F as [_ F]. exact (F b a E).
    + reflexivity.
  - apply (proj2 (proj2 (prompt_substitution "No placeholder." "{traces}" "1: $& and $$"))).
    exact (find_first_spec "{traces}" "No placeholder.").
Defined.

(** C4 as stated fails: a second occurrence of a placeholder is left in the
    prompt, where replacing each occurrence would leave none; a placeholder
    inside the conversation takes the traces in place of the template's
    own; and a bound text that holds [$$], [$&], [$`] or [$'] is not the
    text that reaches the prompt. *)
Lemma prompt_not_each_occurrence :
  Prompt.reasoningPrompt "{traces} / {traces}" "hi" "1: a" = "1: a / {traces}"
  /\ replace_each "{traces} / {traces}" "{traces}" "1: a" = "1: a / 1: a"
  /\ Prompt.reasoningPrompt "{conversation} | {traces}" "what is {traces}?" "1: a"
       = "what is 1: a? | {traces}"
  /\ Prompt.reasoningPrompt "{conversation}" "User: costs $$5" "" = "User: costs $5"
  /\ Prompt.reasoningPrompt "Q: {conversation}." "User: a $& b" ""
       = "Q: User: a {conversation} b."
  /\ Prompt.reasoningPrompt "Q: {conversation}." "User: a $` b" "" = "Q: User: a Q:  b."
  /\ Prompt.reasoningPrompt "Q: {conversation}." "User: a $' b" "" = "Q: User: a . b.".
Proof. repeat split; vm_compute; reflexivity. Qed.

(** C8.  The conversation handed to the reasoning template is the whole
    conversation when that has at most 2000 characters and its last 2000
    characters otherwise; a trace of more than 200 characters enters the
    reasoning template as its first 200 characters followed by [...], a
    shorter one whole.  The analysis template receives each trace whole and
    a conversation that ends with the whole question, whatever their
    lengths.  The last two parts say that these are the texts the two
    requests are rendered from. *)
Theorem reasoning_inputs_truncated :
  forall (chatHistory : list Prompt.ChatMessage) (userQuery aiResponse : string)
         (t : IndexedTrace),
    let full := Prompt.reasoningConversationFull chatHistory userQuery aiResponse in
    let context := Prompt.reasoningConversation chatHistory userQuery aiResponse in
    ((String.length full <= 2000)%nat /\ context = full
     \/ (2000 < String.length full)%nat /\ String.length context = 2000%nat
        /\ exists head, full = head ++ context)
    /\ ((String.length (trace t) <= 200)%nat
        /\ Prompt.optimizedLine t = of_nat (originalIndex t) ++ ": " ++ trace t
        \/ (200 < String.length (trace t))%nat
           /\ exists kept rest,
               trace t = kept ++ rest /\ String.length kept = 200%nat
               /\ Prompt.optimizedLine t = of_nat (originalIndex t) ++ ": " ++ kept ++ "...")
    /\ Prompt.traceLine t = of_nat (originalIndex t) ++ ": " ++ trace t
    /\ (exists head, Prompt.analysisConversation chatHistory userQuery
                     = head ++ "User: " ++ userQuery)
    /\ (forall DEFAULT_PROMPTS langsmithContent customPrompt preSelectedTraces,
          Reasoning.reasoningRequest DEFAULT_PROMPTS langsmithContent userQuery
            aiResponse customPrompt chatHistory preSelectedTraces
          = Prompt.reasoningPrompt
              (Prompt.orDefault customPrompt (Prompt.reasoning DEFAULT_PROMPTS))
              context
              (join newline
                 (map Prompt.optimizedLine
                    (Reasoning.tracesForReasoning (nonBlankLines langsmithContent)
                                                  preSelectedTraces))))
    /\ (forall DEFAULT_PROMPTS langsmithContent customPrompt maxTraces datasetsSection,
          exists focus,
            Prompt.analysisRequest DEFAULT_PROMPTS customPrompt chatHistory
              langsmithContent userQuery maxTraces datasetsSection
            = Prompt.finalPrompt
                (Prompt.orDefault customPrompt (Prompt.analysis DEFAULT_PROMPTS))
                (Prompt.analysisConversation chatHistory userQuery)
                (join newline
                   (map Prompt.traceLine
                      (selectedTraces (nonBlankLines langsmithContent) maxTraces))
                 ++ focus)
                datasetsSection).
Proof.
  intros chatHistory userQuery aiResponse t full context.
  split; [|split; [|split; [|split; [|split]]]].
  - unfold context, Prompt.reasoningConversation, Prompt.truncateConversation.
    fold full. unfold Prompt.maxConversationLength.
    destruct (Nat.ltb_spec 2000 (String.length full)) as [L|L].
    + right. destruct (take_last_spec 2000 full ltac:(lia)) as (head & E & Len).
      split; [exact L|]. split; [exact Len|]. exists head. exact E.
    + left. split; [exact L | reflexivity].
  - unfold Prompt.optimizedLine, Prompt.truncatedTrace, Prompt.maxTraceLength.
    destruct (Nat.ltb_spec 200 (String.length (trace t))) as [L|L].
    + right. split; [exact L|].
      destruct (take_spec 200 (trace t)) as (rest & E & Len).
      exists (take 200 (trace t)), rest. split; [exact E|]. split; [lia | reflexivity].
    + left. split; [exact L | reflexivity].
  - reflexivity.
  - unfold Prompt.analysisConversation. destruct chatHistory as [|m h].
    + exists "". reflexivity.
    + exists (Prompt.formatHistory (m :: h) ++ newline ++ newline).
      rewrite !append_assoc. reflexivity.
  - intros. reflexivity.
  - intros. eexists. unfold Prompt.analysisRequest, Prompt.tracesSection. reflexivity.
Qed.

End PromptClaims.

(** ** Claims about the reasoning caller *)
Module ReasoningFacts.
Import Sampler Exn Reasoning.
Local Open Scope string_scope.

Lemma tagItem_mapsTo sample item :
  exists tagged, tagItem sample (Some item) = Returns tagged /\ mapsTo sample item tagged.
Proof.
  unfold tagItem.
  destruct (find (sameLine (Args.line_number item)) sample) as [t|] eqn:F;
    eexists; (split; [reflexivity|]); (split; [reflexivity|]).
  - left. apply find_some in F as [I S]. exists t. repeat split; assumption.
  - right. split; [|reflexivity]. intros t I. exact (find_none _ _ F t I).
Qed.

Lemma map_throwing_items sample (items : list Args.Item) :
  exists out,
    map_throwing (tagItem sample) (map Some items) = Returns out /\
    Forall2 (mapsTo sample) items out.
Proof.
  induction items as [|item rest (out & E & F)].
  - exists []. split; [reflexivity | constructor].
  - destruct (tagItem_mapsTo sample item) as (tagged & T & M).
    exists (tagged :: out). cbn [map map_throwing]. rewrite T, E.
    split; [reflexivity | constructor; assumption].
Qed.

Lemma map_throwing_null {A B} (f : option A -> outcome B) (items : list (option A)) :
  (forall x, f (Some x) = Throws "TypeError" \/ exists y, f (Some x) = Returns y) ->
  f None = Throws "TypeError" ->
  existsb (fun item => match item with None => true | Some _ => false end) items = true ->
  map_throwing f items = Throws "TypeError".
Proof.
  intros Hf Hn. induction items as [|[x|] rest IH]; cbn [existsb map_throwing]; intros H.
  - discriminate.
  - destruct (Hf x) as [->|[y ->]]; [reflexivity|]. rewrite IH by exact H. reflexivity.
  - rewrite Hn. reflexivity.
Qed.

Lemma processArguments_returns sample arguments :
  exists l, processArguments sample arguments = Returns l.
Proof.
  unfold processArguments, try_catch.
  match goal with |- exists l, match ?b with _ => _ end = _ => destruct b end; eauto.
Qed.

Lemma processArguments_null sample reasoningArgs :
  hasNullEntry reasoningArgs = true ->
  processArguments sample (JSON reasoningArgs) = Returns [].
Proof.
  unfold hasNullEntry, processArguments. intros H.
  destruct (Args.selected_traces reasoningArgs) as [[|item rest]|]; try discriminate.
  rewrite (map_throwing_null (tagItem sample) (item :: rest)); [reflexivity | | reflexivity | exact H].
  intros x. right. destruct (tagItem_mapsTo sample x) as (y & E & _). eauto.
Qed.

End ReasoningFacts.

Section ReasoningClaims.
Import Sampler Exn Reasoning ReasoningFacts.
Local Open Scope string_scope.

(** C3.  Every item of the payload is looked up by [originalIndex], not by
    position: when the sample holds a trace whose [originalIndex] is the
    item's line number, the output entry carries that trace's text; when it
    holds none, the entry carries the empty text (the reference is dropped,
    the entry and its tags stay) and nothing is raised.  With the sample
    [("a",1), ("b",2)], line 2 gives ["b"] and line 99 gives the empty
    text; with the two in the other order line 2 still gives ["b"]. *)
Theorem reasoning_line_mapping :
  (forall (sample : list IndexedTrace) (items : list Args.Item),
      exists out,
        processArguments sample (JSON (Args.mkArgs (Some (map Some items)))) = Returns out
        /\ Forall2 (mapsTo sample) items out)
  /\ processArguments [mkIndexed "a" 1; mkIndexed "b" 2]
       (JSON (Args.mkArgs (Some [Some (Args.mkItem (Some 2%Q) None (Some ["late"]));
                                 Some (Args.mkItem (Some 99%Q) None (Some ["lost"]))])))
     = Returns [mkTagged "b" ["late"]; mkTagged "" ["lost"]]
  /\ processArguments [mkIndexed "b" 2; mkIndexed "a" 1]
       (JSON (Args.mkArgs (Some [Some (Args.mkItem (Some 2%Q) None None)])))
     = Returns [mkTagged "b" []].
Proof.
  split; [|split; reflexivity].
  intros sample items. destruct (map_throwing_items sample items) as (out & E & F).
  exists out. split; [|exact F].
  unfold processArguments. cbn [Args.selected_traces].
  destruct items as [|item rest].
  - cbn in E. injection E as <-. reflexivity.
  - cbn [map] in *. rewrite E. reflexivity.
Qed.

(** C7.  [selectRelevantTraces] always returns a list and never throws.
    When the request to the model is rejected, when the arguments of the
    function call are not JSON, and when mapping the parsed payload throws
    (an entry is [null]), the list is empty. *)
Theorem reasoning_failures_are_not_fatal :
  forall (DEFAULT_PROMPTS : Prompt.Prompts) (createCompletion : string -> Completion)
         (langsmithContent userQuery aiResponse : string)
         (customPrompt : option string) (chatHistory : list Prompt.ChatMessage)
         (aborted : bool) (preSelectedTraces : option (list IndexedTrace)),
    let result := selectRelevantTraces DEFAULT_PROMPTS createCompletion langsmithContent
                    userQuery aiResponse customPrompt chatHistory aborted
                    preSelectedTraces in
    (exists tracesWithTags, result = Returns tracesWithTags)
    /\ match createCompletion (reasoningRequest DEFAULT_PROMPTS langsmithContent userQuery
                                 aiResponse customPrompt chatHistory preSelectedTraces) with
       | Rejected _ => result = Returns []
       | Message (Some NotJSON) => result = Returns []
       | Message (Some (JSON reasoningArgs)) =>
           if hasNullEntry reasoningArgs then result = Returns [] else True
       | Message None => result = Returns []
       end.
Proof.
  intros D createCompletion langsmithContent userQuery aiResponse customPrompt chatHistory
         aborted pre result.
  unfold result, selectRelevantTraces.
  destruct aborted.
  - split; [eexists; reflexivity|].
    destruct (createCompletion _) as [e|[[|args]|]]; try reflexivity.
    destruct (hasNullEntry args); [reflexivity | exact I].
  - destruct (createCompletion _) as [e|[[|args]|]]; cbn [try_catch].
    + split; [eexists|]; reflexivity.
    + split; [eexists|]; reflexivity.
    + destruct (processArguments_returns
                  (tracesForReasoning (Str.nonBlankLines langsmithContent) pre) (JSON args))
        as (l & E).
      rewrite E. split; [eexists; reflexivity|].
      destruct (hasNullEntry args) eqn:N; [|exact I].
      rewrite processArguments_null in E by exact N. exact (eq_sym E).
    + split; [eexists|]; reflexivity.
Qed.

End ReasoningClaims.

(** ** Claims about the batch ranking caller *)
Module BatchFacts.
Import Exn Batch.
Local Open Scope string_scope.

Lemma insert_In x l r : In r (insert x l) -> r = x \/ In r l.
Proof.
  induction l as [|y rest IH]; cbn [insert]; intros H.
  - destruct H as [<-|[]]. left. reflexivity.
  - destruct (Qle_bool (relevanceScore y) (relevanceScore x)).
    + destruct H as [<-|H]; [left; reflexivity | right; exact H].
    + destruct H as [<-|H]; [right; left; reflexivity|].
      destruct (IH H) as [->|I]; [left; reflexivity | right; right; exact I].
Qed.

Lemma sort_In l r : In r (sort l) -> In r l.
Proof.
  induction l as [|x rest IH]; cbn [sort fold_right]; intros H; [exact H|].
  apply insert_In in H as [->|H]; [left; reflexivity | right; apply IH, H].
Qed.

Lemma insert_sorted x l : StronglySorted before l -> StronglySorted before (insert x l).
Proof.
  induction l as [|y rest IH]; cbn [insert]; intros S.
  - constructor; constructor.
  - inversion S as [|? ? S' F]; subst.
    destruct (Qle_bool (relevanceScore y) (relevanceScore x)) eqn:E.
    + apply Qle_bool_iff in E. constructor; [exact S|].
      constructor; [exact E|].
      eapply Forall_impl; [|exact F]. intros b Hb. unfold before in *.
      eapply Qle_trans; eassumption.
    + assert (L : (relevanceScore x <= relevanceScore y)%Q).
      { destruct (Qlt_le_dec (relevanceScore x) (relevanceScore y)) as [L|L].
        - apply Qlt_le_weak, L.
        - apply Qle_bool_iff in L. congruence. }
      constructor; [apply IH, S'|].
      apply Forall_forall. intros b Hb. apply insert_In in Hb as [->|Hb]; [exact L|].
      rewrite Forall_forall in F. apply F, Hb.
Qed.

Lemma sort_sorted l : StronglySorted before (sort l).
Proof.
  induction l as [|x rest IH]; cbn [sort fold_right]; [constructor | apply insert_sorted, IH].
Qed.

Lemma filter_throwing_kept traces items kept :
  filter_throwing (inRange traces) items = Returns kept ->
  Forall (fun item => inRange traces item = Returns true) kept.
Proof.
  revert kept. induction items as [|x rest IH]; cbn [filter_throwing]; intros kept H.
  - injection H as <-. constructor.
  - destruct (inRange traces x) as [b|e] eqn:E; cbn [bind] in H; [|discriminate].
    destruct (filter_throwing (inRange traces) rest) as [ys|e]; cbn [bind] in H;
      [|discriminate].
    injection H as <-. destruct b; [constructor; [exact E|]|]; apply IH; reflexivity.
Qed.

Lemma score_clamped (s : Q) : (0 <= Qmin 1 (Qmax 0 s))%Q /\ (Qmin 1 (Qmax 0 s) <= 1)%Q.
Proof.
  split.
  - apply Q.min_glb; [discriminate | apply Q.le_max_l].
  - apply Q.le_min_l.
Qed.

Lemma toResult_wellFormed traces item r :
  inRange traces item = Returns true -> toResult traces item = Returns r ->
  wellFormed traces r.
Proof.
  destruct item as [item|]; cbn [inRange toResult]; [|discriminate].
  unfold keeps, convert.
  destruct (Args.line_number item) as [n|]; [|discriminate].
  intros [= H] [= <-]. apply andb_prop in H as [H H3]. apply andb_prop in H as [_ H2].
  apply Qle_bool_iff in H2, H3.
  unfold wellFormed. cbn [originalIndex relevanceScore].
  assert (E : (n - 1 + 1 == n)%Q) by ring.
  rewrite E. repeat split; try assumption; apply score_clamped.
Qed.

Lemma map_throwing_wellFormed traces kept results :
  Forall (fun item => inRange traces item = Returns true) kept ->
  map_throwing (toResult traces) kept = Returns results ->
  Forall (wellFormed traces) results.
Proof.
  revert results. induction kept as [|x rest IH]; cbn [map_throwing]; intros results F H.
  - injection H as <-. constructor.
  - inversion F as [|? ? Fx Frest]; subst.
    destruct (toResult traces x) as [r|e] eqn:E; cbn [bind] in H; [|discriminate].
    destruct (map_throwing (toResult traces) rest) as [rs|e]; cbn [bind] in H;
      [|discriminate].
    injection H as <-. constructor; [eapply toResult_wellFormed; eassumption|].
    apply IH; [exact Frest | reflexivity].
Qed.

Lemma processArguments_results traces arguments :
  exists results,
    processArguments traces arguments = Returns results /\
    Forall (wellFormed traces) results /\ StronglySorted before results.
Proof.
  unfold processArguments.
  destruct arguments as [|analysisResult]; cbn [try_catch].
  { exists []. repeat split; constructor. }
  destruct (Args.matching_traces analysisResult) as [items|]; cbn [try_catch].
  2: { exists []. repeat split; constructor. }
  destruct (filter_throwing (inRange traces) items) as [kept|e] eqn:K;
    cbn [bind try_catch].
  2: { exists []. repeat split; constructor. }
  destruct (map_throwing (toResult traces) kept) as [results|e] eqn:M;
    cbn [bind try_catch].
  2: { exists []. repeat split; constructor. }
  exists (sort results). split; [reflexivity|]. split; [|apply sort_sorted].
  apply Forall_forall. intros r H. apply sort_In in H.
  pose proof (map_throwing_wellFormed traces kept results (filter_throwing_kept _ _ _ K) M) as W.
  rewrite Forall_forall in W. apply W, H.
Qed.

Lemma filter_throwing_pure traces (items : list Args.Item) :
  filter_throwing (inRange traces) (map Some items)
  = Returns (map Some (filter (keeps traces) items)).
Proof.
  induction items as [|item rest IH]; [reflexivity|].
  cbn [map filter_throwing inRange filter]. rewrite IH.
  destruct (keeps traces item); reflexivity.
Qed.

Lemma map_throwing_pure traces (items : list Args.Item) :
  map_throwing (toResult traces) (map Some items) = Returns (map (convert traces) items).
Proof.
  induction items as [|item rest IH]; [reflexivity|].
  cbn [map map_throwing toResult]. rewrite IH. reflexivity.
Qed.

End BatchFacts.

Section BatchClaims.
Import Exn Batch BatchFacts.
Local Open Scope string_scope.

(** C9.  Whatever the model returns, [runBatchJobAnalysis] throws only when
    the request itself was rejected; otherwise it returns results each of
    which comes from an entry whose line number lies in [1 .. len(traces)],
    has a [relevanceScore] in [0 .. 1], and the list is in descending order
    of [relevanceScore].  On a payload of entries the result is: the entries
    with a line number in [1 .. len(traces)] kept, each kept entry mapped,
    the mapped entries sorted. *)
Theorem batch_results_bounded_and_sorted :
  forall (traces : list string),
    (forall response : Completion,
        match runBatchJobAnalysis traces response with
        | Throws e => response = Rejected e
        | Returns results =>
            Forall (wellFormed traces) results /\ StronglySorted before results
        end)
    /\ (forall items : list Args.Item,
           runBatchJobAnalysis traces
             (Message (Some (JSON (Args.mkArgs (Some (map Some items))))))
           = Returns (sort (map (convert traces) (filter (keeps traces) items)))).
Proof.
  intros traces. split.
  - intros [e|[arguments|]]; cbn [runBatchJobAnalysis].
    + reflexivity.
    + destruct (processArguments_results traces arguments) as (results & E & W & S).
      rewrite E. split; assumption.
    + split; constructor.
  - intros items. unfold runBatchJobAnalysis, processArguments.
    cbn [Args.matching_traces].
    rewrite filter_throwing_pure. cbn [bind]. rewrite map_throwing_pure. reflexivity.
Qed.

(** Entries on lines 0, 3 and -1 of a two-line corpus are filtered out; the
    scores 1.7 and -0.2 become 1 and 0; the higher score comes first. *)
Example batch_ranking_example :
  runBatchJobAnalysis ["x"; "y"]
    (Message (Some (JSON (Args.mkArgs (Some
       [Some (Args.mkItem (Some 0%Q) (Some 1%Q) (Some "zero"));
        Some (Args.mkItem (Some 1%Q) (Some (-2 # 10)%Q) (Some "low"));
        Some (Args.mkItem (Some 3%Q) (Some 1%Q) (Some "beyond"));
        Some (Args.mkItem (Some 2%Q) (Some (17 # 10)%Q) None);
        Some (Args.mkItem (Some (-1)%Q) (Some 1%Q) (Some "negative"))])))))
  = Returns [mkResult (Some "y") (2 - 1)%Q (Qmin 1 (Qmax 0 (17 # 10))) "No reasoning provided";
             mkResult (Some "x") (1 - 1)%Q (Qmin 1 (Qmax 0 (-2 # 10))) "low"].
Proof. reflexivity. Qed.

End BatchClaims.

(** ** Claims about the streaming endpoint *)
Module EndpointFacts.
Import Exn Str Arr Endpoint Events ArrFacts.
Local Open Scope string_scope.

Lemma written_suspend p closeAt c : written (suspend p closeAt c) = written c.
Proof. unfold suspend. destruct closeAt as [q|]; [destruct (q =? p)%nat|]; reflexivity. Qed.

Lemma flags_suspend p closeAt c :
  clientDisconnected (suspend p closeAt c) = clientDisconnected c
  /\ aborted (suspend p closeAt c) = aborted c.
Proof. unfold suspend. destruct closeAt as [q|]; [destruct (q =? p)%nat|]; split; reflexivity. Qed.

Lemma destroyed_suspend p closeAt c :
  destroyed (suspend p closeAt c)
  = destroyed c || match closeAt with Some k => (k =? p)%nat | None => false end.
Proof.
  unfold suspend. destruct closeAt as [q|]; [destruct (q =? p)%nat|]; cbn;
    now rewrite ?orb_true_r, ?orb_false_r.
Qed.

Lemma no_content_after_disconnect chunks :
  filter snd (map asContent chunks) = [].
Proof. induction chunks as [|ch chunks IH]; [reflexivity | exact IH]. Qed.

(** The word loop, entered at word [i] with the points up to [i] behind
    it: the sink writes the chunks of the words before the disconnect and
    of no other, while the loop itself runs to the last word, the flag and
    the signal being what they were. *)
Lemma streamWords_written words i closeAt c :
  clientDisconnected c = false -> aborted c = false ->
  destroyed c = match closeAt with Some k => (k <=? i)%nat | None => false end ->
  written (streamWords i words closeAt c)
  = (written c
       ++ map asContent
            (firstn match closeAt with Some k => (k - i)%nat | None => List.length words end
                    (mapi_from i chunk words)))%list
  /\ clientDisconnected (streamWords i words closeAt c) = false
  /\ aborted (streamWords i words closeAt c) = false
  /\ destroyed (streamWords i words closeAt c)
     = match closeAt with Some k => (k <=? i + List.length words)%nat | None => false end.
Proof.
  revert i c; induction words as [|w ws IH]; intros i c F A D.
  - cbn [streamWords mapi_from List.length]. rewrite firstn_nil, app_nil_r, Nat.add_0_r.
    repeat split; assumption.
  - cbn [streamWords]. rewrite A.
    set (c1 := onChunk (if (i =? 0)%nat then w else " " ++ w) c).
    assert (F1 : clientDisconnected c1 = false)
      by (unfold c1, onChunk; rewrite F; destruct (destroyed c); exact F).
    assert (A1 : aborted c1 = false)
      by (unfold c1, onChunk; rewrite F; destruct (destroyed c); exact A).
    assert (D1 : destroyed c1 = destroyed c)
      by (unfold c1, onChunk; rewrite F; destruct (destroyed c) eqn:E; cbn; congruence).
    assert (W1 : written c1
                 = if destroyed c then written c
                   else (written c ++ [asContent (chunk i w)])%list).
    { unfold c1, onChunk. rewrite F. destruct (destroyed c) eqn:E; cbn; [reflexivity|].
      now rewrite E. }
    destruct (flags_suspend (S i) closeAt c1) as [F2 A2].
    destruct (IH (S i) (suspend (S i) closeAt c1)) as (W & F' & A' & D').
    + congruence.
    + congruence.
    + rewrite destroyed_suspend, D1, D. destruct closeAt as [k|]; [|reflexivity].
      destruct (Nat.leb_spec k i), (Nat.eqb_spec k (S i)), (Nat.leb_spec k (S i));
        cbn; try reflexivity; lia.
    + split; [|split; [exact F' | split; [exact A'|]]].
      * rewrite W, written_suspend, W1, D. cbn [mapi_from List.length].
        destruct closeAt as [k|].
        -- destruct (Nat.leb_spec k i) as [L|L].
           ++ replace (k - S i)%nat with 0%nat by lia.
              replace (k - i)%nat with 0%nat by lia. reflexivity.
           ++ replace (k - i)%nat with (S (k - S i)) by lia.
              cbn [firstn map]. now rewrite <- app_assoc.
        -- cbn [firstn map]. now rewrite <- app_assoc.
      * rewrite D'. cbn [List.length]. destruct closeAt as [k|]; [|reflexivity].
        now rewrite Nat.add_succ_r.
Qed.

(** A request on a corpus with traces that the chat model answers. *)
Lemma analyze_answered response reasoning closeAt :
  let chunks := mapi chunk (split " " response) in
  let n := List.length (split " " response) in
  let gone := match closeAt with Some k => (k <=? n)%nat | None => false end in
  let c := analyze false (Returns response) reasoning closeAt in
  written c
  = ((heartbeat, false)
       :: map asContent match closeAt with Some k => firstn k chunks | None => chunks end
       ++ [(streaming_complete, gone); (reasoning_start, gone);
           (complete (if gone then [] else reasoning),
            match closeAt with Some k => (k <=? S n)%nat | None => false end)])%list
  /\ clientDisconnected c = false /\ aborted c = false.
Proof.
  intros chunks n gone c. subst c. unfold analyze, analyzeDatasetGapsStreaming.
  set (c0 := suspend 0 closeAt (write heartbeat (mkConnection false false false []))).
  assert (F0 : clientDisconnected c0 = false) by apply flags_suspend.
  assert (A0 : aborted c0 = false) by apply flags_suspend.
  assert (W0 : written c0 = [(heartbeat, false)]) by apply written_suspend.
  assert (D0 : destroyed c0
               = match closeAt with Some k => (k <=? 0)%nat | None => false end).
  { unfold c0. rewrite destroyed_suspend. destruct closeAt as [[|k]|]; reflexivity. }
  rewrite A0.
  destruct (streamWords_written (split " " response) 0 closeAt c0 F0 A0 D0)
    as (W & F & A & D).
  set (c1 := streamWords 0 (split " " response) closeAt c0) in *.
  fold n in W, D. cbn [Nat.add] in D. fold gone in D.
  assert (C : match closeAt with
              | Some k => firstn (k - 0) (mapi_from 0 chunk (split " " response))
              | None => firstn n (mapi_from 0 chunk (split " " response))
              end
              = match closeAt with Some k => firstn k chunks | None => chunks end).
  { destruct closeAt as [k|]; [now rewrite Nat.sub_0_r|].
    apply firstn_all2. unfold chunks, mapi, n. rewrite mapi_from_length. apply Nat.le_refl. }
  assert (W' : written c1
               = ((heartbeat, false)
                    :: map asContent match closeAt with
                                     | Some k => firstn k chunks
                                     | None => chunks
                                     end)%list).
  { rewrite W, W0. cbn [app]. f_equal. f_equal. rewrite <- C.
    destruct closeAt; reflexivity. }
  assert (L : match closeAt with Some k => (k <=? S n)%nat | None => false end
              = gone || match closeAt with Some k => (k =? S n)%nat | None => false end).
  { subst gone. destruct closeAt as [k|]; [|reflexivity].
    destruct (Nat.leb_spec k n), (Nat.eqb_spec k (S n)), (Nat.leb_spec k (S n));
      cbn; try reflexivity; lia. }
  rewrite L.
  cbn [write clientDisconnected aborted destroyed written]. rewrite F, D. cbn [negb andb].
  destruct gone eqn:G; cbn [negb orb].
  - cbn [write clientDisconnected aborted destroyed written]. rewrite W', D, F, A.
    split; [|split; reflexivity].
    cbn [app]. rewrite <- !app_assoc. reflexivity.
  - fold n. set (c2 := write reasoning_start (write streaming_complete c1)).
    destruct (flags_suspend (S n) closeAt c2) as [F3 A3].
    assert (F2 : clientDisconnected c2 = false) by exact F.
    assert (A2 : aborted c2 = false) by exact A.
    assert (D2 : destroyed c2 = false) by exact D.
    assert (W2 : written c2
                 = (written c1 ++ [(streaming_complete, false); (reasoning_start, false)])%list).
    { unfold c2, write. cbn [written destroyed]. now rewrite D, <- app_assoc. }
    rewrite A3, A2. unfold write at 1 2 3.
    cbn [clientDisconnected aborted destroyed written].
    rewrite F3, A3, written_suspend, destroyed_suspend, F2, A2, D2, W2, W'.
    split; [|split; reflexivity].
    cbn [app orb]. rewrite <- !app_assoc. reflexivity.
Qed.

(** A request on a corpus with traces whose chat request is rejected. *)
Lemma analyze_failed e reasoning closeAt :
  let c := analyze false (Throws e) reasoning closeAt in
  written c
  = [(heartbeat, false);
     (error ("Analysis failed: " ++ e),
      match closeAt with Some k => (k =? 0)%nat | None => false end)]
  /\ clientDisconnected c = false /\ aborted c = false.
Proof.
  cbv zeta. unfold analyze, analyzeDatasetGapsStreaming.
  destruct closeAt as [[|k]|]; repeat split; reflexivity.
Qed.

(** A request on a corpus without traces: the analysis returns at once,
    and the reasoning is the one point at which a disconnect can show. *)
Lemma analyze_no_traces completion reasoning closeAt :
  let c := analyze true completion reasoning closeAt in
  exists flag,
    written c
    = [(heartbeat, false); (streaming_complete, false); (reasoning_start, false);
       (complete reasoning, flag)]
    /\ (closeAt = None -> flag = false)
    /\ clientDisconnected c = false /\ aborted c = false.
Proof.
  cbv zeta. unfold analyze, analyzeDatasetGapsStreaming.
  cbn [write clientDisconnected aborted destroyed written negb andb app].
  unfold suspend. destruct closeAt as [k|].
  - match goal with |- context [(k =? ?p)%nat] => destruct (k =? p)%nat end;
      eexists; (split; [reflexivity|]); repeat split; discriminate.
  - eexists. repeat split.
Qed.

(** The handler ends with a write, whatever happened before: the last
    event is written with the response as the request leaves it. *)
Lemma analyze_ends_with_write noTraces completion reasoning closeAt :
  let c := analyze noTraces completion reasoning closeAt in
  exists earlier e, written c = (earlier ++ [(e, destroyed c)])%list.
Proof.
  cbv zeta. unfold analyze.
  destruct (analyzeDatasetGapsStreaming _ _ _ _) as [[response|e] c].
  - match goal with |- context [if ?b then _ else _] => destruct b end;
      cbn [write written destroyed]; eauto.
  - cbn [write written destroyed]. eauto.
Qed.

(** So whenever the client disconnects while the handler runs, an event is
    written after it. *)
Lemma disconnect_is_followed_by_a_write noTraces completion reasoning closeAt :
  let c := analyze noTraces completion reasoning closeAt in
  destroyed c = true -> exists e, In e (writtenAfterDisconnect c).
Proof.
  cbv zeta. intros H.
  destruct (analyze_ends_with_write noTraces completion reasoning closeAt)
    as (earlier & e & E).
  exists e. unfold writtenAfterDisconnect. rewrite E, H.
  rewrite filter_app, map_app. apply in_or_app. right. left. reflexivity.
Qed.

End EndpointFacts.

Section EndpointClaims.
Import Exn Str Arr Endpoint Events EndpointFacts.
Local Open Scope string_scope.

(** C2, on the program.  The client disconnects during the delay after the
    first word: the content events stop, and yet [streaming_complete],
    [reasoning_start] and [complete] are given to [res.write] after the
    client has gone, while the flag is not set and the signal not aborted.
    The same three events follow a disconnect while the analysis request
    is in flight, and in general a disconnect at any point up to the end of
    the word loop, whatever the answer; the reasoning is skipped then.  No
    disconnect makes the handler write an [error] event. *)
Theorem analyze_writes_after_disconnect :
  let duringStreaming := analyze false (Returns "one two three") [] (Some 1%nat) in
  let inFlight := analyze false (Returns "one two three") [] (Some 0%nat) in
  let undisturbed := analyze false (Returns "one two") [] None in
  written duringStreaming
    = [(heartbeat, false); (content "one", false);
       (streaming_complete, true); (reasoning_start, true); (complete [], true)]
  /\ writtenAfterDisconnect duringStreaming
    = [streaming_complete; reasoning_start; complete []]
  /\ clientDisconnected duringStreaming = false
  /\ aborted duringStreaming = false
  /\ written inFlight
    = [(heartbeat, false);
       (streaming_complete, true); (reasoning_start, true); (complete [], true)]
  /\ written undisturbed
    = [(heartbeat, false); (content "one", false); (content " two", false);
       (streaming_complete, false); (reasoning_start, false); (complete [], false)]
  /\ (forall (response : string) (reasoning : list Reasoning.TaggedTrace) (k : nat),
         (k <= List.length (split " " response))%nat ->
         let c := analyze false (Returns response) reasoning (Some k) in
         writtenAfterDisconnect c = [streaming_complete; reasoning_start; complete []]
         /\ clientDisconnected c = false /\ aborted c = false)
  /\ (forall (noTraces : bool) (response : string)
             (reasoning : list Reasoning.TaggedTrace) (closeAt : option nat),
         Forall (fun event => isError (fst event) = false)
                (written (analyze noTraces (Returns response) reasoning closeAt))).
Proof.
  cbv zeta. do 6 (split; [vm_compute; reflexivity|]). split.
  - intros response reasoning k K.
    destruct (analyze_answered response reasoning (Some k)) as (W & F & A).
    split; [|split; assumption].
    apply Nat.leb_le in K. unfold writtenAfterDisconnect. rewrite W, K.
    cbn [filter snd]. rewrite filter_app, no_content_after_disconnect.
    cbn [filter snd app]. replace (k <=? S _)%nat with true; [reflexivity|].
    symmetry. apply Nat.leb_le. apply Nat.leb_le in K. lia.
  - intros [|] response reasoning closeAt.
    + destruct (analyze_no_traces (Returns response) reasoning closeAt) as (flag & W & _).
      rewrite W. repeat constructor.
    + destruct (analyze_answered response reasoning closeAt) as (W & _).
      rewrite W. constructor; [reflexivity|]. apply Forall_app. split.
      * apply Forall_forall. intros p Hp. apply in_map_iff in Hp as [ch [<- _]]. reflexivity.
      * repeat constructor.
Qed.

End EndpointClaims.

(** * Further properties of the code *)

(** ** More about the shuffle and the sample *)
Module SampleFacts.
Import Number Arr Sampler ArrFacts SamplerFacts.

Lemma set_nth_map {A B} (f : A -> B) i x (a : list A) :
  set_nth i (f x) (map f a) = map f (set_nth i x a).
Proof.
  revert i; induction a as [|h t IH]; intros [|i]; cbn; try reflexivity.
  now rewrite IH.
Qed.

Lemma swap_map {A B} (f : A -> B) i j (a : list A) :
  swap i j (map f a) = map f (swap i j a).
Proof.
  unfold swap. rewrite !nth_error_map.
  destruct (nth_error a i) as [ai|], (nth_error a j) as [aj|]; cbn; try reflexivity.
  now rewrite !set_nth_map.
Qed.

Lemma shuffle_loop_map {A B} (f : A -> B) i rng (a : list A) :
  shuffle_loop i rng (map f a) = map f (shuffle_loop i rng a).
Proof.
  revert rng a; induction i as [|i IH]; intros rng a; cbn; [reflexivity|].
  destruct (seededRandom rng) as [rng' draw].
  now rewrite swap_map, IH.
Qed.

Lemma shuffleArray_map {A B} (f : A -> B) (a : list A) seed :
  shuffleArray (map f a) seed = map f (shuffleArray a seed).
Proof. unfold shuffleArray. now rewrite length_map, shuffle_loop_map. Qed.

Lemma shuffleArray_length {T} (a : list T) seed :
  List.length (shuffleArray a seed) = List.length a.
Proof. apply Permutation_length, shuffleArray_perm. Qed.

Lemma slice0_map {A B} (f : A -> B) e (a : list A) :
  slice0 e (map f a) = map f (slice0 e a).
Proof. unfold slice0. now rewrite length_map, firstn_map. Qed.

Lemma slice0_length {T} e (a : list T) :
  Z.of_nat (List.length (slice0 e a)) =
  if e <? 0 then Z.max (Z.of_nat (List.length a) + e) 0
  else Z.min e (Z.of_nat (List.length a)).
Proof.
  unfold slice0. rewrite length_firstn.
  destruct (Z.ltb_spec e 0); lia.
Qed.

Lemma slice0_all {T} e (a : list T) :
  Z.of_nat (List.length a) <= e -> slice0 e a = a.
Proof.
  intros H. unfold slice0.
  destruct (Z.ltb_spec e 0); [lia|].
  apply firstn_all2. lia.
Qed.

Lemma slice0_prefix {T} e e' (a : list T) :
  0 <= e <= e' -> exists rest, slice0 e' a = (slice0 e a ++ rest)%list.
Proof.
  intros H. rewrite !slice0_firstn by lia.
  set (n := Z.to_nat (Z.min e (Z.of_nat (List.length a)))).
  set (n' := Z.to_nat (Z.min e' (Z.of_nat (List.length a)))).
  assert (Hn : (n <= n')%nat) by (unfold n, n'; lia).
  exists (skipn n (firstn n' a)).
  rewrite <- (firstn_skipn n (firstn n' a)) at 1.
  now rewrite firstn_firstn, Nat.min_l by exact Hn.
Qed.

Lemma indexes_of_shuffle traces seed :
  map originalIndex (shuffleArray (tracesWithIndexes traces) seed)
  = shuffleArray (seq 1 (List.length traces)) seed.
Proof. now rewrite <- shuffleArray_map, tracesWithIndexes_indexes. Qed.

End SampleFacts.

Section SampleProperties.
Import Number Arr Sampler NumberFacts ArrFacts SamplerFacts RefinementFacts SampleFacts.
Local Open Scope string_scope.

(** X: the size of the sample. *)
(** X1.  The sample has [min(maxCount, len)] elements for a bound that
    is not negative, none for the bound 0, and [max(len + maxCount, 0)]
    for a negative bound, where [slice] counts from the end. *)
Theorem sample_size :
  forall (traces : list string) (maxCount : Z),
    Z.of_nat (List.length (selectedTraces traces maxCount)) =
    if (maxCount <? 0)%Z then Z.max (Z.of_nat (List.length traces) + maxCount) 0
    else Z.min maxCount (Z.of_nat (List.length traces)).
Proof.
  intros traces maxCount. unfold selectedTraces.
  rewrite slice0_length, shuffleArray_length, tracesWithIndexes_length.
  destruct (Z.ltb_spec maxCount 0), (Z.ltb_spec (Z.min maxCount (Z.of_nat (List.length traces))) 0);
    lia.
Qed.

(** X2.  For bounds [0 <= smaller <= larger] the sample for the smaller
    bound is the beginning of the sample for the larger: raising the
    bound adds traces at the end, and neither drops nor reorders any. *)
Theorem sample_grows_with_bound :
  forall (traces : list string) (smaller larger : Z),
    0 <= smaller <= larger ->
    exists added,
      selectedTraces traces larger = (selectedTraces traces smaller ++ added)%list.
Proof.
  intros traces smaller larger H. unfold selectedTraces.
  apply slice0_prefix. lia.
Qed.

Lemma sample_grows_with_bound_witness :
  0 <= 1 <= 2 /\
  exists added,
    selectedTraces ["x"; "y"; "z"] 2 = (selectedTraces ["x"; "y"; "z"] 1 ++ added)%list.
Proof. split; [lia | apply (sample_grows_with_bound ["x"; "y"; "z"] 1 2); lia]. Defined.

(** X3.  With a bound of at least the number of traces the sample is a
    rearrangement of the whole corpus: every trace is there once, with
    its line number. *)
Theorem whole_corpus_sample :
  forall (traces : list string) (maxCount : Z),
    Z.of_nat (List.length traces) <= maxCount ->
    Permutation (selectedTraces traces maxCount) (tracesWithIndexes traces)
    /\ Permutation (map trace (selectedTraces traces maxCount)) traces
    /\ Permutation (map originalIndex (selectedTraces traces maxCount))
                   (seq 1 (List.length traces)).
Proof.
  intros traces maxCount H.
  assert (P : Permutation (selectedTraces traces maxCount) (tracesWithIndexes traces)).
  { unfold selectedTraces. rewrite slice0_all.
    - apply shuffleArray_perm.
    - rewrite shuffleArray_length, tracesWithIndexes_length. lia. }
  split; [exact P|]. split.
  - rewrite (Permutation_map trace P).
    replace (map trace (tracesWithIndexes traces)) with traces; [reflexivity|].
    apply nth_error_ext; intros k.
    rewrite nth_error_map, tracesWithIndexes_nth.
    now destruct (nth_error traces k).
  - rewrite (Permutation_map originalIndex P). now rewrite tracesWithIndexes_indexes.
Qed.

Lemma whole_corpus_sample_witness :
  Z.of_nat (List.length ["x"; "y"; "z"]) <= 250 /\
  Permutation (map trace (selectedTraces ["x"; "y"; "z"] 250)) ["x"; "y"; "z"].
Proof.
  split; [cbn; lia|].
  apply (whole_corpus_sample ["x"; "y"; "z"] 250). cbn; lia.
Defined.

(** X4.  Which lines are sampled, and in which order, depends only on
    the number of traces and on the sum of their lengths: two corpora
    that agree on both give the same sequence of line numbers. *)
Theorem sample_positions_from_lengths :
  forall (traces traces' : list string) (maxCount : Z),
    List.length traces = List.length traces' ->
    list_sum (map String.length traces) = list_sum (map String.length traces') ->
    map originalIndex (selectedTraces traces maxCount)
    = map originalIndex (selectedTraces traces' maxCount).
Proof.
  intros traces traces' maxCount Hlen Hsum. unfold selectedTraces.
  rewrite <- !slice0_map, !indexes_of_shuffle.
  unfold contentSeed. rewrite !length_join_empty, Hlen, Hsum. reflexivity.
Qed.

Lemma sample_positions_from_lengths_witness :
  List.length ["ab"; "c"; "def"] = List.length ["x"; "yzu"; "vw"] /\
  map originalIndex (selectedTraces ["ab"; "c"; "def"] 2)
  = map originalIndex (selectedTraces ["x"; "yzu"; "vw"] 2).
Proof.
  split; [reflexivity|].
  apply (sample_positions_from_lengths ["ab"; "c"; "def"] ["x"; "yzu"; "vw"] 2); reflexivity.
Defined.

(** X5.  For a corpus of at most 250 traces and a bound of at least its
    size, the fallback path of [selectRelevantTraces] (no
    [preSelectedTraces], or an empty array) computes the very sample
    [analyzeDatasetGapsStreaming] computes. *)
Theorem fallback_sample_is_primary_sample :
  forall (traces : list string) (maxCount : Z),
    (List.length traces <= 250)%nat ->
    Z.of_nat (List.length traces) <= maxCount ->
    Reasoning.tracesForReasoning traces None = selectedTraces traces maxCount
    /\ Reasoning.tracesForReasoning traces (Some []) = selectedTraces traces maxCount.
Proof.
  intros traces maxCount H250 Hmax.
  assert (E : slice0 250 traces = traces) by (apply slice0_all; lia).
  assert (F : selectedTraces traces maxCount
              = shuffleArray (tracesWithIndexes traces) (contentSeed traces)).
  { unfold selectedTraces. apply slice0_all.
    rewrite shuffleArray_length, tracesWithIndexes_length. lia. }
  unfold Reasoning.tracesForReasoning. rewrite E, F. split; reflexivity.
Qed.

Lemma fallback_sample_is_primary_sample_witness :
  (List.length ["x"; "y"; "z"] <= 250)%nat /\
  Reasoning.tracesForReasoning ["x"; "y"; "z"] None = selectedTraces ["x"; "y"; "z"] 250.
Proof.
  split; [cbn; lia|].
  apply (fallback_sample_is_primary_sample ["x"; "y"; "z"] 250); cbn; lia.
Defined.

(** X6.  For a seed that is not negative and an array of fewer than
    [2^32] elements, the state of the generator stays in [0 .. 233279],
    the product [seededRandom() * (i + 1)] is a finite number that is
    not negative, and the index [Math.floor] makes of it lies in [0 ..
    i]: the loop never reads or writes outside the array. *)
Theorem shuffle_stays_in_bounds :
  forall (T : Type) (array : list T) (seed : Z),
    0 <= seed -> Z.of_nat (List.length array) < 2 ^ 32 ->
    shuffle_loop_strict (List.length array - 1) seed array = Some (shuffleArray array seed)
    /\ forall (rng : Z) (i : nat),
         0 <= rng -> (i < List.length array)%nat ->
         0 <= fst (seededRandom rng) < 233280
         /\ nonneg_finite (mul (snd (seededRandom rng)) (of_int (Z.of_nat i + 1)))
         /\ (pick (snd (seededRandom rng)) i <= i)%nat.
Proof.
  intros T array seed Hs Hl. split; [now apply shuffleArray_strict|].
  intros rng i Hr Hi. cbn [seededRandom fst snd].
  pose proof (next_state_range rng Hr) as Hn.
  pose proof (scaled_draw_floor (Z.rem (rng * 9301 + 49297) 233280) (Z.of_nat i + 1) Hn
                ltac:(lia)) as (F & L & U).
  split; [exact Hn|]. split; [exact F|]. unfold pick, scaled. lia.
Qed.

Lemma shuffle_stays_in_bounds_witness :
  0 <= 3 /\
  shuffle_loop_strict (List.length ["x"; "y"; "z"] - 1) 3 ["x"; "y"; "z"]
  = Some (shuffleArray ["x"; "y"; "z"] 3).
Proof.
  split; [lia|].
  apply (shuffle_stays_in_bounds string ["x"; "y"; "z"] 3); [lia | cbn; lia].
Defined.

End SampleProperties.

(** ** Lines, split and joined *)
Module LinesFacts.
Import Str Lines.
Local Open Scope string_scope.

Lemma split_nonempty sep s : split sep s <> [].
Proof.
  destruct s as [|c s]; cbn; [discriminate|].
  destruct (Ascii.eqb c sep); [discriminate|].
  destruct (split sep s); discriminate.
Qed.

(** Joining what [split] returned gives the text back. *)
Lemma join_split sep s : join (String sep "") (split sep s) = s.
Proof.
  unfold join. induction s as [|c s IH]; [reflexivity|].
  cbn [split]. pose proof (split_nonempty sep s) as NE.
  destruct (split sep s) as [|w ws]; [contradiction|].
  destruct (Ascii.eqb_spec c sep) as [->|N].
  - change (String.concat (String sep "") ("" :: w :: ws))
      with (String sep (String.concat (String sep "") (w :: ws))).
    now rewrite IH.
  - destruct ws as [|w' ws].
    + cbn in *. now rewrite IH.
    + change (String.concat (String sep "") (String c w :: w' :: ws))
        with (String c (String.concat (String sep "") (w :: w' :: ws))).
      now rewrite IH.
Qed.

Lemma split_single_line s :
  single_line s = true -> split (ascii_of_nat 10) s = [s].
Proof.
  induction s as [|c s IH]; [reflexivity|]. cbn [single_line split].
  intros H. apply andb_true_iff in H as [Hc Hs].
  apply negb_true_iff in Hc. rewrite Hc, (IH Hs). reflexivity.
Qed.

Lemma split_line_app s rest :
  single_line s = true ->
  split (ascii_of_nat 10) (s ++ newline ++ rest) = s :: split (ascii_of_nat 10) rest.
Proof.
  induction s as [|c s IH]; intros H.
  - cbn. reflexivity.
  - cbn [single_line] in H. apply andb_true_iff in H as [Hc Hs].
    apply negb_true_iff in Hc.
    change (String c s ++ newline ++ rest) with (String c (s ++ newline ++ rest)).
    cbn [split]. rewrite Hc, (IH Hs). reflexivity.
Qed.

(** Splitting what was joined gives the lines back, when there is a line
    and no line holds a line feed. *)
Lemma split_join lines :
  lines <> [] -> Forall (fun l => single_line l = true) lines ->
  split (ascii_of_nat 10) (join newline lines) = lines.
Proof.
  unfold join. induction lines as [|l ls IH]; [congruence|].
  intros _ H. inversion H as [|? ? Hl Hls]; subst.
  destruct ls as [|l' ls].
  - cbn. now apply split_single_line.
  - change (String.concat newline (l :: l' :: ls))
      with (l ++ newline ++ String.concat newline (l' :: ls)).
    rewrite split_line_app by exact Hl.
    f_equal. apply IH; [discriminate | exact Hls].
Qed.

Lemma split_lines_single s :
  Forall (fun l => single_line l = true) (split (ascii_of_nat 10) s).
Proof.
  induction s as [|c s IH]; [repeat constructor|].
  cbn [split]. destruct (Ascii.eqb c (ascii_of_nat 10)) eqn:E.
  - constructor; [reflexivity | exact IH].
  - destruct (split (ascii_of_nat 10) s) as [|w ws].
    + repeat constructor. cbn [single_line]. now rewrite E.
    + inversion IH; subst. constructor; [|assumption].
      cbn [single_line]. rewrite E. assumption.
Qed.

Lemma nonBlankLines_traces content :
  Forall (fun t => is_trace t = true) (nonBlankLines content).
Proof.
  unfold nonBlankLines. apply Forall_forall. intros t Ht.
  apply filter_In in Ht as [Hin Hb].
  unfold is_trace. rewrite Hb, andb_true_r.
  exact (proj1 (Forall_forall _ _) (split_lines_single content) t Hin).
Qed.

Lemma filter_all {A} (p : A -> bool) l :
  Forall (fun x => p x = true) l -> filter p l = l.
Proof.
  induction 1 as [|x l Hx _ IH]; cbn; [reflexivity|]. now rewrite Hx, IH.
Qed.

Lemma nonBlankLines_join traces :
  Forall (fun t => is_trace t = true) traces ->
  nonBlankLines (join newline traces) = traces.
Proof.
  intros H. destruct traces as [|t ts]; [reflexivity|].
  unfold nonBlankLines. rewrite split_join.
  - apply filter_all. eapply Forall_impl; [|exact H].
    intros a Ha. unfold is_trace in Ha. now apply andb_true_iff in Ha as [_ ->].
  - discriminate.
  - eapply Forall_impl; [|exact H].
    intros a Ha. unfold is_trace in Ha. now apply andb_true_iff in Ha as [-> _].
Qed.

Lemma nonBlankLines_empty content :
  is_empty content = true -> nonBlankLines content = [].
Proof. destruct content; [reflexivity | discriminate]. Qed.

End LinesFacts.

Section TraceSourceProperties.
Import Str Lines LinesFacts Storage Routes.
Local Open Scope string_scope.

(** X7.  [POST /api/analyze] with a non-empty [fallbackTraces] whose
    entries are non-blank and hold no line feed runs on exactly those
    traces, in their order, whatever content is stored; with no
    [fallbackTraces], or an empty array, it runs on the non-blank lines
    of the stored content. *)
Theorem fallback_traces_round_trip :
  forall (analysis : AnalysisResult.t) (fallbackTraces : list string),
    fallbackTraces <> [] ->
    Forall (fun t => is_trace t = true) fallbackTraces ->
    nonBlankLines (tracesContent analysis (Some fallbackTraces)) = fallbackTraces
    /\ nonBlankLines (tracesContent analysis None)
       = nonBlankLines (AnalysisResult.langsmithContent analysis)
    /\ nonBlankLines (tracesContent analysis (Some []))
       = nonBlankLines (AnalysisResult.langsmithContent analysis).
Proof.
  intros analysis fallbackTraces NE H. split; [|split].
  - assert (E : tracesContent analysis (Some fallbackTraces) = join newline fallbackTraces).
    { unfold tracesContent.
      destruct (is_empty (AnalysisResult.langsmithContent analysis)); [reflexivity|].
      destruct fallbackTraces; [contradiction | reflexivity]. }
    rewrite E. now apply nonBlankLines_join.
  - reflexivity.
  - unfold tracesContent.
    destruct (is_empty (AnalysisResult.langsmithContent analysis)) eqn:E; [|reflexivity].
    now rewrite (nonBlankLines_empty _ E).
Qed.

Lemma fallback_traces_round_trip_witness :
  ["one"; " two "] <> [] /\
  nonBlankLines
    (tracesContent (AnalysisResult.mk 1 "stored" JNull JNull 0) (Some ["one"; " two "]))
  = ["one"; " two "].
Proof.
  split; [discriminate|].
  apply (fallback_traces_round_trip (AnalysisResult.mk 1 "stored" JNull JNull 0)
                                    ["one"; " two "]);
    [discriminate | repeat constructor].
Defined.

(** X8.  When [fallbackTraces] is the cache of the client, the non-blank
    lines of the stored content, [/api/analyze] and [/api/batch-job]
    (with the stored analysis or without it) work on one and the same
    list of traces, the one of the upload; splitting the joined lines
    again changes nothing. *)
Theorem endpoints_agree_on_cached_traces :
  forall (analysis : AnalysisResult.t),
    let cache := nonBlankLines (AnalysisResult.langsmithContent analysis) in
    nonBlankLines (tracesContent analysis (Some cache)) = cache
    /\ batchTraces (Some analysis) (Some cache) = cache
    /\ batchTraces None (Some cache) = cache
    /\ nonBlankLines (join newline cache) = cache.
Proof.
  intros analysis cache.
  assert (J : nonBlankLines (join newline cache) = cache)
    by apply nonBlankLines_join, nonBlankLines_traces.
  split; [|split; [|split]].
  - unfold tracesContent.
    destruct (is_empty (AnalysisResult.langsmithContent analysis)) eqn:E; [exact J|].
    destruct cache as [|t ts] eqn:C; [exact C | exact J].
  - unfold batchTraces.
    destruct (is_empty (AnalysisResult.langsmithContent analysis)) eqn:E.
    + reflexivity.
    + fold cache. destruct cache; reflexivity.
  - reflexivity.
  - exact J.
Qed.

End TraceSourceProperties.

(** ** The event stream *)
Module StreamFacts.
Import Exn Str Arr Endpoint Events ArrFacts StrFacts LinesFacts.
Local Open Scope string_scope.

Lemma append_empty_r (s : string) : s ++ "" = s.
Proof. induction s as [|c s IH]; cbn; [reflexivity | now rewrite IH]. Qed.

Lemma received_app a b : received (a ++ b) = received a ++ received b.
Proof.
  induction a as [|e a IH]; [reflexivity|].
  destruct e; cbn; rewrite ?IH, ?append_assoc; reflexivity.
Qed.

Lemma received_contents chunks : received (map fst (map asContent chunks)) = flat chunks.
Proof. induction chunks as [|c cs IH]; cbn; [reflexivity | now rewrite IH]. Qed.

Lemma flat_later_chunks k words :
  flat (mapi_from (S k) chunk words) = flat (map (append " ") words).
Proof.
  revert k; induction words as [|w ws IH]; intros k; cbn [mapi_from flat map]; [reflexivity|].
  now rewrite IH.
Qed.

Lemma join_spaces w words : join " " (w :: words) = w ++ flat (map (append " ") words).
Proof.
  unfold join. revert w; induction words as [|w' ws IH]; intros w.
  - cbn. now rewrite append_empty_r.
  - change (String.concat " " (w :: w' :: ws)) with (w ++ " " ++ String.concat " " (w' :: ws)).
    rewrite IH. cbn [map flat]. now rewrite append_assoc.
Qed.

Lemma flat_chunks response : flat (mapi chunk (split " " response)) = response.
Proof.
  rewrite <- (join_split " " response) at 2.
  pose proof (split_nonempty " " response) as NE.
  destruct (split " " response) as [|w ws]; [contradiction|].
  unfold mapi. cbn [mapi_from flat]. rewrite flat_later_chunks, join_spaces. reflexivity.
Qed.

Lemma flat_firstn k parts : exists rest, flat parts = flat (firstn k parts) ++ rest.
Proof.
  revert k; induction parts as [|p ps IH]; intros [|k]; cbn.
  - now exists "".
  - now exists "".
  - now exists (p ++ flat ps).
  - destruct (IH k) as [rest E]. exists rest. now rewrite E, append_assoc.
Qed.

End StreamFacts.

Section StreamProperties.
Import Exn Str Arr Endpoint Events ArrFacts StrFacts LinesFacts EndpointFacts StreamFacts.
Local Open Scope string_scope.

(** X9.  When the client stays and the chat model answers, the events
    written are the heartbeat, one [content] event for each word of the
    answer as [split(' ')] cuts it, [streaming_complete],
    [reasoning_start] and [complete] with the result of the reasoning;
    the chunks put together, as the client adds them up, are the answer. *)
Theorem streamed_answer_is_complete :
  forall (response : string) (reasoning : list Reasoning.TaggedTrace),
    let c := analyze false (Returns response) reasoning None in
    written c
    = ((heartbeat, false)
         :: map asContent (mapi chunk (split " " response))
         ++ [(streaming_complete, false); (reasoning_start, false);
             (complete reasoning, false)])%list
    /\ received (map fst (written c)) = response
    /\ flat (mapi chunk (split " " response)) = response.
Proof.
  intros response reasoning c.
  destruct (analyze_answered response reasoning None) as [W _]. cbv zeta in W. fold c in W.
  split; [exact W|]. split; [|apply flat_chunks].
  rewrite W. cbn [map received]. rewrite map_app, received_app, received_contents.
  cbn. rewrite append_empty_r. apply flat_chunks.
Qed.

(** X10.  A client that disconnects at point [k] has been sent the chunks
    of the first [k] words and no other: every [content] event was given
    to [res.write] while the response was still there, and what the client
    has added up is the beginning of the answer these chunks make.  A
    failed analysis and an empty corpus write no content at all. *)
Theorem content_stops_at_disconnect :
  forall (noTraces : bool) (completion : outcome string)
         (reasoning : list Reasoning.TaggedTrace) (closeAt : option nat),
    let c := analyze noTraces completion reasoning closeAt in
    Forall (fun event => isContent (fst event) = true -> snd event = false) (written c)
    /\ match completion with
       | Returns response =>
           if noTraces then received (map fst (written c)) = ""
           else received (map fst (written c))
                = flat match closeAt with
                       | Some k => firstn k (mapi chunk (split " " response))
                       | None => mapi chunk (split " " response)
                       end
                /\ exists rest, response = received (map fst (written c)) ++ rest
       | Throws _ => received (map fst (written c)) = ""
       end.
Proof.
  intros noTraces completion reasoning closeAt c. subst c. destruct noTraces.
  - destruct (analyze_no_traces completion reasoning closeAt) as (flag & W & _).
    rewrite W. split; [repeat constructor; cbn; discriminate|].
    destruct completion; reflexivity.
  - destruct completion as [response|e].
    + destruct (analyze_answered response reasoning closeAt) as [W _]. cbv zeta in W.
      rewrite W. split.
      * constructor; [cbn; discriminate|]. apply Forall_app. split.
        -- apply Forall_forall. intros p Hp. apply in_map_iff in Hp as [ch [<- _]].
           reflexivity.
        -- repeat constructor; cbn; discriminate.
      * cbn [map received]. rewrite map_app, received_app, received_contents.
        cbn [map received fst]. rewrite append_empty_r. split; [reflexivity|].
        destruct closeAt as [k|].
        -- destruct (flat_firstn k (mapi chunk (split " " response))) as [rest E].
           exists rest. rewrite <- E. symmetry. apply flat_chunks.
        -- exists "". rewrite append_empty_r. symmetry. apply flat_chunks.
    + destruct (analyze_failed e reasoning closeAt) as [W _]. cbv zeta in W.
      rewrite W. split; [repeat constructor; cbn; discriminate | reflexivity].
Qed.

(** X11.  Every request that reaches the stream writes the heartbeat
    first and one terminal event, last.  It is [error], with the message
    [Analysis failed: ] and what the chat request was rejected with, when
    the corpus is not empty and the chat request was rejected, and
    [complete] otherwise.  A disconnect never changes which of the two it
    is: one that comes before the word loop ends empties [tracesWithTags],
    the reasoning being skipped, and a later one leaves the result of the
    reasoning in the event. *)
Theorem one_terminal_event :
  forall (noTraces : bool) (completion : outcome string)
         (reasoning : list Reasoning.TaggedTrace) (closeAt : option nat),
    let c := analyze noTraces completion reasoning closeAt in
    let last :=
      if noTraces then complete reasoning
      else match completion with
           | Throws e => error ("Analysis failed: " ++ e)
           | Returns response =>
               complete match closeAt with
                        | Some k =>
                            if (k <=? List.length (split " " response))%nat then []
                            else reasoning
                        | None => reasoning
                        end
           end in
    exists middle flag,
      written c = ((heartbeat, false) :: middle ++ [(last, flag)])%list
      /\ forallb (fun event => negb (isTerminal (fst event))) middle = true.
Proof.
  intros noTraces completion reasoning closeAt c last. subst c last. destruct noTraces.
  - destruct (analyze_no_traces completion reasoning closeAt) as (flag & W & _).
    exists [(streaming_complete, false); (reasoning_start, false)], flag.
    split; [exact W | reflexivity].
  - destruct completion as [response|e].
    + destruct (analyze_answered response reasoning closeAt) as [W _]. cbv zeta in W.
      eexists (map asContent _ ++ [(streaming_complete, _); (reasoning_start, _)])%list, _.
      split.
      * rewrite W. f_equal. rewrite <- app_assoc. cbn [app]. do 4 f_equal.
        f_equal. destruct closeAt; reflexivity.
      * rewrite forallb_app. apply andb_true_iff. split; [|reflexivity].
        apply forallb_forall. intros p Hp. apply in_map_iff in Hp as [ch [<- _]].
        reflexivity.
    + destruct (analyze_failed e reasoning closeAt) as [W _]. cbv zeta in W.
      exists [], match closeAt with Some k => (k =? 0)%nat | None => false end.
      split; [exact W | reflexivity].
Qed.

End StreamProperties.

(** ** The reasoning caller on the sample of the analysis *)
Module TaggingFacts.
Import Number Arr Sampler Exn Reasoning ArrFacts SamplerFacts ReasoningFacts.
Local Open Scope string_scope.

Lemma sample_In traces maxCount t :
  In t (selectedTraces traces maxCount) ->
  (1 <= originalIndex t <= List.length traces)%nat /\
  nth_error traces (originalIndex t - 1) = Some (Sampler.trace t).
Proof.
  intros H. apply tracesWithIndexes_In.
  unfold selectedTraces in H. apply slice0_incl in H.
  eapply Permutation_in; [apply shuffleArray_perm | exact H].
Qed.

Lemma sample_NoDup traces maxCount :
  NoDup (map originalIndex (selectedTraces traces maxCount)).
Proof.
  unfold selectedTraces, slice0. rewrite <- firstn_map.
  apply NoDup_firstn, shuffled_NoDup.
Qed.

Lemma no_sample_no_text (items : list (option Args.Item)) out :
  map_throwing (tagItem []) items = Returns out ->
  Forall (fun tagged => trace tagged = "") out.
Proof.
  revert out; induction items as [|item items IH]; intros out H; cbn in H.
  - injection H as <-. constructor.
  - destruct item as [item|]; cbn in H; [|discriminate].
    destruct (map_throwing (tagItem []) items) as [ys|e]; cbn in H; [|discriminate].
    injection H as <-. constructor; [reflexivity | now apply IH].
Qed.

Lemma map_throwing_length {A B} (f : A -> outcome B) items out :
  map_throwing f items = Returns out -> List.length out = List.length items.
Proof.
  revert out; induction items as [|x items IH]; intros out H; cbn in H.
  - now injection H as <-.
  - destruct (f x); cbn in H; [|discriminate].
    destruct (map_throwing f items) as [ys|e]; cbn in H; [|discriminate].
    injection H as <-. cbn. now rewrite (IH ys).
Qed.

Lemma empty_sample :
  tracesForReasoning [] None = [] /\ tracesForReasoning [] (Some []) = [].
Proof. split; reflexivity. Qed.

End TaggingFacts.

Section TaggingProperties.
Import Number Arr Str Sampler Exn Reasoning Endpoint.
Import ArrFacts SamplerFacts ReasoningFacts TaggingFacts.
Local Open Scope string_scope.

(** X12.  Over the sample of the analysis, every entry the reasoning
    caller returns has either empty text or the whole text of the corpus
    line whose number the model gave, not the 200 characters shown to
    the model; a line number of the sample always resolves to that line. *)
Theorem tagged_text_is_corpus_line :
  forall (traces : list string) (maxCount : Z) (items : list Args.Item),
    let sample := selectedTraces traces maxCount in
    exists out,
      processArguments sample (JSON (Args.mkArgs (Some (map Some items)))) = Returns out
      /\ Forall2 (fun item tagged =>
                    trace tagged = ""
                    \/ exists (k : nat) (q : Q),
                         Args.line_number item = Some q
                         /\ (inject_Z (Z.of_nat k) == q)%Q
                         /\ (1 <= k <= List.length traces)%nat
                         /\ nth_error traces (k - 1) = Some (trace tagged))
                 items out
      /\ forall t item,
           In t sample ->
           Args.line_number item = Some (inject_Z (Z.of_nat (originalIndex t))) ->
           tagItem sample (Some item) = Returns (mkTagged (Sampler.trace t) (tagsOf item))
           /\ nth_error traces (originalIndex t - 1) = Some (Sampler.trace t).
Proof.
  intros traces maxCount items sample.
  destruct (map_throwing_items sample items) as [out [M F]].
  exists out. split; [|split].
  - unfold processArguments. cbn [Args.selected_traces].
    destruct items as [|i items]; [cbn in M; injection M as <-; reflexivity|].
    cbn [map] in *. rewrite M. reflexivity.
  - eapply Forall2_impl; [|exact F].
    intros item tagged [_ [[t [Ht [S E]]]|[_ E]]]; [right | now left].
    unfold sameLine in S. destruct (Args.line_number item) as [q|] eqn:L; [|discriminate].
    destruct (sample_In traces maxCount t Ht) as [R N].
    exists (originalIndex t), q. rewrite E.
    split; [reflexivity|]. split; [now apply Qeq_bool_iff|]. split; assumption.
  - intros t item Ht L. split; [|apply (sample_In traces maxCount t Ht)].
    unfold tagItem, tagsOf. rewrite L.
    rewrite (find_by_index sample t (sample_NoDup traces maxCount) Ht). reflexivity.
Qed.

(** X13.  For a text with no non-blank line the endpoint streams no
    content, so that the message [ERROR: No traces found] reaches no
    event, and the reasoning model is asked all the same; every entry of
    its answer comes back with empty trace text, one for each entry. *)
Theorem empty_corpus :
  forall (DEFAULT_PROMPTS : Prompt.Prompts) (createCompletion : string -> Completion)
         (langsmithContent userQuery aiResponse : string)
         (customPrompt : option string) (chatHistory : list Prompt.ChatMessage),
    nonBlankLines langsmithContent = [] ->
    (forall completion reasoning,
        written (analyze true completion reasoning None)
        = [(heartbeat, false); (streaming_complete, false); (reasoning_start, false);
           (complete reasoning, false)])
    /\ exists tagged,
         selectRelevantTraces DEFAULT_PROMPTS createCompletion langsmithContent userQuery
           aiResponse customPrompt chatHistory false (Some []) = Returns tagged
         /\ Forall (fun entry => trace entry = "") tagged
         /\ forall items,
              createCompletion
                (reasoningRequest DEFAULT_PROMPTS langsmithContent userQuery aiResponse
                                  customPrompt chatHistory (Some []))
              = Message (Some (JSON (Args.mkArgs (Some (map Some items))))) ->
              List.length tagged = List.length items.
Proof.
  intros P createCompletion content userQuery aiResponse customPrompt chatHistory Hempty.
  split; [reflexivity|].
  unfold selectRelevantTraces. rewrite Hempty.
  destruct empty_sample as [_ ->].
  destruct (createCompletion _) as [e | [arguments|]] eqn:C.
  - exists []. repeat split; [constructor | discriminate].
  - cbn [try_catch]. unfold processArguments.
    destruct arguments as [|reasoningArgs].
    + exists []. repeat split; [constructor | discriminate].
    + destruct (Args.selected_traces reasoningArgs) as [[|i rest]|] eqn:S.
      * exists []. repeat split; [constructor|].
        intros items H. injection H as ->. cbn in S. injection S as S.
        destruct items; [reflexivity | discriminate].
      * destruct (map_throwing (tagItem []) (i :: rest)) as [out|e] eqn:M.
        -- exists out. cbn. repeat split.
           ++ eapply no_sample_no_text; exact M.
           ++ intros items H. injection H as ->. cbn in S. injection S as S.
              rewrite (map_throwing_length _ _ _ M), <- S. apply length_map.
        -- exists []. cbn. repeat split; [constructor|].
           intros items H. injection H as ->. cbn in S. injection S as S.
           rewrite <- S in M.
           destruct (map_throwing_items [] items) as [out [M' _]]. congruence.
      * exists []. repeat split; [constructor|].
        intros items H. injection H as ->. discriminate.
  - exists []. repeat split; [constructor | discriminate].
Qed.

Lemma empty_corpus_witness :
  nonBlankLines "  " = [] /\
  exists tagged,
    selectRelevantTraces (Prompt.mkPrompts "{traces}" "{traces}")
      (fun _ => Message (Some (JSON (Args.mkArgs (Some [Some (Args.mkItem (Some 1%Q) None None)])))))
      "  " "why" "because" None [] false (Some [])
    = Returns tagged
    /\ Forall (fun entry => trace entry = "") tagged.
Proof.
  split; [reflexivity|].
  destruct (empty_corpus (Prompt.mkPrompts "{traces}" "{traces}")
              (fun _ => Message (Some (JSON (Args.mkArgs (Some [Some (Args.mkItem (Some 1%Q) None None)])))))
              "  " "why" "because" None [] eq_refl) as [_ [tagged [R [F _]]]].
  exists tagged. split; assumption.
Defined.

End TaggingProperties.

(** ** More about the batch ranking *)
Module RankingFacts.
Import Exn Batch BatchFacts.
Local Open Scope string_scope.


Lemma insert_perm x l : Permutation (insert x l) (x :: l).
Proof.
  induction l as [|y l IH]; cbn; [reflexivity|].
  destruct (Qle_bool (relevanceScore y) (relevanceScore x)); [reflexivity|].
  rewrite IH. apply perm_swap.
Qed.

Lemma sort_perm l : Permutation (sort l) l.
Proof.
  induction l as [|x l IH]; cbn; [reflexivity|].
  unfold sort in IH. rewrite insert_perm. now constructor.
Qed.

Lemma insert_scored score x l :
  filter (fun r => Qeq_bool (relevanceScore r) score) (insert x l) = filter (fun r => Qeq_bool (relevanceScore r) score) (x :: l).
Proof.
  induction l as [|y l IH]; [reflexivity|].
  cbn [insert]. destruct (Qle_bool (relevanceScore y) (relevanceScore x)) eqn:L; [reflexivity|].
  cbn [filter] in *. rewrite IH.
  destruct (Qeq_bool (relevanceScore x) score) eqn:X; [|reflexivity].
  destruct (Qeq_bool (relevanceScore y) score) eqn:Y; [|reflexivity].
  exfalso.
  apply Qeq_bool_iff in X, Y.
  assert (T : Qle_bool (relevanceScore y) (relevanceScore x) = true).
  { apply Qle_bool_iff. rewrite X, Y. apply Qle_refl. }
  congruence.
Qed.

Lemma sort_scored score l : filter (fun r => Qeq_bool (relevanceScore r) score) (sort l) = filter (fun r => Qeq_bool (relevanceScore r) score) l.
Proof.
  induction l as [|x l IH]; [reflexivity|].
  change (sort (x :: l)) with (insert x (sort l)).
  rewrite insert_scored. cbn [filter]. now rewrite IH.
Qed.

Lemma Qred_integer (z : Z) : Qred (inject_Z z) = inject_Z z.
Proof.
  unfold Qred, inject_Z.
  pose proof (Z.ggcd_gcd z 1) as G. pose proof (Z.ggcd_correct_divisors z 1) as D.
  destruct (Z.ggcd z 1) as [g [aa bb]]. cbn [fst snd] in *.
  rewrite Z.gcd_1_r in G. subst g. destruct D as [Da Db].
  rewrite Z.mul_1_l in Da, Db. now subst aa bb.
Qed.

Lemma at_index_integer traces (q : Q) (z : Z) :
  (q == inject_Z z)%Q ->
  at_index traces q = if (0 <=? z)%Z then nth_error traces (Z.to_nat z) else None.
Proof.
  intros E. unfold at_index.
  rewrite (Qred_complete _ _ E), Qred_integer. reflexivity.
Qed.

Lemma at_index_fraction traces (q : Q) :
  (forall z, ~ (q == inject_Z z)%Q) -> at_index traces q = None.
Proof.
  intros H. unfold at_index.
  destruct (Pos.eqb_spec (Qden (Qred q)) 1) as [D|D]; [|reflexivity].
  exfalso. apply (H (Qnum (Qred q))).
  rewrite <- (Qred_correct q) at 1.
  destruct (Qred q) as [n d]. cbn in D. subst d. reflexivity.
Qed.

End RankingFacts.

Section RankingProperties.
Import Exn Batch BatchFacts RankingFacts.
Local Open Scope string_scope.

(** X14.  The result of the batch ranking is a rearrangement of the
    converted in-range entries, one result for each entry kept, a line
    named twice included twice, and entries of equal score stay in the
    order of the payload. *)
Theorem batch_ranking_is_stable :
  forall (traces : list string) (items : list Args.Item),
    let kept := map (convert traces) (filter (keeps traces) items) in
    exists results,
      runBatchJobAnalysis traces (Message (Some (JSON (Args.mkArgs (Some (map Some items))))))
      = Returns results
      /\ Permutation results kept
      /\ List.length results = List.length (filter (keeps traces) items)
      /\ forall score : Q,
           filter (fun r => Qeq_bool (relevanceScore r) score) results
           = filter (fun r => Qeq_bool (relevanceScore r) score) kept.
Proof.
  intros traces items kept. exists (sort kept). split; [|split; [|split]].
  - cbn [runBatchJobAnalysis]. unfold processArguments. cbn [Args.matching_traces].
    rewrite filter_throwing_pure. cbn [bind]. rewrite map_throwing_pure. reflexivity.
  - apply sort_perm.
  - rewrite (Permutation_length (sort_perm kept)). unfold kept. apply length_map.
  - intros score. apply (sort_scored score kept).
Qed.

(** X15.  A kept entry with line number [q] gets [originalIndex = q -
    1], counted from zero; when [q] is an integer [k], [k] lies in [1 ..
    len] and the result carries the [k]-th trace; when [q] is no
    integer, the result carries no trace text, [traces[q - 1]] being
    [undefined]. *)
Theorem batch_result_trace :
  forall (traces : list string) (item : Args.Item) (q : Q),
    Args.line_number item = Some q ->
    keeps traces item = true ->
    (originalIndex (convert traces item) == q - 1)%Q
    /\ (forall k : nat,
           (q == inject_Z (Z.of_nat k))%Q ->
           (1 <= k <= List.length traces)%nat
           /\ trace (convert traces item) = nth_error traces (k - 1)
           /\ exists text, nth_error traces (k - 1) = Some text)
    /\ ((forall z : Z, ~ (q == inject_Z z)%Q) -> trace (convert traces item) = None).
Proof.
  intros traces item q L K. unfold convert. rewrite L. cbn [originalIndex trace].
  split; [reflexivity|]. split.
  - intros k E.
    unfold keeps in K. rewrite L in K.
    apply andb_true_iff in K as [K K3]. apply andb_true_iff in K as [_ K2].
    apply Qle_bool_iff in K2, K3. rewrite E in K2, K3.
    change 1%Q with (inject_Z 1) in K2. rewrite <- Zle_Qle in K2, K3.
    assert (R : (1 <= k <= List.length traces)%nat) by lia.
    split; [exact R|].
    assert (E' : (q - 1 == inject_Z (Z.of_nat k - 1))%Q).
    { rewrite E. unfold Qminus. change (- (1))%Q with (inject_Z (-1)).
      rewrite <- inject_Z_plus. reflexivity. }
    rewrite (at_index_integer traces _ _ E').
    destruct (Z.leb_spec 0 (Z.of_nat k - 1)); [|lia].
    replace (Z.to_nat (Z.of_nat k - 1)) with (k - 1)%nat by lia.
    split; [reflexivity|].
    destruct (nth_error traces (k - 1)) as [text|] eqn:N; [now exists text|].
    apply nth_error_None in N. lia.
  - intros F. apply at_index_fraction. intros z E. apply (F (z + 1)).
    rewrite inject_Z_plus, <- E. unfold Qminus. ring.
Qed.

Lemma batch_result_trace_witness :
  Args.line_number (Args.mkItem (Some 2%Q) (Some 1%Q) None) = Some 2%Q /\
  keeps ["x"; "y"] (Args.mkItem (Some 2%Q) (Some 1%Q) None) = true /\
  trace (convert ["x"; "y"] (Args.mkItem (Some 2%Q) (Some 1%Q) None))
  = nth_error ["x"; "y"] (2 - 1).
Proof.
  split; [reflexivity|]. split; [reflexivity|].
  apply (batch_result_trace ["x"; "y"] (Args.mkItem (Some 2%Q) (Some 1%Q) None) 2%Q
                            eq_refl eq_refl).
  reflexivity.
Defined.

End RankingProperties.

(** ** Maps *)
Module JsMapFacts.
Import JsMap.

Lemma sameKey_spec a b : reflect (a = b) (sameKey a b).
Proof.
  destruct a as [x|x], b as [y|y]; cbn.
  - destruct (Z.eqb_spec x y); constructor; congruence.
  - constructor; discriminate.
  - constructor; discriminate.
  - destruct (String.eqb_spec x y); constructor; congruence.
Qed.

Lemma sameKey_refl k : sameKey k k = true.
Proof. now destruct (sameKey_spec k k). Qed.

Section Entries.
Context {V : Type}.
Implicit Types (m : t V) (k : Key) (v : V).

Lemma get_In k v m : get k m = Some v -> In (k, v) m.
Proof.
  induction m as [|[k' v'] m IH]; cbn; [discriminate|].
  destruct (sameKey_spec k' k) as [->|N].
  - intros H; injection H as ->. now left.
  - intros H. right. now apply IH.
Qed.

Lemma get_None k m : get k m = None <-> ~ In k (keys m).
Proof.
  induction m as [|[k' v'] m IH]; cbn.
  - split; [intros _ [] | reflexivity].
  - destruct (sameKey_spec k' k) as [->|N].
    + split; [discriminate | intros H; exfalso; apply H; now left].
    + rewrite IH. split; [intros H [E|I]; [congruence | now apply H] | intros H I; apply H; now right].
Qed.

Lemma In_get k v m : NoDup (keys m) -> In (k, v) m -> get k m = Some v.
Proof.
  induction m as [|[k' v'] m IH]; cbn; [intros _ []|].
  intros ND [E|I].
  - injection E as -> ->. now rewrite sameKey_refl.
  - inversion ND as [|? ? Hn ND']; subst.
    destruct (sameKey_spec k' k) as [->|N].
    + exfalso. apply Hn. apply (in_map fst) in I. exact I.
    + now apply IH.
Qed.

Lemma get_set_same k v m : get k (set k v m) = Some v.
Proof.
  induction m as [|[k' v'] m IH]; cbn.
  - now rewrite sameKey_refl.
  - destruct (sameKey k' k) eqn:E; cbn; rewrite E; [reflexivity | exact IH].
Qed.

Lemma get_set_other k k' v m : k <> k' -> get k' (set k v m) = get k' m.
Proof.
  intros N. induction m as [|[k0 v0] m IH]; cbn.
  - destruct (sameKey_spec k k'); [contradiction | reflexivity].
  - destruct (sameKey_spec k0 k) as [->|N0]; cbn.
    + destruct (sameKey_spec k k'); [contradiction | reflexivity].
    + destruct (sameKey k0 k'); [reflexivity | exact IH].
Qed.

(** A new key goes to the end. *)
Lemma set_fresh k v m : get k m = None -> set k v m = (m ++ [(k, v)])%list.
Proof.
  induction m as [|[k' v'] m IH]; cbn; [reflexivity|].
  destruct (sameKey k' k); [discriminate|]. intros H. now rewrite IH.
Qed.

(** A key the map has keeps its place. *)
Lemma keys_set_present k v m : has k m = true -> keys (set k v m) = keys m.
Proof.
  unfold has, keys. induction m as [|[k' v'] m IH]; cbn; [discriminate|].
  destruct (sameKey k' k); cbn; [reflexivity|]. intros H. now rewrite IH.
Qed.

Lemma delete_absent k m : get k m = None -> delete k m = m.
Proof.
  induction m as [|[k' v'] m IH]; cbn; [reflexivity|].
  destruct (sameKey k' k); [discriminate|]. intros H. now rewrite IH.
Qed.

(** With every key held once, [delete] leaves the entries under the other
    keys, in their order. *)
Lemma delete_filter k m :
  NoDup (keys m) -> delete k m = filter (fun entry => negb (sameKey (fst entry) k)) m.
Proof.
  induction m as [|[k' v'] m IH]; cbn; [reflexivity|].
  intros ND. inversion ND as [|? ? Hn ND']; subst.
  destruct (sameKey_spec k' k) as [->|N]; cbn.
  - rewrite <- (IH ND'). symmetry. apply delete_absent. now apply get_None.
  - now rewrite IH.
Qed.

Lemma keys_delete_incl k m : incl (keys (delete k m)) (keys m).
Proof.
  induction m as [|[k' v'] m IH]; cbn; [easy|].
  destruct (sameKey k' k); cbn.
  - now apply incl_tl.
  - apply incl_cons; [now left | now apply incl_tl].
Qed.

Lemma delete_In entry k m : In entry (delete k m) -> In entry m.
Proof.
  induction m as [|[k' v'] m IH]; cbn; [easy|].
  destruct (sameKey k' k); cbn; [now right|]. intros [E|I]; [now left | right; now apply IH].
Qed.

Lemma NoDup_delete k m : NoDup (keys m) -> NoDup (keys (delete k m)).
Proof.
  induction m as [|[k' v'] m IH]; cbn; [easy|].
  intros ND. inversion ND as [|? ? Hn ND']; subst.
  destruct (sameKey k' k); cbn; [assumption|].
  constructor; [|now apply IH].
  intros I. apply Hn. now apply (keys_delete_incl k m).
Qed.

Lemma get_delete_same k m : NoDup (keys m) -> get k (delete k m) = None.
Proof.
  intros ND. apply get_None. rewrite (delete_filter k m ND).
  intros I. apply in_map_iff in I as [[k' v'] [E I]]. cbn in E. subst k'.
  apply filter_In in I as [_ I]. cbn in I. now rewrite sameKey_refl in I.
Qed.

Lemma get_delete_other k k' m : k <> k' -> get k' (delete k m) = get k' m.
Proof.
  intros N. induction m as [|[k0 v0] m IH]; cbn; [reflexivity|].
  destruct (sameKey_spec k0 k) as [->|N0]; cbn.
  - destruct (sameKey_spec k k'); [contradiction | reflexivity].
  - destruct (sameKey k0 k'); [reflexivity | exact IH].
Qed.

Lemma set_In entry k v m : In entry (set k v m) -> entry = (k, v) \/ In entry m.
Proof.
  induction m as [|[k' v'] m IH]; cbn.
  - intros [E|[]]. now left.
  - destruct (sameKey_spec k' k) as [->|N]; cbn.
    + intros [E|I]; [now left | right; now right].
    + intros [E|I]; [right; now left|].
      destruct (IH I) as [E|I']; [now left | right; now right].
Qed.

Lemma keys_set k v m :
  keys (set k v m) = if has k m then keys m else (keys m ++ [k])%list.
Proof.
  destruct (has k m) eqn:H.
  - now apply keys_set_present.
  - unfold has in H. destruct (get k m) eqn:G; [discriminate|].
    rewrite (set_fresh k v m G). unfold keys. now rewrite map_app.
Qed.

Lemma NoDup_set k v m : NoDup (keys m) -> NoDup (keys (set k v m)).
Proof.
  intros ND. rewrite keys_set. destruct (has k m) eqn:H; [exact ND|].
  unfold has in H. destruct (get k m) eqn:G; [discriminate|].
  apply get_None in G.
  apply (Permutation_NoDup (l := k :: keys m)).
  - apply Permutation_cons_append.
  - now constructor.
Qed.

End Entries.
End JsMapFacts.

(** ** The store keeps its maps numbered *)
Module StorageFacts.
Import JsMap JsMapFacts Storage.

Lemma filter_none {A} (p : A -> bool) l :
  (forall x, In x l -> p x = false) -> filter p l = [].
Proof.
  induction l as [|x l IH]; intros H; [reflexivity|]. cbn.
  rewrite (H x (or_introl eq_refl)). apply IH. intros y I. apply H. now right.
Qed.

Lemma filter_every {A} (p : A -> bool) l :
  (forall x, In x l -> p x = true) -> filter p l = l.
Proof.
  induction l as [|x l IH]; intros H; [reflexivity|]. cbn.
  rewrite (H x (or_introl eq_refl)). f_equal. apply IH. intros y I. apply H. now right.
Qed.

Lemma filter_filter {A} (p q : A -> bool) l :
  filter p (filter q l) = filter (fun x => q x && p x) l.
Proof.
  induction l as [|x l IH]; [reflexivity|]. cbn.
  destruct (q x); cbn; [destruct (p x)|]; now rewrite IH.
Qed.

Lemma find_app {A} (p : A -> bool) l1 l2 :
  find p (l1 ++ l2) = match find p l1 with Some x => Some x | None => find p l2 end.
Proof.
  induction l1 as [|x l1 IH]; [reflexivity|]. cbn. destruct (p x); [reflexivity | exact IH].
Qed.

Lemma Num_inj a b : a <> b -> Num a <> Num b.
Proof. congruence. Qed.

Section Numbered.
Context {V : Type} (idOf : V -> Key).
Implicit Types (m : JsMap.t V) (v : V).

Lemma numbered_empty bound : numbered bound idOf [].
Proof. split; constructor. Qed.

Lemma numbered_fresh bound m n :
  numbered bound idOf m -> bound <= n -> get (Num n) m = None.
Proof.
  intros [_ F] Hn. apply get_None. intros I.
  apply in_map_iff in I as [entry [E I]].
  destruct (proj1 (Forall_forall _ _) F entry I) as [_ [n' [E' B]]].
  rewrite E in E'. injection E' as <-. lia.
Qed.

Lemma numbered_add bound m v :
  numbered bound idOf m -> idOf v = Num bound ->
  numbered (bound + 1) idOf (set (Num bound) v m)
  /\ set (Num bound) v m = (m ++ [(Num bound, v)])%list.
Proof.
  intros N E.
  assert (G : get (Num bound) m = None) by (apply (numbered_fresh bound m bound N); lia).
  split; [|now apply set_fresh].
  destruct N as [ND F]. split; [now apply NoDup_set|].
  rewrite (set_fresh _ v m G). apply Forall_app. split.
  - eapply Forall_impl; [|exact F]. intros entry [I [n [K B]]].
    split; [exact I|]. exists n. split; [exact K | lia].
  - constructor; [|constructor]. cbn. split; [exact E|]. exists bound. split; [reflexivity | lia].
Qed.

Lemma numbered_delete bound m k : numbered bound idOf m -> numbered bound idOf (delete k m).
Proof.
  intros [ND F]. split; [now apply NoDup_delete|].
  apply Forall_forall. intros entry I. apply delete_In in I.
  exact (proj1 (Forall_forall _ _) F entry I).
Qed.

Lemma numbered_replace bound m k v :
  numbered bound idOf m -> has k m = true -> idOf v = k -> numbered bound idOf (set k v m).
Proof.
  intros [ND F] H E. split; [now apply NoDup_set|].
  apply Forall_forall. intros entry I. apply set_In in I as [->|I].
  - cbn. split; [exact E|].
    unfold has in H. destruct (get k m) as [old|] eqn:G; [|discriminate].
    apply get_In in G.
    destruct (proj1 (Forall_forall _ _) F _ G) as [_ B]. exact B.
  - exact (proj1 (Forall_forall _ _) F entry I).
Qed.

Lemma numbered_id bound m k v : numbered bound idOf m -> get k m = Some v -> idOf v = k.
Proof.
  intros [_ F] G. apply get_In in G.
  destruct (proj1 (Forall_forall _ _) F _ G) as [E _]. exact E.
Qed.

Lemma values_delete bound m k :
  numbered bound idOf m ->
  values (delete k m) = filter (fun v => negb (sameKey (idOf v) k)) (values m).
Proof.
  intros [ND F]. rewrite (delete_filter k m ND). clear ND.
  unfold values. induction F as [|[k' v'] m [E _] _ IH]; [reflexivity|].
  cbn in E. cbn. rewrite E. destruct (sameKey k' k); cbn; now rewrite IH.
Qed.

Lemma values_add bound m v :
  numbered bound idOf m -> idOf v = Num bound ->
  values (set (Num bound) v m) = (values m ++ [v])%list.
Proof.
  intros N E. destruct (numbered_add bound m v N E) as [_ ->].
  unfold values. now rewrite map_app.
Qed.

Lemma ids_are_keys bound m : numbered bound idOf m -> map idOf (values m) = keys m.
Proof.
  intros [_ F]. unfold values, keys.
  induction F as [|[k v] m [E _] _ IH]; [reflexivity|]. cbn in *. now rewrite E, IH.
Qed.

Lemma NoDup_keys_filter (p : Key * V -> bool) m :
  NoDup (keys m) -> NoDup (keys (filter p m)).
Proof.
  unfold keys. induction m as [|e m IH]; cbn; [easy|].
  intros ND. inversion ND as [|? ? Hn ND']; subst.
  destruct (p e); cbn; [|now apply IH].
  constructor; [|now apply IH].
  intros I. apply Hn. apply in_map_iff in I as [e' [E I]].
  apply filter_In in I as [I _]. apply in_map_iff. now exists e'.
Qed.

Lemma filter_values_entries (p : V -> bool) m :
  filter p (values m) = values (filter (fun entry => p (snd entry)) m).
Proof.
  unfold values. induction m as [|[k v] m IH]; [reflexivity|].
  cbn. destruct (p v); cbn; now rewrite IH.
Qed.

End Numbered.

(** Creating batch jobs leaves users, analyses and datasets alone. *)
Lemma createJobs_entities clock k analysisId jobs s :
  let s' := snd (createJobs clock k analysisId jobs s) in
  users s' = users s /\ analyses s' = analyses s /\ datasets s' = datasets s /\
  currentUserId s' = currentUserId s /\ currentAnalysisId s' = currentAnalysisId s /\
  currentDatasetId s' = currentDatasetId s.
Proof.
  revert k s; induction jobs as [|jobData jobs IH]; intros k s; cbn [createJobs].
  - repeat split.
  - destruct (createBatchJob (clock k) (forAnalysis analysisId jobData) s) as [job s1] eqn:E1.
    specialize (IH (S k) s1).
    destruct (createJobs clock (S k) analysisId jobs s1) as [newJobs s2]. cbn [snd] in *.
    assert (S1 : s1 = snd (createBatchJob (clock k) (forAnalysis analysisId jobData) s))
      by now rewrite E1.
    destruct IH as (A1 & A2 & A3 & A4 & A5 & A6).
    rewrite A1, A2, A3, A4, A5, A6, S1. repeat split.
Qed.

Lemma entities_kept s s' :
  users s' = users s -> analyses s' = analyses s -> datasets s' = datasets s ->
  currentUserId s' = currentUserId s -> currentAnalysisId s' = currentAnalysisId s ->
  currentDatasetId s' = currentDatasetId s ->
  entitiesNumbered s -> entitiesNumbered s'.
Proof.
  intros A1 A2 A3 A4 A5 A6 (U & A & D).
  unfold entitiesNumbered. rewrite A1, A2, A3, A4, A5, A6. split; [|split]; assumption.
Qed.

Ltac three_maps := unfold entitiesNumbered; cbn; split; [|split]; try assumption.

Lemma run_entities call s : entitiesNumbered s -> entitiesNumbered (run call s).
Proof.
  intros E. pose proof E as (U & A & D). destruct call; cbn [run].
  - three_maps. apply (numbered_add _ _ _ _ U). reflexivity.
  - three_maps. apply (numbered_add _ _ _ _ A). reflexivity.
  - three_maps. apply (numbered_add _ _ _ _ D). reflexivity.
  - three_maps. apply (numbered_delete _ _ _ _ D).
  - apply (entities_kept s); try reflexivity. exact E.
  - apply (entities_kept s); try exact E; unfold updateBatchJob;
      destruct (get (Num id) (batchJobs s)); reflexivity.
  - apply (entities_kept s); try reflexivity. exact E.
  - unfold saveBatchJobs.
    match goal with
    | |- entitiesNumbered (snd (createJobs ?c ?k ?a ?j ?s0)) =>
        destruct (createJobs_entities c k a j s0) as (A1 & A2 & A3 & A4 & A5 & A6)
    end.
    cbn [users analyses datasets currentUserId currentAnalysisId currentDatasetId
         withBatchJobs] in *.
    now apply (entities_kept s).
Qed.

Lemma fold_delete_numbered bound (jobs : list BatchJob.t) (m : JsMap.t BatchJob.t) :
  numbered bound BatchJob.id m ->
  numbered bound BatchJob.id (fold_left (fun m job => delete (BatchJob.id job) m) jobs m).
Proof.
  revert m; induction jobs as [|job jobs IH]; intros m N; cbn; [exact N|].
  apply IH. now apply numbered_delete.
Qed.

Lemma createBatchJob_numbered now insertJob s :
  InsertBatchJob.id insertJob = None -> jobsNumbered s ->
  jobsNumbered (snd (createBatchJob now insertJob s)).
Proof.
  intros T B. unfold createBatchJob, jobsNumbered in *. rewrite T. cbn.
  apply (numbered_add BatchJob.id _ _ _ B). reflexivity.
Qed.

Lemma createJobs_numbered clock k analysisId jobs s :
  Forall (fun jobData => InsertBatchJob.id jobData = None) jobs -> jobsNumbered s ->
  jobsNumbered (snd (createJobs clock k analysisId jobs s)).
Proof.
  revert k s; induction jobs as [|jobData jobs IH]; intros k s T C; cbn [createJobs]; [exact C|].
  inversion T as [|? ? T1 T2]; subst.
  destruct (createBatchJob (clock k) (forAnalysis analysisId jobData) s) as [job s1] eqn:E1.
  destruct (createJobs clock (S k) analysisId jobs s1) as [newJobs s2] eqn:E2.
  cbn. change s2 with (snd (newJobs, s2)). rewrite <- E2. apply IH; [exact T2|].
  change s1 with (snd (job, s1)). rewrite <- E1.
  apply createBatchJob_numbered; [exact T1 | exact C].
Qed.

Lemma run_jobs call s : asDeclared call -> jobsNumbered s -> jobsNumbered (run call s).
Proof.
  intros T B. destruct call; cbn [run asDeclared] in *; try exact B.
  - now apply createBatchJob_numbered.
  - unfold updateBatchJob.
    destruct (get (Num id) (batchJobs s)) as [job|] eqn:G; [|exact B].
    unfold jobsNumbered in *. cbn. apply (numbered_replace _ _ _ _ _ B).
    + unfold has. now rewrite G.
    + unfold merge. cbn. rewrite T. apply (numbered_id _ _ _ _ _ B G).
  - unfold jobsNumbered in *. cbn. apply (numbered_delete _ _ _ _ B).
  - unfold saveBatchJobs. apply createJobs_numbered; [assumption|].
    unfold jobsNumbered in *. cbn. apply fold_delete_numbered. exact B.
Qed.

Lemma after_snoc calls call : after (calls ++ [call]) = run call (after calls).
Proof. unfold after. now rewrite fold_left_app. Qed.

(** After any history the users, analyses and datasets are numbered. *)
Lemma after_entities calls : entitiesNumbered (after calls).
Proof.
  induction calls as [|call calls IH] using rev_ind.
  - three_maps; apply numbered_empty.
  - rewrite after_snoc. now apply run_entities.
Qed.

(** After a history of calls as declared the batch jobs are. *)
Lemma after_jobs calls : Forall asDeclared calls -> jobsNumbered (after calls).
Proof.
  induction calls as [|call calls IH] using rev_ind; intros T.
  - apply numbered_empty.
  - apply Forall_app in T as [T1 T2]. inversion T2; subst.
    rewrite after_snoc. apply run_jobs; [assumption | now apply IH].
Qed.

(** Deleting the jobs of an analysis one by one leaves the other jobs, in
    their order. *)
Lemma fold_delete_filter (jobs : list BatchJob.t) (m : JsMap.t BatchJob.t) :
  NoDup (keys m) ->
  fold_left (fun m job => delete (BatchJob.id job) m) jobs m
  = filter (fun entry => negb (existsb (sameKey (fst entry)) (map BatchJob.id jobs))) m.
Proof.
  revert m; induction jobs as [|job jobs IH]; intros m ND; cbn [fold_left map existsb].
  - symmetry. apply filter_every. reflexivity.
  - rewrite IH by now apply NoDup_delete.
    rewrite (delete_filter _ m ND). clear.
    induction m as [|e m IHm]; [reflexivity|]. cbn [filter].
    destruct (sameKey (fst e) (BatchJob.id job)); cbn [negb orb filter]; [exact IHm|].
    destruct (existsb (sameKey (fst e)) (map BatchJob.id jobs)); cbn [negb]; now rewrite IHm.
Qed.

Lemma delete_analysis_jobs bound analysisId (m : JsMap.t BatchJob.t) :
  numbered bound BatchJob.id m ->
  fold_left (fun m job => delete (BatchJob.id job) m)
            (filter (fun job => BatchJob.analysisId job =? analysisId) (values m)) m
  = filter (fun entry => negb (BatchJob.analysisId (snd entry) =? analysisId)) m.
Proof.
  intros [ND F]. rewrite (fold_delete_filter _ m ND).
  apply filter_ext_in. intros [k job] I. cbn [fst snd]. f_equal.
  destruct (BatchJob.analysisId job =? analysisId) eqn:E.
  - apply existsb_exists. exists k. split; [|apply sameKey_refl].
    apply in_map_iff. exists job. split.
    + exact (proj1 (proj1 (Forall_forall _ _) F _ I)).
    + apply filter_In. split; [|exact E]. apply in_map_iff. now exists (k, job).
  - destruct (existsb (sameKey k) _) eqn:X; [|reflexivity]. exfalso.
    apply existsb_exists in X as [k' [I' S]].
    destruct (sameKey_spec k k') as [<-|]; [|discriminate].
    apply in_map_iff in I' as [job' [Ek I']].
    apply filter_In in I' as [I' E'].
    apply in_map_iff in I' as [[k2 job2] [E2 I2]]. cbn in E2. subst job2.
    assert (K : k2 = k).
    { rewrite <- Ek. symmetry. exact (proj1 (proj1 (Forall_forall _ _) F _ I2)). }
    subst k2.
    assert (J : job' = job).
    { pose proof (In_get _ _ _ ND I) as G1. pose proof (In_get _ _ _ ND I2) as G2. congruence. }
    subst job'. congruence.
Qed.

Lemma createJobs_spec clock k analysisId jobs s :
  Forall (fun jobData => InsertBatchJob.id jobData = None) jobs ->
  numbered (currentBatchJobId s) BatchJob.id (batchJobs s) ->
  let created := createJobs clock k analysisId jobs s in
  batchJobs (snd created)
  = (batchJobs s ++ map (fun job => (BatchJob.id job, job)) (fst created))%list
  /\ Forall (fun job => BatchJob.analysisId job = analysisId) (fst created)
  /\ map BatchJob.id (fst created)
     = map (fun i => Num (currentBatchJobId s + Z.of_nat i)) (seq 0 (List.length jobs))
  /\ currentBatchJobId (snd created) = currentBatchJobId s + Z.of_nat (List.length jobs)
  /\ datasets (snd created) = datasets s /\ analyses (snd created) = analyses s
  /\ users (snd created) = users s.
Proof.
  revert k s; induction jobs as [|jobData jobs IH]; intros k s T N created; subst created.
  - cbn. rewrite app_nil_r, Z.add_0_r. repeat split; constructor.
  - inversion T as [|? ? T1 T2]; subst. cbn [createJobs].
    destruct (createBatchJob (clock k) (forAnalysis analysisId jobData) s) as [job s1] eqn:E1.
    assert (J : job = fst (createBatchJob (clock k) (forAnalysis analysisId jobData) s))
      by now rewrite E1.
    assert (S1 : s1 = snd (createBatchJob (clock k) (forAnalysis analysisId jobData) s))
      by now rewrite E1.
    unfold createBatchJob in J, S1. cbn [forAnalysis InsertBatchJob.id] in J, S1.
    rewrite T1 in J, S1. cbn [fst snd] in J, S1.
    assert (Jid : BatchJob.id job = Num (currentBatchJobId s)) by now rewrite J.
    assert (Ja : BatchJob.analysisId job = analysisId) by now rewrite J.
    destruct (numbered_add BatchJob.id _ _ job N Jid) as [N1 A1].
    assert (B1 : batchJobs s1 = (batchJobs s ++ [(Num (currentBatchJobId s), job)])%list).
    { rewrite S1. cbn [batchJobs]. rewrite <- J. cbn [BatchJob.id]. rewrite Jid. exact A1. }
    assert (C1 : currentBatchJobId s1 = currentBatchJobId s + 1) by now rewrite S1.
    assert (N1' : numbered (currentBatchJobId s1) BatchJob.id (batchJobs s1)).
    { rewrite C1, B1, <- A1. exact N1. }
    specialize (IH (S k) s1 T2 N1').
    destruct (createJobs clock (S k) analysisId jobs s1) as [newJobs s2].
    cbn [fst snd] in *. destruct IH as [B2 [F2 [I2 [C2 [D2 [A2 U2]]]]]].
    split; [|split; [|split; [|split; [|split; [|split]]]]].
    + rewrite B2, B1, <- app_assoc. cbn. now rewrite Jid.
    + constructor; assumption.
    + cbn [map seq List.length]. rewrite Jid, Z.add_0_r. f_equal.
      rewrite I2, <- seq_shift, map_map. apply map_ext. intros i. f_equal. lia.
    + rewrite C2, C1. cbn [List.length]. lia.
    + rewrite D2, S1. reflexivity.
    + rewrite A2, S1. reflexivity.
    + rewrite U2, S1. reflexivity.
Qed.

End StorageFacts.

Section StorageProperties.
Import JsMap JsMapFacts Storage StorageFacts.

(** X16.  After any history of calls, [createDataset] and
    [createAnalysis] store the new entry under the value of their
    counter, an id no stored entry has; the entry reads back, every
    other id reads as before, and [getAllDatasets] lists the new dataset
    last. *)
Theorem stored_ids_are_fresh :
  forall (calls : list Call) (now : Date),
    let s := after calls in
    (forall insertDataset,
        let created := createDataset now insertDataset s in
        Dataset.id (fst created) = currentDatasetId s
        /\ getDataset (currentDatasetId s) s = None
        /\ getDataset (currentDatasetId s) (snd created) = Some (fst created)
        /\ (forall id, id <> currentDatasetId s ->
                       getDataset id (snd created) = getDataset id s)
        /\ getAllDatasets (snd created) = (getAllDatasets s ++ [fst created])%list)
    /\ (forall insertAnalysis,
           let created := createAnalysis now insertAnalysis s in
           AnalysisResult.id (fst created) = currentAnalysisId s
           /\ getAnalysis (currentAnalysisId s) s = None
           /\ getAnalysis (currentAnalysisId s) (snd created) = Some (fst created)
           /\ (forall id, id <> currentAnalysisId s ->
                          getAnalysis id (snd created) = getAnalysis id s)).
Proof.
  intros calls now s. destruct (after_entities calls) as [U [A D]]. fold s in U, A, D.
  split.
  - intros insertDataset created. subst created. cbn.
    split; [reflexivity|]. split; [|split; [|split]].
    + apply (numbered_fresh _ _ _ _ D). lia.
    + apply get_set_same.
    + intros id N. apply get_set_other. now apply Num_inj.
    + unfold getAllDatasets. cbn. apply (values_add _ _ _ _ D). reflexivity.
  - intros insertAnalysis created. subst created. cbn.
    split; [reflexivity|]. split; [|split].
    + apply (numbered_fresh _ _ _ _ A). lia.
    + apply get_set_same.
    + intros id N. apply get_set_other. now apply Num_inj.
Qed.

(** X17.  After any history of calls, [deleteDataset] answers whether
    the id was stored; afterwards the id reads as absent, every other id
    reads as before, the listing has lost that dataset and no other, a
    second delete answers [false], and a dataset created later never
    gets the deleted id. *)
Theorem deleted_datasets_are_gone :
  forall (calls : list Call) (id : Z),
    let s := after calls in
    let deleted := deleteDataset id s in
    fst deleted = (match getDataset id s with Some _ => true | None => false end)
    /\ getDataset id (snd deleted) = None
    /\ (forall other, other <> id -> getDataset other (snd deleted) = getDataset other s)
    /\ getAllDatasets (snd deleted)
       = filter (fun dataset => negb (Dataset.id dataset =? id)) (getAllDatasets s)
    /\ fst (deleteDataset id (snd deleted)) = false
    /\ forall now insertDataset,
         fst deleted = true ->
         Dataset.id (fst (createDataset now insertDataset (snd deleted))) <> id.
Proof.
  intros calls id s deleted. subst deleted.
  destruct (after_entities calls) as [U [A D]]. fold s in U, A, D.
  cbn. split; [reflexivity|]. split; [|split; [|split; [|split]]].
  - apply get_delete_same. apply D.
  - intros other N. apply get_delete_other. apply Num_inj. congruence.
  - exact (values_delete (fun dataset => Num (Dataset.id dataset)) _ _ (Num id) D).
  - unfold has. now rewrite (get_delete_same (Num id) _ (proj1 D)).
  - intros _ _ H E. unfold has in H.
    destruct (get (Num id) (datasets s)) eqn:G; [|discriminate].
    rewrite (numbered_fresh _ _ _ id D) in G; [discriminate | lia].
Qed.

(** X18.  After a history of calls with arguments of the declared types,
    [createBatchJob] stores the job under the value of the counter, an
    id no stored job has, where it reads back, leaves every other id as
    it was and lists the job last for its analysis; [deleteBatchJob]
    answers whether the id was stored, leaves it absent and the others
    as they were, and answers [false] the second time. *)
Theorem declared_jobs_are_numbered :
  forall (calls : list Call) (now : Date) (insertJob : InsertBatchJob.t) (id : Z),
    Forall asDeclared calls ->
    InsertBatchJob.id insertJob = None ->
    let s := after calls in
    (let created := createBatchJob now insertJob s in
     BatchJob.id (fst created) = Num (currentBatchJobId s)
     /\ getBatchJob (currentBatchJobId s) s = None
     /\ getBatchJob (currentBatchJobId s) (snd created) = Some (fst created)
     /\ (forall other, other <> currentBatchJobId s ->
                       getBatchJob other (snd created) = getBatchJob other s)
     /\ getBatchJobsByAnalysis (InsertBatchJob.analysisId insertJob) (snd created)
        = (getBatchJobsByAnalysis (InsertBatchJob.analysisId insertJob) s
           ++ [fst created])%list)
    /\ (let deleted := deleteBatchJob id s in
        fst deleted = (match getBatchJob id s with Some _ => true | None => false end)
        /\ getBatchJob id (snd deleted) = None
        /\ (forall other, other <> id ->
                          getBatchJob other (snd deleted) = getBatchJob other s)
        /\ fst (deleteBatchJob id (snd deleted)) = false).
Proof.
  intros calls now insertJob id T Tj s.
  pose proof (after_jobs calls T) as B. fold s in B. unfold jobsNumbered in B.
  split.
  - unfold createBatchJob, getBatchJob, getBatchJobsByAnalysis. rewrite Tj.
    cbn [fst snd BatchJob.id batchJobs].
    split; [reflexivity|]. split; [|split; [|split]].
    + apply (numbered_fresh _ _ _ _ B). lia.
    + apply get_set_same.
    + intros other N. apply get_set_other. now apply Num_inj.
    + erewrite (values_add BatchJob.id _ _ _ B) by reflexivity.
      rewrite filter_app. cbn. now rewrite Z.eqb_refl.
  - cbn. split; [reflexivity|]. split; [|split].
    + apply get_delete_same. apply B.
    + intros other N. apply get_delete_other. apply Num_inj. congruence.
    + unfold has. now rewrite (get_delete_same (Num id) _ (proj1 B)).
Qed.

Lemma declared_jobs_are_numbered_witness :
  let job := InsertBatchJob.mk None 7 "j"%string "n"%string "q"%string "m"%string 30
                               None None None None in
  Forall asDeclared [CreateBatchJob 0 job] /\
  InsertBatchJob.id job = None /\
  getBatchJob 2 (snd (createBatchJob 5 job (after [CreateBatchJob 0 job])))
  = Some (fst (createBatchJob 5 job (after [CreateBatchJob 0 job]))).
Proof.
  intros job.
  assert (T : Forall asDeclared [CreateBatchJob 0 job]) by (repeat constructor).
  split; [exact T|]. split; [reflexivity|].
  apply (declared_jobs_are_numbered [CreateBatchJob 0 job] 5 job 0 T eq_refl).
Defined.

(** X19.  After a history of calls with arguments of the declared types,
    [updateBatchJob] on an id that is not stored returns [undefined] and
    leaves the store as it is; on a stored job it stores and returns the
    merge, which keeps [id] and [createdAt] and leaves the other jobs
    and the order of the listing untouched; an update with no field
    changes nothing. *)
Theorem update_keeps_identity :
  forall (calls : list Call) (id : Z) (updates : Updates.t),
    Forall asDeclared calls ->
    Updates.id updates = None ->
    let s := after calls in
    let updated := updateBatchJob id updates s in
    match getBatchJob id s with
    | None => updated = (None, s)
    | Some job =>
        fst updated = Some (merge job updates)
        /\ BatchJob.id (merge job updates) = Num id
        /\ BatchJob.createdAt (merge job updates) = BatchJob.createdAt job
        /\ getBatchJob id (snd updated) = Some (merge job updates)
        /\ (forall other, other <> id ->
                          getBatchJob other (snd updated) = getBatchJob other s)
        /\ map BatchJob.id (values (batchJobs (snd updated)))
           = map BatchJob.id (values (batchJobs s))
        /\ merge job (Updates.mk None None None None None None None None None None None)
           = job
    end.
Proof.
  intros calls id updates T Tu s updated. subst updated.
  pose proof (after_jobs calls T) as B. fold s in B.
  assert (B' : jobsNumbered (run (UpdateBatchJob id updates) s)) by now apply run_jobs.
  unfold jobsNumbered in B, B'. cbn [run] in B'.
  unfold getBatchJob, updateBatchJob in *.
  destruct (get (Num id) (batchJobs s)) as [job|] eqn:G; [|reflexivity].
  cbn [fst snd withBatchJobs batchJobs] in *.
  split; [reflexivity|]. split; [|split; [|split; [|split; [|split]]]].
  - unfold merge. cbn. rewrite Tu. exact (numbered_id _ _ _ _ _ B G).
  - reflexivity.
  - apply get_set_same.
  - intros other N. apply get_set_other. now apply Num_inj.
  - rewrite (ids_are_keys _ _ _ B'), (ids_are_keys _ _ _ B).
    apply keys_set_present. unfold has. now rewrite G.
  - now destruct job.
Qed.

Lemma update_keeps_identity_witness :
  let job := InsertBatchJob.mk None 7 "j"%string "n"%string "q"%string "m"%string 30
                               None None None None in
  let rename := Updates.mk None None None (Some "renamed"%string) None None None None None
                           None None in
  Forall asDeclared [CreateBatchJob 0 job] /\
  Updates.id rename = None /\
  getBatchJob 1 (snd (updateBatchJob 1 rename (after [CreateBatchJob 0 job])))
  = Some (merge (fst (createBatchJob 0 job empty)) rename).
Proof.
  intros job rename.
  assert (T : Forall asDeclared [CreateBatchJob 0 job]) by (repeat constructor).
  split; [exact T|]. split; [reflexivity|].
  apply (update_keeps_identity [CreateBatchJob 0 job] 1 rename T eq_refl).
Defined.

(** X20.  After a history of calls with arguments of the declared types,
    [saveBatchJobs] on jobs of the declared type leaves exactly the new
    jobs listed for the analysis, in the order given and numbered one
    after another from the counter, and leaves the jobs of every other
    analysis, the datasets and the analyses as they were. *)
Theorem saved_jobs_replace_the_analysis_jobs :
  forall (calls : list Call) (clock : nat -> Date) (analysisId : Z)
         (jobs : list InsertBatchJob.t),
    Forall asDeclared calls ->
    Forall (fun jobData => InsertBatchJob.id jobData = None) jobs ->
    let s := after calls in
    let saved := saveBatchJobs clock analysisId jobs s in
    getBatchJobsByAnalysis analysisId (snd saved) = fst saved
    /\ (forall other, other <> analysisId ->
                      getBatchJobsByAnalysis other (snd saved)
                      = getBatchJobsByAnalysis other s)
    /\ List.length (fst saved) = List.length jobs
    /\ map BatchJob.id (fst saved)
       = map (fun i => Num (currentBatchJobId s + Z.of_nat i)) (seq 0 (List.length jobs))
    /\ currentBatchJobId (snd saved) = currentBatchJobId s + Z.of_nat (List.length jobs)
    /\ datasets (snd saved) = datasets s /\ analyses (snd saved) = analyses s.
Proof.
  intros calls clock analysisId jobs Tc T s saved. subst saved.
  pose proof (after_jobs calls Tc) as B. fold s in B. unfold jobsNumbered in B.
  set (kept := filter (fun entry => negb (BatchJob.analysisId (snd entry) =? analysisId))
                      (batchJobs s)).
  assert (E : saveBatchJobs clock analysisId jobs s
              = createJobs clock 0 analysisId jobs (withBatchJobs kept s)).
  { unfold saveBatchJobs, getBatchJobsByAnalysis.
    now rewrite (delete_analysis_jobs _ analysisId _ B). }
  rewrite E. clear E.
  assert (N : numbered (currentBatchJobId (withBatchJobs kept s)) BatchJob.id
                       (batchJobs (withBatchJobs kept s))).
  { cbn. destruct B as [ND F]. split.
    - unfold kept. now apply NoDup_keys_filter.
    - apply Forall_forall. intros e I. apply filter_In in I as [I _].
      exact (proj1 (Forall_forall _ _) F e I). }
  pose proof (createJobs_spec clock 0 analysisId jobs (withBatchJobs kept s) T N) as S.
  cbn zeta in S. destruct S as [S1 [S2 [S3 [S4 [S5 [S6 _]]]]]].
  set (created := createJobs clock 0 analysisId jobs (withBatchJobs kept s)) in *.
  cbn [batchJobs withBatchJobs currentBatchJobId datasets analyses] in *.
  assert (V : forall a,
             getBatchJobsByAnalysis a (snd created)
             = (filter (fun job => BatchJob.analysisId job =? a) (values kept)
                ++ filter (fun job => BatchJob.analysisId job =? a) (fst created))%list).
  { intros a. unfold getBatchJobsByAnalysis, values. rewrite S1, map_app, filter_app.
    f_equal. rewrite map_map. cbn. now rewrite map_id. }
  split; [|split; [|split; [|split; [|split; [|split]]]]].
  - rewrite V. rewrite filter_none, filter_every; [reflexivity | |].
    + intros job I. apply Z.eqb_eq. exact (proj1 (Forall_forall _ _) S2 job I).
    + intros job I. unfold values, kept in I. apply in_map_iff in I as [e [<- I]].
      apply filter_In in I as [_ I]. now apply negb_true_iff in I.
  - intros other N'. rewrite V. rewrite (filter_none _ (fst created)).
    + rewrite app_nil_r. unfold getBatchJobsByAnalysis, kept.
      rewrite !filter_values_entries, filter_filter. f_equal.
      apply filter_ext. intros [k job]. cbn.
      destruct (Z.eqb_spec (BatchJob.analysisId job) other) as [->|]; [|apply andb_false_r].
      destruct (Z.eqb_spec other analysisId); [contradiction | reflexivity].
    + intros job I. apply Z.eqb_neq.
      rewrite (proj1 (Forall_forall _ _) S2 job I). congruence.
  - rewrite <- (length_map BatchJob.id), S3, length_map. apply length_seq.
  - exact S3.
  - exact S4.
  - exact S5.
  - exact S6.
Qed.

Lemma saved_jobs_replace_the_analysis_jobs_witness :
  let job := InsertBatchJob.mk None 7 "j"%string "n"%string "q"%string "m"%string 30
                               None None None None in
  Forall asDeclared [SaveBatchJobs (fun _ => 0) 7 [job]] /\
  Forall (fun jobData => InsertBatchJob.id jobData = None) [job; job] /\
  getBatchJobsByAnalysis 7
    (snd (saveBatchJobs (fun _ => 1) 7 [job; job] (after [SaveBatchJobs (fun _ => 0) 7 [job]])))
  = fst (saveBatchJobs (fun _ => 1) 7 [job; job] (after [SaveBatchJobs (fun _ => 0) 7 [job]])).
Proof.
  intros job.
  assert (T : Forall asDeclared [SaveBatchJobs (fun _ => 0) 7 [job]])
    by (repeat constructor).
  split; [exact T|]. split; [repeat constructor|].
  apply (saved_jobs_replace_the_analysis_jobs [SaveBatchJobs (fun _ => 0) 7 [job]]
           (fun _ => 1) 7 [job; job] T).
  repeat constructor.
Defined.

(** X21.  A job that comes with an [id] of its own, as the jobs the
    client posts do with their text ids, is stored under that id while
    the counter moves on all the same: it is listed for its analysis, no
    numeric id reaches it through [getBatchJob], [updateBatchJob] or
    [deleteBatchJob], and a later job with the same id takes its place
    in the map. *)
Theorem client_job_ids_are_the_keys :
  forall (s : MemStorage) (now : Date) (insertJob : InsertBatchJob.t) (given : string),
    InsertBatchJob.id insertJob = Some (Text given) ->
    let created := createBatchJob now insertJob s in
    BatchJob.id (fst created) = Text given
    /\ get (Text given) (batchJobs (snd created)) = Some (fst created)
    /\ currentBatchJobId (snd created) = currentBatchJobId s + 1
    /\ (forall id, getBatchJob id (snd created) = getBatchJob id s)
    /\ (forall id updates,
           fst (updateBatchJob id updates (snd created)) = fst (updateBatchJob id updates s))
    /\ (forall id, fst (deleteBatchJob id (snd created)) = fst (deleteBatchJob id s))
    /\ In (fst created)
          (getBatchJobsByAnalysis (InsertBatchJob.analysisId insertJob) (snd created))
    /\ forall now' insertJob',
         InsertBatchJob.id insertJob' = Some (Text given) ->
         let again := createBatchJob now' insertJob' (snd created) in
         get (Text given) (batchJobs (snd again)) = Some (fst again)
         /\ keys (batchJobs (snd again)) = keys (batchJobs (snd created)).
Proof.
  intros s now insertJob given T created. subst created.
  unfold createBatchJob. rewrite T. cbn [fst snd BatchJob.id batchJobs currentBatchJobId].
  assert (O : forall id, get (Num id) (set (Text given)
                 {| BatchJob.id := Text given;
                    BatchJob.analysisId := InsertBatchJob.analysisId insertJob;
                    BatchJob.jobId := InsertBatchJob.jobId insertJob;
                    BatchJob.name := InsertBatchJob.name insertJob;
                    BatchJob.query := InsertBatchJob.query insertJob;
                    BatchJob.model := InsertBatchJob.model insertJob;
                    BatchJob.maxResults := InsertBatchJob.maxResults insertJob;
                    BatchJob.status := InsertBatchJob.status insertJob;
                    BatchJob.results := InsertBatchJob.results insertJob;
                    BatchJob.error := InsertBatchJob.error insertJob;
                    BatchJob.createdAt := now;
                    BatchJob.lastRunAt := InsertBatchJob.lastRunAt insertJob |}
                 (batchJobs s)) = get (Num id) (batchJobs s)).
  { intros id. apply get_set_other. discriminate. }
  split; [reflexivity|]. split; [apply get_set_same|]. split; [reflexivity|].
  split; [exact O|]. split; [|split; [|split]].
  - intros id updates. unfold updateBatchJob. cbn [batchJobs]. rewrite O.
    now destruct (get (Num id) (batchJobs s)).
  - intros id. unfold deleteBatchJob, has. cbn [batchJobs fst]. now rewrite O.
  - unfold getBatchJobsByAnalysis. cbn [batchJobs]. apply filter_In. split.
    + unfold values. apply in_map_iff. eexists (_, _). split; [reflexivity|].
      apply get_In. apply get_set_same.
    + cbn. apply Z.eqb_refl.
  - intros now' insertJob' T'. rewrite T'.
    cbn [fst snd BatchJob.id batchJobs]. split; [apply get_set_same|].
    apply keys_set_present. unfold has. now rewrite get_set_same.
Qed.

Lemma client_job_ids_are_the_keys_witness :
  let job := InsertBatchJob.mk (Some (Text "job_1"%string)) 7 "j"%string "n"%string
                               "q"%string "m"%string 30 None None None None in
  InsertBatchJob.id job = Some (Text "job_1"%string) /\
  forall id, getBatchJob id (snd (createBatchJob 0 job empty)) = getBatchJob id empty.
Proof.
  intros job. split; [reflexivity|].
  apply (client_job_ids_are_the_keys empty 0 job "job_1"%string eq_refl).
Defined.

(** X22.  [createUser] does not look at the username: after any history
    of calls, a second user with a name just taken is stored under the
    next id, both read back by id, and [getUserByUsername] goes on
    answering the first. *)
Theorem usernames_are_not_unique :
  forall (calls : list Call) (first second : InsertUser.t),
    InsertUser.username second = InsertUser.username first ->
    getUserByUsername (InsertUser.username first) (after calls) = None ->
    let one := createUser first (after calls) in
    let two := createUser second (snd one) in
    User.id (fst two) = User.id (fst one) + 1
    /\ getUser (User.id (fst one)) (snd two) = Some (fst one)
    /\ getUser (User.id (fst two)) (snd two) = Some (fst two)
    /\ getUserByUsername (InsertUser.username first) (snd two) = Some (fst one).
Proof.
  intros calls first second E G one two. subst one two.
  destruct (after_entities calls) as [U _]. set (s := after calls) in *.
  assert (U1 := numbered_add (fun user => Num (User.id user)) _ _
                  (fst (createUser first s)) U eq_refl).
  destruct U1 as [N1 A1].
  assert (U2 := numbered_add (fun user => Num (User.id user)) _ _
                  (User.mk (currentUserId s + 1) (InsertUser.username second)
                           (InsertUser.password second)) N1 eq_refl).
  destruct U2 as [N2 A2].
  cbn [createUser fst snd User.id users currentUserId] in *.
  split; [reflexivity|]. split; [|split].
  - unfold getUser. cbn [users]. rewrite get_set_other by (apply Num_inj; lia).
    apply get_set_same.
  - unfold getUser. cbn [users]. apply get_set_same.
  - unfold getUserByUsername in *. cbn [users]. rewrite A2, A1.
    unfold values in *. rewrite !map_app, !find_app, G. cbn.
    now rewrite String.eqb_refl.
Qed.

Lemma usernames_are_not_unique_witness :
  let ann := InsertUser.mk "ann"%string "first"%string in
  let other := InsertUser.mk "ann"%string "second"%string in
  getUserByUsername "ann"%string (after []) = None /\
  getUserByUsername "ann"%string (snd (createUser other (snd (createUser ann (after [])))))
  = Some (fst (createUser ann (after []))).
Proof.
  intros ann other. split; [reflexivity|].
  apply (usernames_are_not_unique [] ann other eq_refl eq_refl).
Defined.

End StorageProperties.

(** ** Rewriting the configuration file *)
Module ConfigFacts.
Import Str Lines Config StrFacts.
Local Open Scope string_scope.

Lemma find_first_leftmost pat s before after :
  leftmost pat s before after -> find_first pat s = Some (before, after).
Proof.
  intros L. pose proof (find_first_spec pat s) as F.
  destruct (find_first pat s) as [[b a]|].
  - destruct (leftmost_unique pat s b a before after F L) as [-> ->]. reflexivity.
  - destruct L as [E _]. exfalso. exact (F before after E).
Qed.

Lemma strip_prefix_app pat rest : strip_prefix pat (pat ++ rest) = Some rest.
Proof. now apply strip_prefix_Some. Qed.

(** Whether [pat] starts a text is decided by the first characters, as
    many as [pat] has. *)
Lemma strip_prefix_None_ext pat u x y :
  (String.length pat <= String.length u)%nat ->
  strip_prefix pat (u ++ x) = None -> strip_prefix pat (u ++ y) = None.
Proof.
  revert u; induction pat as [|a pat IH]; intros u L H; [discriminate|].
  destruct u as [|b u]; [cbn in L; lia|].
  cbn in *. destruct (Ascii.eqb a b); [|reflexivity].
  apply IH; [lia | exact H].
Qed.

(** Where [pat] stands leftmost does not depend on what follows it. *)
Lemma find_first_ext pat before x y :
  find_first pat (before ++ pat ++ x) = Some (before, x) ->
  find_first pat (before ++ pat ++ y) = Some (before, y).
Proof.
  induction before as [|c before IH]; intros H.
  - cbn [append]. destruct pat as [|a pat]; [destruct y; reflexivity|].
    change (String a pat ++ y) with (String a (pat ++ y)).
    cbn [find_first]. change (String a (pat ++ y)) with (String a pat ++ y).
    now rewrite strip_prefix_app.
  - change (String c before ++ pat ++ x) with (String c (before ++ pat ++ x)) in H.
    change (String c before ++ pat ++ y) with (String c (before ++ pat ++ y)).
    destruct pat as [|a pat]; [cbn in H; discriminate|].
    cbn [find_first] in *.
    destruct (strip_prefix (String a pat) (String c (before ++ String a pat ++ x))) eqn:S;
      [discriminate|].
    assert (S' : strip_prefix (String a pat) (String c before ++ String a pat ++ y) = None).
    { rewrite <- append_assoc.
      apply (strip_prefix_None_ext (String a pat) (String c before ++ String a pat) x y).
      - rewrite length_append_string. cbn. lia.
      - rewrite append_assoc. exact S. }
    change (String c before ++ String a pat ++ y)
      with (String c (before ++ String a pat ++ y)) in S'.
    rewrite S'.
    destruct (find_first (String a pat) (before ++ String a pat ++ x)) as [[b' a']|] eqn:F;
      [|discriminate].
    injection H as -> ->. now rewrite (IH eq_refl).
Qed.

Lemma find_backtick old after :
  backtick_free old = true -> find_first "`" (old ++ "`" ++ after) = Some (old, after).
Proof.
  induction old as [|c old IH]; intros H; [reflexivity|].
  cbn [backtick_free] in H. apply andb_true_iff in H as [Hc Ho].
  apply negb_true_iff in Hc.
  change (String c old ++ "`" ++ after) with (String c (old ++ "`" ++ after)).
  cbn [find_first strip_prefix]. rewrite Ascii.eqb_sym, Hc, (IH Ho). reflexivity.
Qed.

Lemma escape_plain s : backtick_free s = true -> escapeBackticks s = s.
Proof.
  induction s as [|c s IH]; intros H; [reflexivity|].
  cbn in *. apply andb_true_iff in H as [Hc Hs]. apply negb_true_iff in Hc.
  now rewrite Hc, IH.
Qed.

Lemma escape_app a b : escapeBackticks (a ++ b) = escapeBackticks a ++ escapeBackticks b.
Proof.
  induction a as [|c a IH]; [reflexivity|]. cbn. rewrite IH.
  now destruct (Ascii.eqb c "`").
Qed.

Lemma has_dollar_app a b : has_dollar (a ++ b) = has_dollar a || has_dollar b.
Proof.
  induction a as [|c a IH]; [reflexivity|].
  change (String c a ++ b) with (String c (a ++ b)).
  rewrite !has_dollar_cons, IH. now destruct (Ascii.eqb c "$").
Qed.

Lemma has_dollar_escape s : has_dollar (escapeBackticks s) = has_dollar s.
Proof.
  induction s as [|c s IH]; [reflexivity|]. cbn [escapeBackticks].
  destruct (Ascii.eqb_spec c "`") as [->|N].
  - rewrite !has_dollar_cons. cbn. exact IH.
  - now rewrite !has_dollar_cons, IH.
Qed.

(** One replacement of the entry [key], by a text without [$]. *)
Lemma replaceEntry_plain key before old after entry :
  find_first (key ++ ": `") (before ++ (key ++ ": `") ++ old ++ "`" ++ after)
  = Some (before, old ++ "`" ++ after) ->
  backtick_free old = true -> has_dollar entry = false ->
  replaceEntry key (before ++ (key ++ ": `") ++ old ++ "`" ++ after) entry
  = before ++ entry ++ after.
Proof.
  intros F B D. unfold replaceEntry. rewrite F, (find_backtick old after B).
  now rewrite (expand_literal _ _ _ _ D).
Qed.

Lemma entry_plain key prompt :
  (key = "analysis" \/ key = "reasoning") -> has_dollar prompt = false ->
  has_dollar (key ++ ": `" ++ escapeBackticks prompt ++ "`") = false.
Proof.
  intros K D. rewrite !has_dollar_app, has_dollar_escape, D.
  destruct K as [-> | ->]; reflexivity.
Qed.

Lemma update_is_replaceEntry key prompt content :
  (key = "analysis" \/ key = "reasoning") -> is_empty prompt = false ->
  updateDefaultPrompt key prompt content
  = Some (replaceEntry key content (key ++ ": `" ++ escapeBackticks prompt ++ "`")).
Proof.
  intros K E. unfold updateDefaultPrompt. rewrite E.
  destruct K as [-> | ->]; reflexivity.
Qed.

Lemma backtick_free_app a b :
  backtick_free (a ++ b) = backtick_free a && backtick_free b.
Proof.
  induction a as [|c a IH]; [reflexivity|]. cbn. rewrite IH. apply andb_assoc.
Qed.

End ConfigFacts.

Section ConfigProperties.
Import Str Lines Config StrFacts ConfigFacts.
Local Open Scope string_scope.

(** X23.  On a configuration text whose leftmost entry of the key closes
    with a backtick, updating the analysis or the reasoning prompt with
    a text that is not empty and has neither backtick nor dollar sign
    replaces the text between the backticks and nothing else; a second
    such update overwrites the first. *)
Theorem default_prompt_last_write_wins :
  forall (type prompt next before old after : string),
    type = "analysis" \/ type = "reasoning" ->
    leftmost (type ++ ": `") (before ++ (type ++ ": `") ++ old ++ "`" ++ after)
             before (old ++ "`" ++ after) ->
    backtick_free old = true ->
    is_empty prompt = false -> backtick_free prompt = true -> has_dollar prompt = false ->
    is_empty next = false -> backtick_free next = true -> has_dollar next = false ->
    let content := before ++ (type ++ ": `") ++ old ++ "`" ++ after in
    let written := before ++ (type ++ ": `") ++ prompt ++ "`" ++ after in
    updateDefaultPrompt type prompt content = Some written
    /\ updateDefaultPrompt type next written
       = Some (before ++ (type ++ ": `") ++ next ++ "`" ++ after)
    /\ updateDefaultPrompt type next written = updateDefaultPrompt type next content.
Proof.
  intros type prompt next before old after K L Bo Ep Bp Dp En Bn Dn content written.
  subst content written.
  pose proof (find_first_leftmost _ _ _ _ L) as F.
  pose proof (find_first_ext _ _ _ (prompt ++ "`" ++ after) F) as F'.
  assert (U : forall p o,
             find_first (type ++ ": `") (before ++ (type ++ ": `") ++ o ++ "`" ++ after)
             = Some (before, o ++ "`" ++ after) ->
             backtick_free o = true ->
             is_empty p = false -> backtick_free p = true -> has_dollar p = false ->
             updateDefaultPrompt type p (before ++ (type ++ ": `") ++ o ++ "`" ++ after)
             = Some (before ++ (type ++ ": `") ++ p ++ "`" ++ after)).
  { intros p o Fo Bo' Ep' Bp' Dp'.
    rewrite (update_is_replaceEntry type p _ K Ep').
    rewrite (replaceEntry_plain type before o after _ Fo Bo' (entry_plain type p K Dp')).
    rewrite (escape_plain p Bp'). now rewrite !append_assoc. }
  split; [|split].
  - now apply U.
  - now apply U.
  - rewrite (U next prompt F' Bp En Bn Dn). symmetry. now apply U.
Qed.

Lemma default_prompt_last_write_wins_witness :
  leftmost "analysis: `" "{ analysis: `old`, reasoning: `r` }" "{ " "old`, reasoning: `r` }" /\
  updateDefaultPrompt "analysis" "new" "{ analysis: `old`, reasoning: `r` }"
  = Some "{ analysis: `new`, reasoning: `r` }".
Proof.
  assert (L : leftmost "analysis: `" "{ analysis: `old`, reasoning: `r` }" "{ "
                       "old`, reasoning: `r` }")
    by exact (find_first_spec "analysis: `" "{ analysis: `old`, reasoning: `r` }").
  split; [exact L|].
  apply (default_prompt_last_write_wins "analysis" "new" "next" "{ " "old"
           ", reasoning: `r` }" (or_introl eq_refl) L eq_refl eq_refl eq_refl eq_refl
           eq_refl eq_refl eq_refl).
Defined.

(** X24.  A prompt with a backtick in it is written with the backtick
    escaped; the next update replaces the text up to that backtick only,
    so that the rest of the old prompt stays in the file behind the new
    entry. *)
Theorem backtick_outlives_the_next_update :
  forall (type head tail next before old after : string),
    type = "analysis" \/ type = "reasoning" ->
    leftmost (type ++ ": `") (before ++ (type ++ ": `") ++ old ++ "`" ++ after)
             before (old ++ "`" ++ after) ->
    backtick_free old = true ->
    backtick_free head = true -> has_dollar (head ++ "`" ++ tail) = false ->
    is_empty next = false -> backtick_free next = true -> has_dollar next = false ->
    let content := before ++ (type ++ ": `") ++ old ++ "`" ++ after in
    let written :=
      before ++ (type ++ ": `") ++ head ++ "\`" ++ escapeBackticks tail ++ "`" ++ after in
    updateDefaultPrompt type (head ++ "`" ++ tail) content = Some written
    /\ updateDefaultPrompt type next written
       = Some (before ++ (type ++ ": `") ++ next ++ "`"
                      ++ escapeBackticks tail ++ "`" ++ after).
Proof.
  intros type head tail next before old after K L Bo Bh Dp En Bn Dn content written.
  subst content written.
  pose proof (find_first_leftmost _ _ _ _ L) as F.
  assert (Ep : is_empty (head ++ "`" ++ tail) = false) by now destruct head.
  assert (Esc : escapeBackticks (head ++ "`" ++ tail)
                = (head ++ "\") ++ "`" ++ escapeBackticks tail).
  { rewrite escape_app, (escape_plain head Bh). cbn. now rewrite append_assoc. }
  assert (W : before ++ (type ++ ": `") ++ head ++ "\`" ++ escapeBackticks tail ++ "`" ++ after
              = before ++ (type ++ ": `") ++ (head ++ "\") ++ "`"
                       ++ (escapeBackticks tail ++ "`" ++ after)).
  { now rewrite (append_assoc head). }
  split.
  - rewrite (update_is_replaceEntry type _ _ K Ep).
    rewrite (replaceEntry_plain type before old after _ F Bo (entry_plain type _ K Dp)).
    rewrite Esc, W. now rewrite !append_assoc.
  - rewrite W.
    pose proof (find_first_ext _ _ _ ((head ++ "\") ++ "`"
                                        ++ (escapeBackticks tail ++ "`" ++ after)) F) as F'.
    assert (Bh' : backtick_free (head ++ "\") = true)
      by (rewrite backtick_free_app, Bh; reflexivity).
    rewrite (update_is_replaceEntry type _ _ K En).
    rewrite (replaceEntry_plain type before _ _ _ F' Bh' (entry_plain type _ K Dn)).
    rewrite (escape_plain next Bn). now rewrite !append_assoc.
Qed.

Lemma backtick_outlives_the_next_update_witness :
  leftmost "analysis: `" "{ analysis: `old`, reasoning: `r` }" "{ " "old`, reasoning: `r` }" /\
  updateDefaultPrompt "analysis" "new" "{ analysis: `use \`x\` here`, reasoning: `r` }"
  = Some "{ analysis: `new`x\` here`, reasoning: `r` }".
Proof.
  assert (L : leftmost "analysis: `" "{ analysis: `old`, reasoning: `r` }" "{ "
                       "old`, reasoning: `r` }")
    by exact (find_first_spec "analysis: `" "{ analysis: `old`, reasoning: `r` }").
  split; [exact L|].
  apply (backtick_outlives_the_next_update "analysis" "use " "x` here" "new" "{ " "old"
           ", reasoning: `r` }" (or_introl eq_refl) L eq_refl eq_refl eq_refl eq_refl
           eq_refl eq_refl).
Defined.

End ConfigProperties.

(** ** Rendering the default prompts *)
Module RenderFacts.
Import Str Lines Prompt StrFacts ConfigFacts.
Local Open Scope string_scope.

(** A text without the first character of [pat] is passed over. *)
Lemma find_first_skip p pat u s :
  lacks p u = true ->
  find_first (String p pat) (u ++ s) = further u (find_first (String p pat) s).
Proof.
  induction u as [|c u IH]; intros L.
  - cbn [append]. unfold further. now destruct (find_first (String p pat) s) as [[b a]|].
  - cbn [lacks] in L. apply andb_true_iff in L as [Lc Lu]. apply negb_true_iff in Lc.
    change (String c u ++ s) with (String c (u ++ s)).
    cbn [find_first strip_prefix]. rewrite Lc, (IH Lu).
    unfold further. now destruct (find_first (String p pat) s) as [[b a]|].
Qed.

Lemma strip_prefix_char pat u c r :
  lacks c pat = true -> strip_prefix pat u = None ->
  strip_prefix pat (u ++ String c r) = None.
Proof.
  revert u; induction pat as [|a pat IH]; intros u L H; [discriminate|].
  cbn [lacks] in L. apply andb_true_iff in L as [La Lp]. apply negb_true_iff in La.
  destruct u as [|b u].
  - cbn. now rewrite Ascii.eqb_sym, La.
  - cbn in *. destruct (Ascii.eqb a b); [now apply IH | reflexivity].
Qed.

(** A text in which [pat] does not occur, followed by a character [pat]
    does not have, is passed over. *)
Lemma find_first_pass pat t c r :
  pat <> "" -> lacks c pat = true -> find_first pat t = None ->
  find_first pat (t ++ String c r) = further t (find_first pat (String c r)).
Proof.
  intros NE L. remember (find_first pat (String c r)) as found eqn:E.
  induction t as [|b t IH]; intros H.
  - cbn [append]. rewrite <- E. unfold further. now destruct found as [[x y]|].
  - change (String b t ++ String c r) with (String b (t ++ String c r)).
    cbn [find_first] in H.
    destruct (strip_prefix pat (String b t)) eqn:S; [discriminate|].
    destruct (find_first pat t) as [[x y]|] eqn:F; [discriminate|].
    assert (S' : strip_prefix pat (String b (t ++ String c r)) = None)
      by exact (strip_prefix_char pat (String b t) c r L S).
    change (find_first pat (String b (t ++ String c r)))
      with (match strip_prefix pat (String b (t ++ String c r)) with
            | Some rest => Some ("", rest)
            | None => match find_first pat (t ++ String c r) with
                      | Some (before, after) => Some (String b before, after)
                      | None => None
                      end
            end).
    rewrite S', (IH eq_refl).
    unfold further. now destruct found as [[x y]|].
Qed.

Lemma find_first_pass_text pat t s :
  pat <> "" ->
  match s with String c _ => lacks c pat | "" => false end = true ->
  find_first pat t = None ->
  find_first pat (t ++ s) = further t (find_first pat s).
Proof.
  destruct s as [|c r]; [discriminate|]. apply find_first_pass.
Qed.

Lemma absent_find_first pat s : absent pat s -> find_first pat s = None.
Proof.
  intros A. pose proof (find_first_spec pat s) as F.
  destruct (find_first pat s) as [[b a]|]; [|reflexivity].
  destruct F as [E _]. exfalso. exact (A b a E).
Qed.

Lemma replace_found s pat replacement before after :
  find_first pat s = Some (before, after) -> has_dollar replacement = false ->
  replace s pat replacement = before ++ replacement ++ after.
Proof.
  intros F D. unfold replace. rewrite F. now rewrite (expand_literal _ _ _ _ D).
Qed.

End RenderFacts.

Section RenderProperties.
Import Str Lines Prompt Defaults StrFacts ConfigFacts RenderFacts.
Local Open Scope string_scope.

Ltac split_at pat s k :=
  let found := eval vm_compute in (find_first pat s) in
  lazymatch found with
  | Some (?before, ?after) => k before after
  end.

(** X25.  With the default templates and bindings without dollar sign,
    the analysis prompt has traces, datasets and conversation each in
    the place of its placeholder provided the traces text does not
    contain [{datasets}], and the reasoning prompt has conversation and
    traces in place provided the conversation does not contain
    [{traces}]; where it does, the leftmost occurrence inside the
    inserted text takes the binding and the placeholder of the template
    stays. *)
Theorem default_prompts_render_in_place :
  (exists intro beforeDatasets beforeConversation rest,
      analysis DEFAULT_PROMPTS
      = intro ++ "{traces}" ++ beforeDatasets ++ "{datasets}" ++ beforeConversation
              ++ "{conversation}" ++ rest
      /\ forall conversation traces datasets,
           has_dollar conversation = false -> has_dollar traces = false ->
           has_dollar datasets = false ->
           (absent "{datasets}" traces ->
            finalPrompt (analysis DEFAULT_PROMPTS) conversation traces datasets
            = intro ++ traces ++ beforeDatasets ++ datasets ++ beforeConversation
                    ++ conversation ++ rest)
           /\ forall head tail,
                leftmost "{datasets}" traces head tail ->
                finalPrompt (analysis DEFAULT_PROMPTS) conversation traces datasets
                = intro ++ (head ++ datasets ++ tail) ++ beforeDatasets ++ "{datasets}"
                        ++ beforeConversation ++ conversation ++ rest)
  /\ (exists intro beforeTraces rest,
         reasoning DEFAULT_PROMPTS
         = intro ++ "{conversation}" ++ beforeTraces ++ "{traces}" ++ rest
         /\ forall conversation traces,
              has_dollar conversation = false -> has_dollar traces = false ->
              (absent "{traces}" conversation ->
               reasoningPrompt (reasoning DEFAULT_PROMPTS) conversation traces
               = intro ++ conversation ++ beforeTraces ++ traces ++ rest)
              /\ forall head tail,
                   leftmost "{traces}" conversation head tail ->
                   reasoningPrompt (reasoning DEFAULT_PROMPTS) conversation traces
                   = intro ++ (head ++ traces ++ tail) ++ beforeTraces ++ "{traces}" ++ rest).
Proof.
  split.
  - split_at "{traces}" (analysis DEFAULT_PROMPTS) ltac:(fun intro r1 =>
      split_at "{datasets}" r1 ltac:(fun m1 r2 =>
        split_at "{conversation}" r2 ltac:(fun m2 rest =>
          (pose (i := intro); pose (b1 := m1); pose (b2 := m2); pose (r := rest);
           exists i; exists b1; exists b2; exists r)))).
    split; [vm_compute; reflexivity|].
    intros conversation traces datasets Dc Dt Dd.
    assert (F1 : find_first "{conversation}" (analysis DEFAULT_PROMPTS)
                 = Some (i ++ "{traces}" ++ b1 ++ "{datasets}" ++ b2, r))
      by (vm_compute; reflexivity).
    assert (R1 : replace (analysis DEFAULT_PROMPTS) "{conversation}" conversation
                 = i ++ "{traces}" ++ (b1 ++ "{datasets}" ++ b2 ++ conversation ++ r)).
    { rewrite (replace_found _ _ _ _ _ F1 Dc). now rewrite !append_assoc. }
    assert (F2 : find_first "{traces}"
                   (i ++ "{traces}" ++ (b1 ++ "{datasets}" ++ b2 ++ conversation ++ r))
                 = Some (i, b1 ++ "{datasets}" ++ b2 ++ conversation ++ r)).
    { apply (find_first_ext "{traces}" i ""). vm_compute. reflexivity. }
    assert (R2 : replace (replace (analysis DEFAULT_PROMPTS) "{conversation}" conversation)
                         "{traces}" traces
                 = i ++ traces ++ b1 ++ "{datasets}" ++ (b2 ++ conversation ++ r)).
    { rewrite R1. now rewrite (replace_found _ _ _ _ _ F2 Dt). }
    assert (Li : lacks "{" i = true) by (vm_compute; reflexivity).
    assert (Mb : find_first "{datasets}" (b1 ++ "{datasets}" ++ (b2 ++ conversation ++ r))
                 = Some (b1, b2 ++ conversation ++ r)).
    { apply (find_first_ext "{datasets}" b1 ""). vm_compute. reflexivity. }
    unfold finalPrompt. rewrite R2. split.
    + intros A.
      assert (F3 : find_first "{datasets}"
                     (i ++ traces ++ b1 ++ "{datasets}" ++ (b2 ++ conversation ++ r))
                   = Some (i ++ traces ++ b1, b2 ++ conversation ++ r)).
      { rewrite (find_first_skip "{" "datasets}" i _ Li).
        rewrite (find_first_pass_text "{datasets}" traces
                   (b1 ++ "{datasets}" ++ (b2 ++ conversation ++ r))
                   ltac:(discriminate) eq_refl
                   (absent_find_first _ _ A)).
        rewrite Mb. reflexivity. }
      rewrite (replace_found _ _ _ _ _ F3 Dd). now rewrite !append_assoc.
    + intros head tail L.
      pose proof (find_first_leftmost _ _ _ _ L) as Ft.
      destruct L as [Et _].
      assert (F3 : find_first "{datasets}"
                     (i ++ traces ++ b1 ++ "{datasets}" ++ (b2 ++ conversation ++ r))
                   = Some (i ++ head,
                           tail ++ b1 ++ "{datasets}" ++ (b2 ++ conversation ++ r))).
      { rewrite (find_first_skip "{" "datasets}" i _ Li).
        rewrite Et in Ft |- *. rewrite !append_assoc.
        now rewrite (find_first_ext "{datasets}" head tail _ Ft). }
      rewrite (replace_found _ _ _ _ _ F3 Dd). now rewrite !append_assoc.
  - split_at "{conversation}" (reasoning DEFAULT_PROMPTS) ltac:(fun intro r1 =>
      split_at "{traces}" r1 ltac:(fun m1 rest =>
        (pose (i := intro); pose (b1 := m1); pose (r := rest);
         exists i; exists b1; exists r))).
    split; [vm_compute; reflexivity|].
    intros conversation traces Dc Dt.
    assert (F1 : find_first "{conversation}" (reasoning DEFAULT_PROMPTS)
                 = Some (i, b1 ++ "{traces}" ++ r))
      by (vm_compute; reflexivity).
    assert (R1 : replace (reasoning DEFAULT_PROMPTS) "{conversation}" conversation
                 = i ++ conversation ++ b1 ++ "{traces}" ++ r)
      by exact (replace_found _ _ _ _ _ F1 Dc).
    assert (Li : lacks "{" i = true) by (vm_compute; reflexivity).
    assert (Mb : find_first "{traces}" (b1 ++ "{traces}" ++ r) = Some (b1, r))
      by (vm_compute; reflexivity).
    unfold reasoningPrompt. rewrite R1. split.
    + intros A.
      assert (F2 : find_first "{traces}" (i ++ conversation ++ b1 ++ "{traces}" ++ r)
                   = Some (i ++ conversation ++ b1, r)).
      { rewrite (find_first_skip "{" "traces}" i _ Li).
        rewrite (find_first_pass_text "{traces}" conversation (b1 ++ "{traces}" ++ r)
                   ltac:(discriminate) eq_refl
                   (absent_find_first _ _ A)).
        rewrite Mb. reflexivity. }
      rewrite (replace_found _ _ _ _ _ F2 Dt). now rewrite !append_assoc.
    + intros head tail L.
      pose proof (find_first_leftmost _ _ _ _ L) as Fc.
      destruct L as [Ec _].
      assert (F2 : find_first "{traces}" (i ++ conversation ++ b1 ++ "{traces}" ++ r)
                   = Some (i ++ head, tail ++ b1 ++ "{traces}" ++ r)).
      { rewrite (find_first_skip "{" "traces}" i _ Li).
        rewrite Ec in Fc |- *. rewrite !append_assoc.
        now rewrite (find_first_ext "{traces}" head tail _ Fc). }
      rewrite (replace_found _ _ _ _ _ F2 Dt). now rewrite !append_assoc.
Qed.

End RenderProperties.

